(** * Olarm API client: rate limiter, response classification and state decoders

    A shallow embedding of [custom_components/olarm_sensors/olarm_api.py]
    and of the constants of [const.py] it uses.

    - Time ([time.monotonic()], a float number of seconds) is an exact
      rational [Qc]; float rounding is not part of the model.
    - In [OlarmRateLimiter] and in the requests, a call of
      [wait_for_slot] is one step: the call runs alone, its code takes
      no time, and [asyncio.sleep d] advances an explicit clock by
      [max 0 d] and is recorded in the clock's log of sleeps.
    - [EventLoop] has the same call on the event loop: time passes
      before every reading of the clock, the call is suspended at each
      [await], and the other users of the limiter run meanwhile.
    - Python exceptions are the [Raise] results of an error monad.
    - Parsed JSON is the type [json]; dicts are association lists in
      insertion order. JSON floats are not part of the model.
    - A string is a sequence of code points below 256. *)

From Stdlib Require Import ZArith QArith Qcanon String Ascii List Lia Lqa.
From stdpp Require Import base decidable numbers strings list gmap pretty.
Import ListNotations.

Open Scope string_scope.
Open Scope list_scope.
Open Scope Z_scope.

(** ** Constants of [const.py] *)

Definition Zc (z : Z) : Qc := Q2Qc (inject_Z z).

Definition API_MIN_REQUEST_GAP : Qc := Zc 2.
Definition API_BACKOFF_BASE : Z := 60.
Definition API_BACKOFF_MAX : Z := 300.
Definition API_MAX_CONSECUTIVE_429 : Z := 3.

(** ** The clock *)

Definition Qcmax (x y : Qc) : Qc := if bool_decide (x < y)%Qc then y else x.

Record Clock := mkClock {
  monotonic : Qc;      (* what [time.monotonic()] returns *)
  slept : list Qc      (* the arguments of the [asyncio.sleep] calls awaited so far *)
}.

Definition sleep (d : Qc) (clk : Clock) : Clock :=
  {| monotonic := (monotonic clk + Qcmax 0 d)%Qc; slept := slept clk ++ [d] |}.

Definition tick (d : Qc) (clk : Clock) : Clock :=
  {| monotonic := (monotonic clk + Qcmax 0 d)%Qc; slept := slept clk |}.

(** ** [class OlarmRateLimiter] *)

Module OlarmRateLimiter.

Record t := mk {
  _min_gap : Qc;
  _last_request_time : Qc;
  _backoff_until : Qc;
  _consecutive_429s : Z
}.

(* __init__(self, min_gap = API_MIN_REQUEST_GAP) *)
Definition init (min_gap : Qc) : t :=
  {| _min_gap := min_gap; _last_request_time := 0%Qc;
     _backoff_until := 0%Qc; _consecutive_429s := 0 |}.

Definition new : t := init API_MIN_REQUEST_GAP.

Definition is_backed_off (self : t) (clk : Clock) : bool :=
  bool_decide (monotonic clk < _backoff_until self)%Qc.

Definition backoff_remaining (self : t) (clk : Clock) : Qc :=
  let remaining := (_backoff_until self - monotonic clk)%Qc in
  Qcmax 0 remaining.

Definition wait_for_slot (self : t) (clk : Clock) : bool * t * Clock :=
  if bool_decide (API_MAX_CONSECUTIVE_429 <= _consecutive_429s self) then
    (false, self, clk)
  else
    let clk1 :=
      if is_backed_off self clk then
        let wait_time := backoff_remaining self clk in
        sleep wait_time clk
      else clk in
    let now := monotonic clk1 in
    let elapsed := (now - _last_request_time self)%Qc in
    let clk2 :=
      if bool_decide (elapsed < _min_gap self)%Qc then
        let gap_wait := (_min_gap self - elapsed)%Qc in
        sleep gap_wait clk1
      else clk1 in
    (true,
     {| _min_gap := _min_gap self;
        _last_request_time := monotonic clk2;
        _backoff_until := _backoff_until self;
        _consecutive_429s := _consecutive_429s self |},
     clk2).

Definition record_success (self : t) : t :=
  {| _min_gap := _min_gap self;
     _last_request_time := _last_request_time self;
     _backoff_until := _backoff_until self;
     _consecutive_429s := 0 |}.

Definition backoff_seconds (hits : Z) : Z :=
  Z.min (API_BACKOFF_BASE * 2 ^ (hits - 1)) API_BACKOFF_MAX.

Definition record_rate_limit (self : t) (clk : Clock) : t :=
  let hits := _consecutive_429s self + 1 in
  {| _min_gap := _min_gap self;
     _last_request_time := _last_request_time self;
     _backoff_until := (monotonic clk + Zc (backoff_seconds hits))%Qc;
     _consecutive_429s := hits |}.

Definition reset_cycle (self : t) : t :=
  {| _min_gap := _min_gap self;
     _last_request_time := _last_request_time self;
     _backoff_until := _backoff_until self;
     _consecutive_429s := 0 |}.

(** Calls on one limiter, interleaved with the passing of time. *)
Inductive call :=
  | WaitForSlot
  | RecordSuccess
  | RecordRateLimit
  | ResetCycle
  | Elapse (d : Qc).

Definition step (c : call) (w : t * Clock) : t * Clock * list bool :=
  let '(self, clk) := w in
  match c with
  | WaitForSlot =>
      let '(allowed, self', clk') := wait_for_slot self clk in
      (self', clk', [allowed])
  | RecordSuccess => (record_success self, clk, [])
  | RecordRateLimit => (record_rate_limit self clk, clk, [])
  | ResetCycle => (reset_cycle self, clk, [])
  | Elapse d => (self, tick d clk, [])
  end.

(* the world after the calls, and what each [wait_for_slot] returned *)
Fixpoint run (cs : list call) (w : t * Clock) : t * Clock * list bool :=
  match cs with
  | [] => (w, [])
  | c :: cs' =>
      let '(w1, out1) := step c w in
      let '(w2, out2) := run cs' w1 in
      (w2, out1 ++ out2)
  end.

(* a call that leaves the streak of rate-limit hits alone or extends it *)
Definition keeps_streak (c : call) : bool :=
  match c with
  | RecordSuccess | ResetCycle => false
  | _ => true
  end.

Definition is_rate_limit (c : call) : bool :=
  match c with RecordRateLimit => true | _ => false end.

Definition hits_in (cs : list call) : Z :=
  Z.of_nat (length (List.filter is_rate_limit cs)).

End OlarmRateLimiter.

(** ** Exceptions, and computations that may raise *)

Inductive exn :=
  | KeyError
  | IndexError
  | TypeError
  | ValueError
  | AttributeError
  | OverflowError
  | OSError
  | UnboundLocalError
  | JSONDecodeError
  | APIClientConnectorError
  | APINotFoundError.

#[export] Instance exn_eq_dec : EqDecision exn.
Proof. solve_decision. Defined.

Inductive Res (A : Type) :=
  | Ok (a : A)
  | Raise (e : exn).
Arguments Ok {A} a.
Arguments Raise {A} e.

#[export] Instance Res_ret : MRet Res := @Ok.
#[export] Instance Res_bind : MBind Res :=
  λ A B f m, match m with Ok a => f a | Raise e => Raise e end.
#[export] Instance Res_fmap : FMap Res :=
  λ A B f m, match m with Ok a => Ok (f a) | Raise e => Raise e end.

(* [try: m except <caught>: h] *)
Definition try_except {A} (m : Res A) (caught : exn → bool) (h : Res A) : Res A :=
  match m with
  | Ok a => Ok a
  | Raise e => if caught e then h else Raise e
  end.

(** A computation over a mutable state [S] that may raise; what was
    written to the state before the exception stays written. *)
Definition St (S A : Type) : Type := S → S * Res A.

#[export] Instance St_ret S : MRet (St S) := λ A a s, (s, Ok a).
#[export] Instance St_bind S : MBind (St S) :=
  λ A B f m s,
    match m s with
    | (s', Ok a) => f a s'
    | (s', Raise e) => (s', Raise e)
    end.

Definition lift {S A} (r : Res A) : St S A := λ s, (s, r).

Definition st_try {S A} (m : St S A) (caught : exn → bool) (h : St S A) : St S A :=
  λ s,
    match m s with
    | (s', Ok a) => (s', Ok a)
    | (s', Raise e) => if caught e then h s' else (s', Raise e)
    end.

(* [for i in idx: body i] *)
Fixpoint for_ {S I} (idx : list I) (body : I → St S unit) : St S unit :=
  match idx with
  | [] => mret tt
  | i :: idx' => body i;; for_ idx' body
  end.

(** ** Parsed JSON and the Python operations the code applies to it *)

(* What [response.json()] gives: [None], booleans, integers, strings,
   lists and dicts. A JSON number with a fraction or an exponent parses
   to a Python float, which the model leaves out: it is about the
   devices and answers whose numbers are integers. *)
#[warnings="-register-all"]
Inductive json :=
  | JNull
  | JBool (b : bool)
  | JInt (z : Z)
  | JStr (s : string)
  | JArr (l : list json)
  | JObj (kvs : list (string * json)).

(* the first binding of a key; the keys of a dict are distinct *)
Fixpoint assoc {A} (k : string) (kvs : list (string * A)) : option A :=
  match kvs with
  | [] => None
  | (k', v) :: kvs' => if String.eqb k k' then Some v else assoc k kvs'
  end.

(* d[k] = v on a dict: in place when the key is there, at the end when not *)
Fixpoint assoc_set {A} (k : string) (v : A) (kvs : list (string * A)) : list (string * A) :=
  match kvs with
  | [] => [(k, v)]
  | (k', v') :: kvs' =>
      if String.eqb k k' then (k', v) :: kvs' else (k', v') :: assoc_set k v kvs'
  end.

Definition chars (s : string) : list json :=
  map (λ c, JStr (String c EmptyString)) (list_ascii_of_string s).

(* [x[k]] with a string key *)
Definition getitem (x : json) (k : string) : Res json :=
  match x with
  | JObj kvs => match assoc k kvs with Some v => Ok v | None => Raise KeyError end
  | _ => Raise TypeError
  end.

(* [x[i]] with an index [i >= 0]; a parsed dict has no integer key *)
Definition getindex (x : json) (i : nat) : Res json :=
  match x with
  | JArr l => match nth_error l i with Some v => Ok v | None => Raise IndexError end
  | JStr s => match nth_error (chars s) i with Some v => Ok v | None => Raise IndexError end
  | JObj _ => Raise KeyError
  | _ => Raise TypeError
  end.

(* [x.get(k, default)] *)
Definition dict_get (x : json) (k : string) (default : json) : Res json :=
  match x with
  | JObj kvs => Ok (match assoc k kvs with Some v => v | None => default end)
  | _ => Raise AttributeError
  end.

(* [p in s] on strings *)
Fixpoint contains (p s : string) : bool :=
  String.prefix p s ||
  match s with
  | EmptyString => false
  | String _ s' => contains p s'
  end.

Definition eq_str (x : json) (s : string) : bool :=
  match x with JStr t => String.eqb t s | _ => false end.

Definition eq_int (x : json) (n : Z) : bool :=
  match x with
  | JInt z => z =? n
  | JBool b => (if b then 1 else 0) =? n
  | _ => false
  end.

(* [k in x] with a string [k] *)
Definition key_in (k : string) (x : json) : Res bool :=
  match x with
  | JObj kvs => Ok (match assoc k kvs with Some _ => true | None => false end)
  | JArr l => Ok (existsb (λ v, eq_str v k) l)
  | JStr s => Ok (contains k s)
  | _ => Raise TypeError
  end.

Definition py_len (x : json) : Res nat :=
  match x with
  | JArr l => Ok (length l)
  | JStr s => Ok (String.length s)
  | JObj kvs => Ok (length kvs)
  | _ => Raise TypeError
  end.

(* truth value *)
Definition truthy (x : json) : bool :=
  match x with
  | JNull => false
  | JBool b => b
  | JInt z => negb (z =? 0)
  | JStr s => negb (String.eqb s "")
  | JArr l => match l with [] => false | _ => true end
  | JObj kvs => match kvs with [] => false | _ => true end
  end.

(* [x or y] *)
Definition py_or (x y : json) : json := if truthy x then x else y.

Definition is_list (x : json) : bool := match x with JArr _ => true | _ => false end.
Definition is_dict (x : json) : bool := match x with JObj _ => true | _ => false end.

(* [for v in x] *)
Definition py_iter (x : json) : Res (list json) :=
  match x with
  | JArr l => Ok l
  | JStr s => Ok (chars s)
  | JObj kvs => Ok (map (λ kv, JStr kv.1) kvs)
  | _ => Raise TypeError
  end.

(* [x.items()] *)
Definition items (x : json) : Res (list (string * json)) :=
  match x with
  | JObj kvs => Ok kvs
  | _ => Raise AttributeError
  end.

(* an argument of [range]: an int (or a bool, which is one) *)
Definition as_index (x : json) : Res Z :=
  match x with
  | JInt z => Ok z
  | JBool b => Ok (if b then 1 else 0)
  | _ => Raise TypeError
  end.

(* [range(0, n)] *)
Definition range (n : Z) : list nat := seq 0 (Z.to_nat n).

(** *** Strings *)

(* A string of the model is a sequence of the code points below 256:
   [len] and indexing count them one by one, as Python does. Of these,
   [str.lower()] changes [A]-[Z] and the capital letters from U+00C0 to
   U+00DE (U+00D7, the multiplication sign, is no letter), each to the
   code point 32 above it. Text with code points from 256 on is outside
   the model. *)
Definition lower_ascii (c : ascii) : ascii :=
  let n := N_of_ascii c in
  if (((65 <=? n) && (n <=? 90)) ||
      ((192 <=? n) && (n <=? 222) && negb (n =? 215)))%N
  then ascii_of_N (n + 32) else c.

Fixpoint lower (s : string) : string :=
  match s with
  | EmptyString => EmptyString
  | String c s' => String (lower_ascii c) (lower s')
  end.

Definition join (sep : string) (l : list string) : string :=
  match l with
  | [] => ""
  | x :: l' => fold_left (λ acc y, acc +:+ sep +:+ y) l' x
  end.

(* [repr(x)]; a string is put between single quotes as it is, without
   the escapes and the choice of quote of the real [repr] *)
Fixpoint py_repr (x : json) : string :=
  match x with
  | JNull => "None"
  | JBool b => if b then "True" else "False"
  | JInt z => pretty z
  | JStr s => "'" +:+ s +:+ "'"
  | JArr l => "[" +:+ join ", " (map py_repr l) +:+ "]"
  | JObj kvs =>
      "{" +:+ join ", " (map (λ kv, "'" +:+ kv.1 +:+ "': " +:+ py_repr kv.2) kvs) +:+ "}"
  end.

(* [str(x)] *)
Definition py_str (x : json) : string :=
  match x with
  | JStr s => s
  | _ => py_repr x
  end.

(* [s[i] == c] guarded by [len(s) > i] *)
Definition char_is (s : string) (i : nat) (c : ascii) : bool :=
  match String.get i s with
  | Some c' => Ascii.eqb c' c
  | None => false
  end.

(** *** [int(x)] *)

(* the white space of [str.strip()] below 256 *)
Definition is_space (c : ascii) : bool :=
  let n := N_of_ascii c in
  ((n =? 32) || ((9 <=? n) && (n <=? 13)) || ((28 <=? n) && (n <=? 31)) ||
   (n =? 133) || (n =? 160))%N.

Definition is_digit (c : ascii) : bool :=
  let n := N_of_ascii c in ((48 <=? n) && (n <=? 57))%N.

Definition digit_value (c : ascii) : Z := Z.of_N (N_of_ascii c) - 48.

Fixpoint lstrip (cs : list ascii) : list ascii :=
  match cs with
  | c :: cs' => if is_space c then lstrip cs' else cs
  | [] => []
  end.

Definition strip (cs : list ascii) : list ascii := rev (lstrip (rev (lstrip cs))).

(* digits, with single underscores between them *)
Fixpoint digits (acc : Z) (after_digit : bool) (cs : list ascii) : option Z :=
  match cs with
  | [] => if after_digit then Some acc else None
  | c :: cs' =>
      if is_digit c then digits (10 * acc + digit_value c) true cs'
      else if Ascii.eqb c "_" then
             if after_digit then digits acc false cs' else None
           else None
  end.

(* [sys.int_info.default_max_str_digits]: [int] of a string of more
   digits raises [ValueError] (CPython 3.11 and later) *)
Definition max_str_digits : Z := 4300.

Definition int_of_string (s : string) : option Z :=
  let cs := strip (list_ascii_of_string s) in
  if max_str_digits <? Z.of_nat (length (List.filter is_digit cs)) then None
  else
    match cs with
    | "-"%char :: cs => z ← digits 0 false cs; Some (- z)
    | "+"%char :: cs => digits 0 false cs
    | cs => digits 0 false cs
    end.

Definition py_int (x : json) : Res Z :=
  match x with
  | JInt z => Ok z
  | JBool b => Ok (if b then 1 else 0)
  | JStr s => match int_of_string s with Some z => Ok z | None => Raise ValueError end
  | _ => Raise TypeError
  end.

(** *** Local time

    [local_time_text secs hours] stands for
    [(datetime.strptime(time.ctime(secs), "%a %b  %d %X %Y")
      + timedelta(hours=hours)).strftime("%a %d %b %Y %X")],
    which depends on the platform, its time zone and its locale, and
    raises [ValueError], [OverflowError] or [OSError] outside their
    ranges. *)
Class LocalTime := local_time_text : Qc → Z → Res string.

(** ** The records the decoders build *)

Module Sensor.
Record t := mk {
  name : json;
  state : string;
  last_changed : option string;
  type : json;
  zone_number : Z
}.
End Sensor.

Module Bypass.
Record t := mk {
  name : json;
  state : string;
  last_changed : option string;
  zone_number : Z
}.
End Bypass.

Module Panel.
Record t := mk {
  name : string;
  state : json;
  area_number : Z
}.
End Panel.

Module Pgm.
Record t := mk {
  name : json;
  enabled : bool;
  pulse : bool;
  state : bool;
  pgm_number : Z
}.
End Pgm.

Module Ukey.
Record t := mk {
  name : json;
  state : bool;
  ukey_number : Z
}.
End Ukey.

(** ** The state decoders of [class OlarmApi]

    [self.data], [self.bypass_data], [self.panel_data] and the local
    lists [pgms] and [ukeys] are the state of an [St] computation: what
    was appended before an exception is still there when a handler
    returns the list. The log records of the decoders are left out. *)

Definition append {R} (r : R) : St (list R) unit := λ data, (data ++ [r], Ok tt).

(* [except (DictionaryKeyError, KeyError, IndexError, ListIndexError)] *)
Definition key_or_index_error (e : exn) : bool :=
  match e with KeyError | IndexError => true | _ => false end.

(* [except (DictionaryKeyError, KeyError)] *)
Definition key_error (e : exn) : bool :=
  match e with KeyError => true | _ => false end.

(* [except (TypeError, ValueError, KeyError, IndexError)] *)
Definition stamp_error (e : exn) : bool :=
  match e with TypeError | ValueError | KeyError | IndexError => true | _ => false end.

Section Decoders.
Context `{LocalTime}.

(* the [if ... state = "on" else state = "off"] of the two zone loops,
   [code] being ["a"] in [get_sensor_states] and ["b"] in
   [get_sensor_bypass_states] *)
Definition zone_state (olarm_state : json) (zone : nat) (code : string) : Res string :=
  zones ← dict_get olarm_state "zones" (JArr []);
  n ← py_len zones;
  if bool_decide (zone < n)%nat then
    zs ← getitem olarm_state "zones";
    z ← getindex zs zone;
    if String.eqb (lower (py_str z)) code then Ok "on" else Ok "off"
  else Ok "off".

(* the inner [try] of the two zone loops; [hours] is 0 in
   [get_sensor_states] and 2 in [get_sensor_bypass_states] *)
Definition zone_last_changed (olarm_state : json) (zone : nat) (hours : Z)
  : Res (option string) :=
  try_except
    (stamps ← dict_get olarm_state "zonesStamp" (JArr []);
     n ← py_len stamps;
     if bool_decide (zone < n)%nat then
       ss ← getitem olarm_state "zonesStamp";
       x ← getindex ss zone;
       ms ← py_int x;
       txt ← local_time_text (Zc ms / Zc 1000)%Qc hours;
       Ok (Some txt)
     else Ok None)
    stamp_error
    (Ok None).

Definition zone_name (labels : json) (zone : nat) : Res json :=
  n ← py_len labels;
  if bool_decide (zone < n)%nat then
    l ← getindex labels zone;
    if truthy l || eq_str l "" then Ok l
    else Ok (JStr ("Zone " +:+ pretty (Z.of_nat zone + 1)))
  else Ok (JStr ("Zone " +:+ pretty (Z.of_nat zone + 1))).

(* one turn of the zone loop of [get_sensor_states] *)
Definition sensor_record (olarm_state olarm_zones : json) (zone : nat) : Res Sensor.t :=
  state ← zone_state olarm_state zone "a";
  last_changed ← zone_last_changed olarm_state zone 0;
  labels ← dict_get olarm_zones "zonesLabels" (JArr []);
  types ← dict_get olarm_zones "zonesTypes" (JArr []);
  zone_name ← zone_name labels zone;
  nt ← py_len types;
  zone_type ← (if bool_decide (zone < nt)%nat then getindex types zone else Ok (JInt 0));
  Ok {| Sensor.name := zone_name;
        Sensor.state := state;
        Sensor.last_changed := last_changed;
        Sensor.type := zone_type;
        Sensor.zone_number := Z.of_nat zone |}.

(* one turn of the power loop of [get_sensor_states] *)
Definition power_record (zone : Z) (key : string) (value : json) : Res Sensor.t :=
  v ← py_int value;
  let state := if v =? 1 then "on" else "off" in
  let '(key, sensortype) :=
    if String.eqb key "Batt" then ("Battery", 1001) else (key, 1000) in
  Ok {| Sensor.name := JStr ("Powered by " +:+ key);
        Sensor.state := state;
        Sensor.last_changed := None;
        Sensor.type := JInt sensortype;
        Sensor.zone_number := zone |}.

(* the body of the [try] of [get_sensor_states]; [zone], the loop
   variable, is unbound after a loop over an empty range; the power loop
   goes through the items with their positions, [zone] being [zone + 1]
   more at each *)
Definition sensor_states_body (olarm_state olarm_zones : json) : St (list Sensor.t) unit :=
  limit ← lift (x ← getitem olarm_zones "zonesLimit"; as_index x);
  for_ (range limit) (λ zone,
    r ← lift (sensor_record olarm_state olarm_zones zone); append r);;
  zone ← lift (if bool_decide (0 < limit) then Ok (limit - 1 + 1)
               else Raise UnboundLocalError);
  power ← lift (dict_get olarm_state "power" (JObj []));
  power ← lift (
    if truthy power then Ok power
    else
      has_ac ← key_in "powerAC" olarm_state;
      if has_ac : bool then
        ac ← dict_get olarm_state "powerAC" JNull;
        batt ← dict_get olarm_state "powerBattery" JNull;
        Ok (JObj [("AC", JInt (if eq_str ac "ok" then 1 else 0));
                  ("Batt", JInt (if eq_str batt "ok" then 1 else 0))])
      else Ok power);
  kvs ← lift (items power);
  for_ (zip (seq 0 (length kvs)) kvs) (λ kv,
    r ← lift (power_record (zone + Z.of_nat kv.1) kv.2.1 kv.2.2); append r).

Definition get_sensor_states (devices_json : json) : Res (list Sensor.t) :=
  olarm_state ← getitem devices_json "deviceState";
  olarm_zones ← getitem devices_json "deviceProfile";
  match sensor_states_body olarm_state olarm_zones [] with
  | (data, Ok _) => Ok data
  | (data, Raise e) => if key_or_index_error e then Ok data else Raise e
  end.

(* one turn of the loop of [get_sensor_bypass_states] *)
Definition bypass_record (olarm_state olarm_zones : json) (zone : nat) : Res Bypass.t :=
  state ← zone_state olarm_state zone "b";
  last_changed ← zone_last_changed olarm_state zone 2;
  labels ← dict_get olarm_zones "zonesLabels" (JArr []);
  zone_name ← zone_name labels zone;
  Ok {| Bypass.name := zone_name;
        Bypass.state := state;
        Bypass.last_changed := last_changed;
        Bypass.zone_number := Z.of_nat zone |}.

Definition bypass_states_body (olarm_state olarm_zones : json) : St (list Bypass.t) unit :=
  limit ← lift (x ← getitem olarm_zones "zonesLimit"; as_index x);
  for_ (range limit) (λ zone,
    r ← lift (bypass_record olarm_state olarm_zones zone); append r).

Definition get_sensor_bypass_states (devices_json : json) : Res (list Bypass.t) :=
  olarm_state ← getitem devices_json "deviceState";
  olarm_zones ← getitem devices_json "deviceProfile";
  match bypass_states_body olarm_state olarm_zones [] with
  | (bypass_data, Ok _) => Ok bypass_data
  | (bypass_data, Raise e) => if key_or_index_error e then Ok bypass_data else Raise e
  end.

End Decoders.

(* one turn of the loop of [get_panel_states]: the record to append, if any *)
Definition panel_record (olarm_state olarm_zones : json) (area_num : nat)
  : Res (option Panel.t) :=
  name ← (if is_list olarm_zones then
            n ← py_len olarm_zones;
            if bool_decide (area_num < n)%nat then
              l ← getindex olarm_zones area_num;
              if negb (eq_str l "") then Ok l
              else Ok (JStr ("Area " +:+ pretty (Z.of_nat area_num + 1)))
            else Ok (JStr ("Area " +:+ pretty (Z.of_nat area_num + 1)))
          else Ok (JStr ("Area " +:+ pretty (Z.of_nat area_num + 1))));
  areas ← dict_get olarm_state "areas" (JArr []);
  n ← py_len areas;
  if bool_decide (area_num < n)%nat then
    ars ← getitem olarm_state "areas";
    st ← getindex ars area_num;
    Ok (Some {| Panel.name := py_str name;
                Panel.state := st;
                Panel.area_number := Z.of_nat area_num + 1 |})
  else Ok None.

Definition get_panel_states (devices_json : json) : Res (list Panel.t) :=
  olarm_state ← getitem devices_json "deviceState";
  zones ← getitem devices_json "deviceProfile";
  olarm_zones ← dict_get zones "areasLabels" (JArr []);
  n ← py_len olarm_zones;
  area_count ← dict_get zones "areasLimit" (JInt (Z.of_nat n));
  area_count ← as_index area_count;
  match for_ (range area_count) (λ area_num,
          st_try
            (r ← lift (panel_record olarm_state olarm_zones area_num);
             match r with Some r => append r | None => mret tt end)
            key_error
            (mret tt)) [] with
  | (panel_data, Ok _) => Ok panel_data
  | (_, Raise e) => Raise e
  end.

(* one turn of the loop of [get_pgm_zones]; [None] is its [continue] *)
Definition pgm_record (pgm_state pgm_labels pgm_setup : json) (i : nat)
  : Res (option Pgm.t) :=
  state ← (if is_list pgm_state then
             n ← py_len pgm_state;
             if bool_decide (i < n)%nat then
               x ← getindex pgm_state i;
               Ok (String.eqb (lower (py_str x)) "a")
             else Ok false
           else Ok false);
  name ← (if is_list pgm_labels then
            n ← py_len pgm_labels;
            if bool_decide (i < n)%nat then getindex pgm_labels i
            else Ok (JStr ("PGM " +:+ pretty (Z.of_nat i + 1)))
          else Ok (JStr ("PGM " +:+ pretty (Z.of_nat i + 1))));
  setup_val ← (if is_list pgm_setup then
                 n ← py_len pgm_setup;
                 if bool_decide (i < n)%nat then getindex pgm_setup i
                 else Ok (JStr "")
               else Ok (JStr ""));
  if eq_str setup_val "" then Ok None
  else
    let setup_str := match setup_val with JNull => "" | _ => py_str setup_val end in
    let enabled := char_is setup_str 0 "1" in
    let pulse := char_is setup_str 2 "1" in
    let number := Z.of_nat i + 1 in
    let name := if eq_str name "" then JStr ("PGM " +:+ pretty number) else name in
    Ok (Some {| Pgm.name := name;
                Pgm.enabled := enabled;
                Pgm.pulse := pulse;
                Pgm.state := state;
                Pgm.pgm_number := number |}).

(* the first [try] of [get_pgm_zones]: [None] is its [return []] *)
Definition pgm_setup_data (devices_json : json) : Res (option (json * json * json * json)) :=
  profile ← dict_get devices_json "deviceProfile" JNull;
  if negb (is_dict profile) then Ok None
  else
    state_obj ← dict_get devices_json "deviceState" (JObj []);
    pgm_state ← dict_get state_obj "pgm" JNull;
    pgm_labels ← (x ← dict_get profile "pgmLabels" JNull; Ok (py_or x (JArr [])));
    pgm_limit ← (x ← dict_get profile "pgmLimit" JNull; Ok (py_or x (JInt 0)));
    pgm_setup ← (x ← dict_get profile "pgmControl" JNull; Ok (py_or x (JArr [])));
    pgm_limit ← (if eq_int pgm_limit 0 && is_list pgm_labels then
                   n ← py_len pgm_labels; Ok (JInt (Z.of_nat n))
                 else Ok pgm_limit);
    Ok (Some (pgm_state, pgm_labels, pgm_limit, pgm_setup)).

Definition get_pgm_zones (devices_json : json) : Res (list Pgm.t) :=
  setup ← try_except (pgm_setup_data devices_json) key_error (Ok None);
  match setup with
  | None => Ok []
  | Some (pgm_state, pgm_labels, pgm_limit, pgm_setup) =>
      match (limit ← lift (py_int pgm_limit);
             for_ (range limit) (λ i,
               r ← lift (pgm_record pgm_state pgm_labels pgm_setup i);
               match r with Some r => append r | None => mret tt end)) [] with
      | (pgms, Ok _) => Ok pgms
      | (pgms, Raise e) => if key_or_index_error e then Ok pgms else Raise e
      end
  end.

(* one turn of the loop of [get_ukey_zones], up to its [append] *)
Definition ukey_record (ukey_labels ukey_state : json) (i : nat) : Res Ukey.t :=
  x ← getindex ukey_state i;
  v ← py_int x;
  let state := v =? 1 in
  name ← getindex ukey_labels i;
  let number := Z.of_nat i + 1 in
  let name := if eq_str name "" then JStr ("Ukey " +:+ pretty number) else name in
  Ok {| Ukey.name := name; Ukey.state := state; Ukey.ukey_number := number |}.

(* the first [try] of [get_ukey_zones]: [None] is its [return []] *)
Definition ukey_setup_data (devices_json : json) : Res (option (json * json * json)) :=
  profile ← getitem devices_json "deviceProfile";
  has_labels ← key_in "ukeysLabels" profile;
  has_limit ← (if has_labels : bool then
                 profile ← getitem devices_json "deviceProfile";
                 key_in "ukeysLimit" profile
               else Ok false);
  has_control ← (if has_limit : bool then
                   profile ← getitem devices_json "deviceProfile";
                   key_in "ukeysControl" profile
                 else Ok false);
  if has_control : bool then
    ukey_labels ← getitem profile "ukeysLabels";
    ukey_limit ← getitem profile "ukeysLimit";
    ukey_state ← getitem profile "ukeysControl";
    Ok (Some (ukey_labels, ukey_limit, ukey_state))
  else Ok None.

(* both handlers of the second [try], the one inside the loop and the
   one around it, return [[]] *)
Definition get_ukey_zones (devices_json : json) : Res (list Ukey.t) :=
  setup ← try_except (ukey_setup_data devices_json) key_error (Ok None);
  match setup with
  | None => Ok []
  | Some (ukey_labels, ukey_limit, ukey_state) =>
      match (limit ← lift (as_index ukey_limit);
             for_ (range limit) (λ i,
               r ← lift (ukey_record ukey_labels ukey_state i); append r)) [] with
      | (ukeys, Ok _) => Ok ukeys
      | (_, Raise e) => if key_or_index_error e then Ok [] else Raise e
      end
  end.

(* [get_alarm_trigger] *)
Definition get_alarm_trigger (devices_json : json) : Res json :=
  state ← dict_get devices_json "deviceState" (JObj []);
  dict_get state "areasDetail" (JArr []).

(** ** The requests of [class OlarmApi]

    One call makes at most one request; [reply] is what the session
    answers to it: an exception raised by the session, or a response.
    [json_body r] is the outcome of [await response.json()]: the parsed
    body, [ContentTypeError] for a body that is not served as JSON, or
    [JSONDecodeError] for one that is served as JSON and is not. *)

Inductive body :=
  | Parsed (j : json)
  | NotJson        (* raises [ContentTypeError] *)
  | Malformed.     (* raises [JSONDecodeError] *)

Record response := mkResponse {
  status : Z;
  text : string;
  json_body : body
}.

Inductive reply :=
  | Failed (e : exn)
  | Response (r : response).

Inductive log_record :=
  | LogWarning (msg : string)
  | LogError (msg : string).

Record ApiState := mkApiState {
  limiter : OlarmRateLimiter.t;   (* the object [self._rate_limiter] refers to *)
  clock : Clock;
  logged : list log_record        (* the calls of [LOGGER] by the methods below *)
}.

Definition Api (A : Type) : Type := St ApiState A.

Definition wait_for_slot : Api bool := λ s,
  let '(allowed, l, clk) := OlarmRateLimiter.wait_for_slot (limiter s) (clock s) in
  ({| limiter := l; clock := clk; logged := logged s |}, Ok allowed).

Definition record_success : Api unit := λ s,
  ({| limiter := OlarmRateLimiter.record_success (limiter s);
      clock := clock s; logged := logged s |}, Ok tt).

Definition record_rate_limit : Api unit := λ s,
  ({| limiter := OlarmRateLimiter.record_rate_limit (limiter s) (clock s);
      clock := clock s; logged := logged s |}, Ok tt).

Definition log (r : log_record) : Api unit := λ s,
  ({| limiter := limiter s; clock := clock s; logged := logged s ++ [r] |}, Ok tt).

(* [except APIClientConnectorError] *)
Definition connector_error (e : exn) : bool :=
  match e with APIClientConnectorError => true | _ => false end.

(* [except APIClientConnectorError] followed by [except APINotFoundError] *)
Definition connector_or_not_found_error (e : exn) : bool :=
  match e with APIClientConnectorError | APINotFoundError => true | _ => false end.

(* [x[k] = v] *)
Definition setitem (x : json) (k : string) (v : json) : Res json :=
  match x with
  | JObj kvs => Ok (JObj (assoc_set k v kvs))
  | _ => Raise TypeError
  end.

(* an exception object put into a dict *)
Definition exn_value (e : exn) : json :=
  JStr match e with
       | APIClientConnectorError => "APIClientConnectorError"
       | APINotFoundError => "APINotFoundError"
       | _ => "Exception"
       end.

Definition msg_forbidden : string :=
  "Could not get JSON data due to incorrect API key. Please update the api key".
Definition msg_unavailable : string :=
  "The Olarm API is currently unavailable. The Gateway is working, but there seems to be no response from the API server".
Definition msg_too_frequent : string :=
  "Your refresh interval is set too frequent for the Olarm API to handle".
Definition msg_blocked : string :=
  "Your api key has been temporarily blocked due to too many request. Increase your scan interval".
Definition msg_text_instead_of_json : string :=
  "The api returned text instead of JSON. The text is:\n%s".

Definition get_device_json (answer : reply) : Api json :=
  allowed ← wait_for_slot;
  if negb allowed then
    mret (JObj [("error", JStr "Rate limited — too many consecutive 429 responses")])
  else
    match answer with
    | Failed e =>
        if connector_error e then
          log (LogError "Olarm API Devices error\n%s");;
          mret (JObj [("error", exn_value e)])
        else lift (Raise e)
    | Response r =>
        if status r =? 429 then
          record_rate_limit;;
          log (LogError "Olarm API rate limited (429) for device (%s). Backing off. %s");;
          mret (JObj [("error", JStr (text r))])
        else
          match json_body r with
          | Parsed resp =>
              resp ← lift (setitem resp "error" JNull);
              record_success;;
              mret resp
          | NotJson =>
              if contains "forbidden" (lower (text r)) then
                log (LogError msg_forbidden);;
                mret (JObj [("error", JStr (text r))])
              else if status r =? 502 then
                log (LogError msg_unavailable);;
                mret (JObj [("error", JStr (text r))])
              else if contains "too many requests" (lower (text r)) then
                record_rate_limit;;
                log (LogError msg_too_frequent);;
                mret (JObj [("error", JStr (text r))])
              else
                log (LogError msg_text_instead_of_json);;
                mret (JObj [("error", JStr (text r))])
          | Malformed => lift (Raise JSONDecodeError)
          end
    end.

Definition excluded_commands : list string :=
  ["zone-bypass"; "pgm-open"; "pgm-close"; "pgm-pulse"; "ukey-activate"].

(* the condition of the [if] in the loop of [get_changed_by_json] *)
Definition is_later_change (return_data change area : json) : Res bool :=
  cmd ← getitem change "actionCmd";
  if existsb (eq_str cmd) excluded_commands then Ok false
  else
    num ← getitem change "actionNum";
    num ← py_int num;
    a ← py_int area;
    if negb (num =? a) then Ok false
    else
      cur ← getitem return_data "actionCreated";
      cur ← py_int cur;
      created ← getitem change "actionCreated";
      created ← py_int created;
      Ok (cur <? created).

(* [for change in changes: if ...: return_data = change] *)
Fixpoint latest_change (return_data : json) (changes : list json) (area : json) : Res json :=
  match changes with
  | [] => Ok return_data
  | change :: changes' =>
      later ← is_later_change return_data change area;
      latest_change (if later : bool then change else return_data) changes' area
  end.

Definition default_return_data : json :=
  JObj [("userFullname", JStr "No User"); ("actionCreated", JInt 0); ("actionCmd", JNull)].

Section ChangedBy.
Context `{LocalTime}.

(* the last [try] of [get_changed_by_json] *)
Definition format_action_created (return_data : json) : Res json :=
  try_except
    (created ← getitem return_data "actionCreated";
     secs ← py_int created;
     last_changed ← local_time_text (Zc secs) 0;
     setitem return_data "actionCreated" (JStr last_changed))
    (λ e, match e with TypeError => true | _ => false end)
    (Ok return_data).

Definition get_changed_by_json (area : json) (answer : reply) : Api json :=
  let return_data := default_return_data in
  allowed ← wait_for_slot;
  if negb allowed then mret return_data
  else
    match answer with
    | Failed e =>
        if connector_or_not_found_error e then
          log (LogError "Olarm API Changed By error\n%s");;
          mret return_data
        else lift (Raise e)
    | Response r =>
        if status r =? 404 then
          record_success;;
          log (LogWarning "Olarm has no saved history for device (%s)");;
          mret return_data
        else if status r =? 429 then
          record_rate_limit;;
          log (LogError "Olarm actions endpoint rate limited (429) for device (%s). Backing off.\n%s");;
          mret return_data
        else
          return_data ←
            match json_body r with
            | Parsed changes =>
                record_success;;
                changes ← lift (py_iter changes);
                lift (latest_change return_data changes area)
            | NotJson =>
                log (LogError "The Olarm API returned text instead of json. Status: %s\n%s");;
                mret return_data
            | Malformed => lift (Raise JSONDecodeError)
            end;
          lift (format_action_created return_data)
    end.

End ChangedBy.

Definition send_action (post_data : json) (answer : reply) : Api bool :=
  allowed ← wait_for_slot;
  if negb allowed then
    log (LogError "Olarm API: Cannot send action %s — rate limited. Try again later.");;
    mret false
  else
    match answer with
    | Failed e =>
        if connector_error e then
          log (LogError "Olarm API update zone error on device (%s):\nCould not set action:  %s due to error:\n%s");;
          mret false
        else lift (Raise e)
    | Response r =>
        if status r =? 429 then
          record_rate_limit;;
          log (LogError "Olarm API rate limited (429) sending action to device (%s). Backing off.\n%s");;
          mret false
        else
          match json_body r with
          | Parsed resp =>
              record_success;;
              action_status ← lift (getitem resp "actionStatus");
              (if negb (String.eqb (lower (py_str action_status)) "ok") then
                 lift (getitem resp "actionCmd");;
                 lift (getitem resp "deviceName");;
                 lift (getitem resp "actionMsg");;
                 log (LogError "Could not send action: %s to Olarm Device (%s) due to error: %s")
               else mret tt);;
              action_status ← lift (getitem resp "actionStatus");
              mret (String.eqb (lower (py_str action_status)) "ok")
          | NotJson =>
              (if contains "too many requests" (lower (text r)) then record_rate_limit
               else mret tt);;
              lift (getitem post_data "actionNum");;
              log (LogError "Error Bypassing zone: %s on device (%s).\n\n%s");;
              mret false
          | Malformed => lift (Raise JSONDecodeError)
          end
    end.

Definition get_all_devices (answer : reply) : Api json :=
  allowed ← wait_for_slot;
  if negb allowed then mret (JArr [])
  else
    match answer with
    | Failed e =>
        if connector_error e then
          log (LogError "Olarm API Devices error\n%s");;
          mret (JArr [])
        else lift (Raise e)
    | Response r =>
        if status r =? 429 then
          record_rate_limit;;
          log (LogError "Olarm API rate limited (429) listing devices. Backing off.\n%s");;
          mret (JArr [])
        else
          match json_body r with
          | Parsed olarm_resp =>
              devices ← lift (getitem olarm_resp "data");
              record_success;;
              mret devices
          | NotJson =>
              if contains "Forbidden" (text r) then
                log (LogError msg_forbidden);;
                mret (JArr [])
              else if contains "Too Many Requests" (text r) then
                record_rate_limit;;
                log (LogError msg_blocked);;
                mret (JArr [])
              else
                log (LogError msg_text_instead_of_json);;
                mret (JArr [])
          | Malformed => lift (Raise JSONDecodeError)
          end
    end.

(** ** [OlarmApi.__init__] and the class attribute [_rate_limiters]

    [objects] holds every [OlarmRateLimiter] object created so far, an
    object's address being its position; [made_for] notes, address by
    address, the key whose [__init__] created the object. *)

Module OlarmApi.

Record world := mkWorld {
  objects : list OlarmRateLimiter.t;
  made_for : list string;
  _rate_limiters : gmap string nat
}.

Record t := mk {
  device_id : string;
  api_key : string;
  device_name : string;
  _rate_limiter : nat
}.

Definition start : world :=
  {| objects := []; made_for := []; _rate_limiters := ∅ |}.

Definition init (device_id api_key device_name : string) : St world t := λ w,
  let w1 :=
    match _rate_limiters w !! api_key with
    | None =>
        {| objects := objects w ++ [OlarmRateLimiter.new];
           made_for := made_for w ++ [api_key];
           _rate_limiters := <[api_key := length (objects w)]> (_rate_limiters w) |}
    | Some _ => w
    end in
  match _rate_limiters w1 !! api_key with
  | Some l =>
      (w1, Ok {| device_id := device_id; api_key := api_key;
                 device_name := device_name; _rate_limiter := l |})
  | None => (w1, Raise KeyError)
  end.

(* the objects built by a series of [OlarmApi(device_id, api_key, device_name)] *)
Fixpoint init_all (args : list (string * string * string)) : St world (list t) :=
  match args with
  | [] => mret []
  | (device_id, api_key, device_name) :: args' =>
      api ← init device_id api_key device_name;
      apis ← init_all args';
      mret (api :: apis)
  end.

End OlarmApi.

(** ** Vocabulary of the statements *)

(* a limiter that has recorded three rate limits in a row *)
Definition three_hits : OlarmRateLimiter.t :=
  let clk := mkClock 0%Qc [] in
  OlarmRateLimiter.record_rate_limit
    (OlarmRateLimiter.record_rate_limit
       (OlarmRateLimiter.record_rate_limit OlarmRateLimiter.new clk) clk) clk.

(* the class dict and the objects created agree: key [k] is bound to
   address [l] exactly when the object at [l] was created for [k] *)
Definition consistent (w : OlarmApi.world) : Prop :=
  length (OlarmApi.objects w) = length (OlarmApi.made_for w) ∧
  ∀ k l, OlarmApi._rate_limiters w !! k = Some l ↔ OlarmApi.made_for w !! l = Some k.

(* [deviceProfile.zonesLimit] as the bound of the zone loops *)
Definition zones_limit (devices_json : json) : Res Z :=
  profile ← getitem devices_json "deviceProfile";
  x ← getitem profile "zonesLimit";
  as_index x.



(* a platform for the examples: every time reads as the epoch *)
Definition epoch_time : LocalTime := λ _ _, Ok "Thu 01 Jan 1970 00:00:00".


(* [zonesLimit = 3] and [zones = "Aab"] *)
Definition device_Aab : json :=
  JObj [("deviceState", JObj [("zones", JStr "Aab")]);
        ("deviceProfile", JObj [("zonesLimit", JInt 3)])].

(* a computation that only appends to the list it is run on *)
Definition appends {R A} (m : St (list R) A) : Prop :=
  ∀ data, ∃ more, (m data).1 = data ++ more.

(** *** PGMs *)

(* a field of [deviceProfile], [None] when absent *)
Definition profile_field (devices_json : json) (k : string) : json :=
  match dict_get devices_json "deviceProfile" JNull with
  | Ok profile => match dict_get profile k JNull with Ok x => x | Raise _ => JNull end
  | Raise _ => JNull
  end.

(* a field of [deviceState], [None] when absent *)
Definition state_field (devices_json : json) (k : string) : json :=
  match dict_get devices_json "deviceState" (JObj []) with
  | Ok state => match dict_get state k JNull with Ok x => x | Raise _ => JNull end
  | Raise _ => JNull
  end.

(* the number of PGMs to go through: [pgmLimit], or the length of the
   label array when the limit is zero or absent *)
Definition pgm_limit (devices_json : json) : Res Z :=
  let limit := profile_field devices_json "pgmLimit" in
  if truthy limit then py_int limit
  else match profile_field devices_json "pgmLabels" with
       | JArr labels => Ok (Z.of_nat (length labels))
       | _ => Ok 0
       end.

(* the setup-control value of PGM [i]; the empty string when there is none *)
Definition pgm_setup_val (devices_json : json) (i : nat) : json :=
  match profile_field devices_json "pgmControl" with
  | JArr l => match nth_error l i with Some v => v | None => JStr "" end
  | _ => JStr ""
  end.

(* the setup-control string of PGM [i] *)
Definition pgm_setup_str (devices_json : json) (i : nat) : string :=
  match pgm_setup_val devices_json i with
  | JNull => ""
  | _ => py_str (pgm_setup_val devices_json i)
  end.

(* the character at index [i] of the PGM status array, if there is one *)
Definition pgm_status_char (devices_json : json) (i : nat) : option string :=
  match state_field devices_json "pgm" with
  | JArr l => py_str <$> nth_error l i
  | _ => None
  end.

(* the indices whose PGM is set up *)
Definition pgm_configured (devices_json : json) (limit : Z) : list nat :=
  List.filter (λ i, negb (eq_str (pgm_setup_val devices_json i) "")) (range limit).

(* one PGM, set up as ["1010"], whose status character is a capital A *)
Definition device_pgm_A : json :=
  JObj [("deviceState", JObj [("pgm", JArr [JStr "A"])]);
        ("deviceProfile", JObj [("pgmLimit", JInt 1);
                                ("pgmLabels", JArr [JStr "Gate"]);
                                ("pgmControl", JArr [JStr "1010"])])].

(* what an emitted PGM record says of the PGM at index [i]; [active]
   tells which status characters stand for an active PGM *)
Definition pgm_entry_reads (active : string → Prop) (devices_json : json)
    (i : nat) (r : Pgm.t) : Prop :=
  Pgm.pgm_number r = Z.of_nat i + 1 ∧
  (Pgm.enabled r = true ↔ String.get 0 (pgm_setup_str devices_json i) = Some "1"%char) ∧
  (Pgm.pulse r = true ↔ String.get 2 (pgm_setup_str devices_json i) = Some "1"%char) ∧
  (Pgm.state r = true ↔ ∃ c, pgm_status_char devices_json i = Some c ∧ active c).

(* the list [get_pgm_zones] returns has one record, in order, for each
   configured index below the limit, and the record reads as above *)
Definition pgm_zones_decoded (active : string → Prop) (devices_json : json)
    (l : list Pgm.t) : Prop :=
  ∃ limit, pgm_limit devices_json = Ok limit ∧
           Forall2 (pgm_entry_reads active devices_json)
                   (pgm_configured devices_json limit) l.

(** *** Devices of the documented shape *)










(* a device with one label and one type for its three zones and one
   control value for its two utility keys *)
Definition device_full : json :=
  JObj [("deviceState",
         JObj [("zones", JStr "Aab");
               ("zonesStamp", JArr [JInt 1700000000000]);
               ("areas", JArr [JStr "arm"]);
               ("pgm", JArr [JStr "a"]);
               ("power", JObj [("AC", JInt 1); ("Batt", JInt 0)])]);
        ("deviceProfile",
         JObj [("zonesLimit", JInt 3);
               ("zonesLabels", JArr [JStr "Door"]);
               ("zonesTypes", JArr [JInt 10]);
               ("areasLimit", JInt 1);
               ("areasLabels", JArr [JStr "Home"]);
               ("pgmLimit", JInt 1);
               ("pgmLabels", JArr [JStr "Gate"]);
               ("pgmControl", JArr [JStr "1010"]);
               ("ukeysLabels", JArr [JStr "Gate"; JStr "Garage"]);
               ("ukeysLimit", JInt 2);
               ("ukeysControl", JArr [JInt 1])])].

(* what [get_device_json] returns for a rejected API key *)
Definition device_error : json := JObj [("error", JStr "Forbidden")].

(* a device whose mains state is a word, not a number *)
Definition device_power_text : json :=
  JObj [("deviceState", JObj [("zones", JStr "a"); ("power", JObj [("AC", JStr "ok")])]);
        ("deviceProfile", JObj [("zonesLimit", JInt 1)])].

(* a device whose utility key reports its state as a word *)
Definition device_ukey_text : json :=
  JObj [("deviceState", JObj []);
        ("deviceProfile",
         JObj [("ukeysLabels", JArr [JStr "Gate"]);
               ("ukeysLimit", JInt 1);
               ("ukeysControl", JArr [JStr "on"])])].

(** *** Zones *)









(** *** Requests *)

(* a fresh limiter at time 10, nothing logged *)
Definition fresh_state : ApiState :=
  {| limiter := OlarmRateLimiter.new; clock := mkClock (Zc 10) []; logged := [] |}.

(* the limiter grants a slot *)
Definition slot_granted (s : ApiState) : Prop :=
  OlarmRateLimiter._consecutive_429s (limiter s) < API_MAX_CONSECUTIVE_429.

(* the body of the response parses as JSON and its [actionStatus]
   equals ["ok"] in either case *)
Definition action_status_ok (r : response) : Prop :=
  ∃ resp v, json_body r = Parsed resp ∧ getitem resp "actionStatus" = Ok v ∧
            lower (py_str v) = "ok".

(* a double quote *)
Definition dq : string := String (ascii_of_nat 34) EmptyString.

(* a 429 response whose body is the JSON of a successful action *)
Definition response_429_ok : response :=
  {| status := 429;
     text := "{" +:+ dq +:+ "actionStatus" +:+ dq +:+ ": " +:+ dq +:+ "ok" +:+ dq +:+ "}";
     json_body := Parsed (JObj [("actionStatus", JStr "ok")]) |}.

(* a 200 response whose JSON body reports a failed action and nothing else *)
Definition response_failed_bare : response :=
  {| status := 200;
     text := "{" +:+ dq +:+ "actionStatus" +:+ dq +:+ ": " +:+ dq +:+ "fail" +:+ dq +:+ "}";
     json_body := Parsed (JObj [("actionStatus", JStr "fail")]) |}.

(* a 200 response served as JSON whose body breaks off *)
Definition response_truncated : response :=
  {| status := 200; text := "{" +:+ dq +:+ "actionStatus" +:+ dq +:+ ": ";
     json_body := Malformed |}.

Definition arm_area_1 : json :=
  JObj [("actionCmd", JStr "area-arm"); ("actionNum", JInt 1)].

(* the log records a call has added *)
Definition new_logs (s s' : ApiState) : list log_record :=
  drop (length (logged s)) (logged s').

(* the call has classified its response as an authentication failure *)
Definition classed_forbidden (s s' : ApiState) : Prop :=
  LogError msg_forbidden ∈ new_logs s s'.

(* the call has invoked [record_rate_limit] on the limiter *)
Definition rate_limit_recorded (s s' : ApiState) : Prop :=
  OlarmRateLimiter._consecutive_429s (limiter s') =
  OlarmRateLimiter._consecutive_429s (limiter s) + 1.

(* the body of the response is not JSON *)
Definition non_json (r : response) : Prop := json_body r = NotJson.

(* the two listings classify every non-JSON response alike *)
Definition same_classification (r : response) (s : ApiState) : Prop :=
  let sd := (get_device_json (Response r) s).1 in
  let sa := (get_all_devices (Response r) s).1 in
  (classed_forbidden s sd ↔ classed_forbidden s sa) ∧
  (rate_limit_recorded s sd ↔ rate_limit_recorded s sa) ∧
  limiter sd = limiter sa.

(* a 502 page that speaks of too many requests *)
Definition response_502_too_many : response :=
  {| status := 502; text := "502 Bad Gateway: Too Many Requests";
     json_body := NotJson |}.

(* a plain-text rate limit notice *)
Definition response_too_many : response :=
  {| status := 200; text := "Too Many Requests"; json_body := NotJson |}.

(* the same notice in lower case *)
Definition response_too_many_lower : response :=
  {| status := 200; text := "too many requests"; json_body := NotJson |}.

(* an entry of the action list that tells who changed the area: its
   command is none of the bypass, PGM and utility-key commands, its
   [actionNum] is the area and its [actionCreated] is above 0 *)
Definition qualifies (area change : json) : Prop :=
  ∃ cmd num created a t,
    getitem change "actionCmd" = Ok cmd ∧
    existsb (eq_str cmd) excluded_commands = false ∧
    getitem change "actionNum" = Ok num ∧ py_int num = Ok a ∧ py_int area = Ok a ∧
    getitem change "actionCreated" = Ok created ∧ py_int created = Ok t ∧ 0 < t.

(* the default record with its [actionCreated] turned into a date *)
Definition dated_default (txt : string) : json :=
  JObj [("userFullname", JStr "No User"); ("actionCreated", JStr txt); ("actionCmd", JNull)].

(* the paths of [get_changed_by_json] that return before the action
   list is read: the limiter denies the slot, the session raises one of
   the two exceptions handled, or the status is 404 or 429 *)
Definition early_return (answer : reply) (s : ApiState) : Prop :=
  ¬ slot_granted s ∨
  (∃ e, answer = Failed e ∧ connector_or_not_found_error e = true) ∨
  (∃ r, answer = Response r ∧ (status r = 404 ∨ status r = 429)).

(* an action list with a bypass, an action on another area and an
   action without a time *)
Definition actions_none_qualifying : json :=
  JArr [JObj [("actionCmd", JStr "zone-bypass"); ("actionNum", JInt 1);
              ("actionCreated", JInt 1700000000)];
        JObj [("actionCmd", JStr "area-arm"); ("actionNum", JInt 2);
              ("actionCreated", JInt 1700000000)];
        JObj [("actionCmd", JStr "area-arm"); ("actionNum", JInt 1);
              ("actionCreated", JInt 0)]].

Definition response_actions : response :=
  {| status := 200; text := "[...]"; json_body := Parsed actions_none_qualifying |}.

(* a device with no zones *)
Definition device_no_zones : json :=
  JObj [("deviceState", JObj [("power", JObj [("AC", JInt 1)])]);
        ("deviceProfile", JObj [("zonesLimit", JInt 0)])].

(** ** More of [class OlarmApi], [class OlarmSetupApi] and [const.py] *)

(* [BypassZone(zone).data] *)
Definition BypassZone_data (zone : json) : json := JObj [("zone_num", zone)].

(* [check_credentials]: the handler catches [APIClientConnectorError],
   [APIContentTypeError], [IndexError] and [KeyError] *)
Definition credentials_error (e : exn) : bool :=
  match e with
  | APIClientConnectorError | IndexError | KeyError => true
  | _ => false
  end.

(* [try: m except <caught> as ex: h ex] *)
Definition st_try_as {S A} (m : St S A) (caught : exn → bool) (h : exn → St S A)
  : St S A :=
  λ s,
    match m s with
    | (s', Ok a) => (s', Ok a)
    | (s', Raise e) => if caught e then h e s' else (s', Raise e)
    end.

Definition check_credentials (answer : reply) : Api json :=
  st_try_as
    (resp ← get_device_json answer;
     error ← lift (getitem resp "error");
     match error with
     | JNull => lift (setitem resp "auth_success" (JBool true))
     | _ => lift (setitem resp "auth_success" (JBool false))
     end)
    credentials_error
    (λ ex, mret (JObj [("auth_success", JBool false); ("error", exn_value ex)])).

Definition update_pgm (pgm_data : json) (answer : reply) : Api bool :=
  st_try (send_action pgm_data answer) connector_error
    (log (LogError "Olarm API update pgm error on device (%s):\nCould not set action:  %s due to error:\n%s");;
     mret false).

Definition update_ukey (ukey_data : json) (answer : reply) : Api bool :=
  st_try (send_action ukey_data answer) connector_error
    (log (LogError "Olarm API update ukey error on device (%s):\nCould not set action:  %s due to error:\n%s");;
     mret false).

Definition arm_area (area : json) (answer : reply) : Api bool :=
  let post_data := JObj [("actionCmd", JStr "area-arm"); ("actionNum", area)] in
  send_action post_data answer.

Definition sleep_area (area : json) (answer : reply) : Api bool :=
  let post_data := JObj [("actionCmd", JStr "area-sleep"); ("actionNum", area)] in
  send_action post_data answer.

Definition stay_area (area : json) (answer : reply) : Api bool :=
  let post_data := JObj [("actionCmd", JStr "area-stay"); ("actionNum", area)] in
  send_action post_data answer.

Definition disarm_area (area : json) (answer : reply) : Api bool :=
  let post_data := JObj [("actionCmd", JStr "area-disarm"); ("actionNum", area)] in
  send_action post_data answer.

(* [bypass_zone(zone)], [zone_data] being [zone.data] *)
Definition bypass_zone (zone_data : json) (answer : reply) : Api bool :=
  zone_num ← lift (getitem zone_data "zone_num");
  let post_data := JObj [("actionCmd", JStr "zone-bypass"); ("actionNum", zone_num)] in
  send_action post_data answer.

(* [bypass_zone_with_service(zone)] *)
Definition bypass_zone_with_service (zone_data : json) (answer : reply) : Api unit :=
  zone_num ← lift (getitem zone_data "zone_num");
  let post_data := JObj [("actionCmd", JStr "zone-bypass"); ("actionNum", zone_num)] in
  send_action post_data answer;;
  mret tt.

(* [OlarmSetupApi.get_olarm_devices]: no limiter; its state is its log *)
Definition get_olarm_devices (answer : reply) : St (list log_record) json :=
  let log (r : log_record) : St (list log_record) unit := λ l, (l ++ [r], Ok tt) in
  match answer with
  | Failed e =>
      if connector_error e then
        log (LogError "Olarm SetupAPI Devices error\n%s");;
        mret (JArr [])
      else lift (Raise e)
  | Response r =>
      match json_body r with
      | Parsed olarm_resp =>
          data ← lift (getitem olarm_resp "data");
          mret data
      | NotJson =>
          if contains "Forbidden" (text r) then
            log (LogError msg_forbidden);;
            mret (JArr [])
          else if contains "Too Many Requests" (text r) then
            log (LogError msg_blocked);;
            mret (JArr [])
          else
            log (LogError "The setup api returned text instead of JSON. The text is:\n%s");;
            mret (JArr [])
      | Malformed => lift (Raise JSONDecodeError)
      end
  end.

(** ** Vocabulary of the further statements *)

(* what the limiter keeps along every run: a counter that is not
   negative, a last request that is not in the future, a backoff that
   ends within [API_BACKOFF_MAX] seconds *)
Definition limiter_sound (self : OlarmRateLimiter.t) (clk : Clock) : Prop :=
  0 <= OlarmRateLimiter._consecutive_429s self ∧
  (OlarmRateLimiter._last_request_time self <= monotonic clk)%Qc ∧
  (OlarmRateLimiter._backoff_until self <= monotonic clk + Zc API_BACKOFF_MAX)%Qc.

(* the four methods that ask the limiter for a slot *)
Inductive request :=
  | GetDeviceJson
  | GetChangedByJson (area : json)
  | SendAction (post_data : json)
  | GetAllDevices.

(* the call of a method, its result as a value *)
Definition perform `{LocalTime} (req : request) (answer : reply) : Api json :=
  match req with
  | GetDeviceJson => get_device_json answer
  | GetChangedByJson area => get_changed_by_json area answer
  | SendAction post_data => ok ← send_action post_data answer; mret (JBool ok)
  | GetAllDevices => get_all_devices answer
  end.

(* what a method returns when it makes no request *)
Definition safe_value (req : request) : json :=
  match req with
  | GetDeviceJson =>
      JObj [("error", JStr "Rate limited — too many consecutive 429 responses")]
  | GetChangedByJson _ => default_return_data
  | SendAction _ => JBool false
  | GetAllDevices => JArr []
  end.

(* what a method returns on a 429 response *)
Definition rate_limited_value (req : request) (r : response) : json :=
  match req with
  | GetDeviceJson => JObj [("error", JStr (text r))]
  | _ => safe_value req
  end.

(* calls one after the other, each with the answer the session gives it *)
Fixpoint perform_all `{LocalTime} (calls : list (request * reply)) : Api (list json) :=
  match calls with
  | [] => mret []
  | (req, answer) :: calls' =>
      v ← perform req answer;
      vs ← perform_all calls';
      mret (v :: vs)
  end.

Definition is_429 (answer : reply) : Prop :=
  ∃ r, answer = Response r ∧ status r = 429.

(* the four commands on an area *)
Definition area_commands : list (json → reply → Api bool) :=
  [arm_area; sleep_area; stay_area; disarm_area].

(* the response is read past the limiter and the 429 check, and its
   body is a JSON object *)
Definition object_received (answer : reply) (s : ApiState) : Prop :=
  slot_granted s ∧
  ∃ r kvs, answer = Response r ∧ status r ≠ 429 ∧ json_body r = Parsed (JObj kvs).

(* a JSON body that itself reports an error *)
Definition response_error_body : response :=
  {| status := 401;
     text := "{" +:+ dq +:+ "error" +:+ dq +:+ ": " +:+ dq +:+ "Unauthorized" +:+ dq +:+ "}";
     json_body := Parsed (JObj [("error", JStr "Unauthorized")]) |}.

(* a list of two devices *)
Definition response_devices : response :=
  {| status := 200; text := "{...}";
     json_body := Parsed (JObj [("data", JArr [JStr "device-1"; JStr "device-2"])]) |}.

(* the power map that [get_sensor_states] goes through: the [power]
   entry of the device state, or the one made of [powerAC] and
   [powerBattery] when [power] is empty or absent *)
Definition power_source (olarm_state : json) : Res json :=
  power ← dict_get olarm_state "power" (JObj []);
  if truthy power then Ok power
  else
    has_ac ← key_in "powerAC" olarm_state;
    if has_ac : bool then
      ac ← dict_get olarm_state "powerAC" JNull;
      batt ← dict_get olarm_state "powerBattery" JNull;
      Ok (JObj [("AC", JInt (if eq_str ac "ok" then 1 else 0));
                ("Batt", JInt (if eq_str batt "ok" then 1 else 0))])
    else Ok power.

(* the sensor of an entry of the power map, at position [i] of the list *)
Definition power_sensor (i : nat) (key : string) (v : Z) : Sensor.t :=
  {| Sensor.name :=
       JStr ("Powered by " +:+ (if String.eqb key "Batt" then "Battery" else key));
     Sensor.state := if v =? 1 then "on" else "off";
     Sensor.last_changed := None;
     Sensor.type := JInt (if String.eqb key "Batt" then 1001 else 1000);
     Sensor.zone_number := Z.of_nat i |}.

(* a device of the older firmware: two zones, [powerAC] and
   [powerBattery] in place of [power] *)
Definition device_legacy_power : json :=
  JObj [("deviceState",
         JObj [("zones", JStr "ab"); ("powerAC", JStr "ok"); ("powerBattery", JStr "low")]);
        ("deviceProfile", JObj [("zonesLimit", JInt 2)])].

(* the name [get_panel_states] gives area [j]: its label, or ["Area j+1"]
   when the labels are no list, are too few or have the empty string *)
Definition areas_label (labels : json) (j : nat) : string :=
  match labels with
  | JArr ls =>
      match ls !! j with
      | Some l => if eq_str l "" then "Area " +:+ pretty (Z.of_nat j + 1) else py_str l
      | None => "Area " +:+ pretty (Z.of_nat j + 1)
      end
  | _ => "Area " +:+ pretty (Z.of_nat j + 1)
  end.

(* a device with three areas, the status of two and the label of one *)
Definition device_areas : json :=
  JObj [("deviceState", JObj [("areas", JArr [JStr "arm"; JStr "disarm"])]);
        ("deviceProfile",
         JObj [("areasLimit", JInt 3); ("areasLabels", JArr [JStr ""; JStr "Office"])])].

(* a device with two utility keys, the second without a label *)
Definition device_ukeys : json :=
  JObj [("deviceState", JObj []);
        ("deviceProfile",
         JObj [("ukeysLabels", JArr [JStr "Gate"; JStr ""]);
               ("ukeysLimit", JInt 2);
               ("ukeysControl", JArr [JInt 1; JInt 0])])].

(* the time of an entry of the action list *)
Definition created_at (change : json) : Res Z :=
  created ← getitem change "actionCreated";
  py_int created.

(* an action list with two actions on area 1, the later one first *)
Definition actions_two_qualifying : json :=
  JArr [JObj [("actionCmd", JStr "area-arm"); ("actionNum", JInt 1);
              ("actionCreated", JInt 1700000500); ("userFullname", JStr "Ann")];
        JObj [("actionCmd", JStr "zone-bypass"); ("actionNum", JInt 1);
              ("actionCreated", JInt 1700000900); ("userFullname", JStr "Bob")];
        JObj [("actionCmd", JStr "area-disarm"); ("actionNum", JInt 1);
              ("actionCreated", JInt 1700000100); ("userFullname", JStr "Cid")]].

Definition response_two_actions : response :=
  {| status := 200; text := "[...]"; json_body := Parsed actions_two_qualifying |}.

(** ** [wait_for_slot] on the event loop

    [OlarmRateLimiter.wait_for_slot] above is the call run alone, by
    code that takes no time, with sleeps that last as long as asked.
    On the event loop the clock moves between any two readings of
    [time.monotonic()], and the call is suspended at each
    [await asyncio.sleep(...)], where the other users of the same
    limiter run: the calls of [wait_for_slot] of other tasks,
    [record_success], [record_rate_limit] and [reset_cycle]. *)

Module EventLoop.
Import OlarmRateLimiter.

(* where a call of [wait_for_slot] stands *)
Inductive point :=
  | Entry                     (* called, nothing of its body run *)
  | BackoffSleep (due : Qc)   (* in [await asyncio.sleep(wait_time)], asked to end at [due] *)
  | GapSleep (due : Qc)       (* in [await asyncio.sleep(gap_wait)], asked to end at [due] *)
  | Denied                    (* has returned [False] *)
  | Granted (stamp : Qc).     (* has returned [True]; [stamp] is what it wrote
                                 to [_last_request_time] *)

(* the time that passes before the first, the second and the third
   reading of the clock in one run of a call *)
Record Timing := mkTiming { lapse1 : Qc; lapse2 : Qc; lapse3 : Qc }.

Definition instant : Timing := mkTiming 0%Qc 0%Qc 0%Qc.

(* [await asyncio.sleep(d)] as the call sees it: the sleep is awaited,
   and asked to end [max 0 d] from now *)
Definition suspend (d : Qc) (clk : Clock) : Clock * Qc :=
  ({| monotonic := monotonic clk; slept := slept clk ++ [d] |},
   (monotonic clk + Qcmax 0 d)%Qc).

(* [self._last_request_time = time.monotonic(); return True] *)
Definition stamp (lapse : Qc) (self : t) (clk : Clock) : point * t * Clock :=
  let clk1 := tick lapse clk in
  (Granted (monotonic clk1),
   {| _min_gap := _min_gap self;
      _last_request_time := monotonic clk1;
      _backoff_until := _backoff_until self;
      _consecutive_429s := _consecutive_429s self |},
   clk1).

(* from [now = time.monotonic()] to the next [await] or to the return *)
Definition gap_check (lapse lapse' : Qc) (self : t) (clk : Clock) : point * t * Clock :=
  let clk1 := tick lapse clk in
  let now := monotonic clk1 in
  let elapsed := (now - _last_request_time self)%Qc in
  if bool_decide (elapsed < _min_gap self)%Qc then
    let gap_wait := (_min_gap self - elapsed)%Qc in
    let '(clk2, due) := suspend gap_wait clk1 in
    (GapSleep due, self, clk2)
  else stamp lapse' self clk1.

(* the loop runs the call from point [p] to its next [await] or to its return *)
Definition resume (tm : Timing) (p : point) (self : t) (clk : Clock) : point * t * Clock :=
  match p with
  | Entry =>
      if bool_decide (API_MAX_CONSECUTIVE_429 <= _consecutive_429s self) then
        (Denied, self, clk)
      else
        let clk1 := tick (lapse1 tm) clk in
        if is_backed_off self clk1 then
          let clk2 := tick (lapse2 tm) clk1 in
          let wait_time := backoff_remaining self clk2 in
          let '(clk3, due) := suspend wait_time clk2 in
          (BackoffSleep due, self, clk3)
        else gap_check (lapse2 tm) (lapse3 tm) self clk1
  | BackoffSleep _ => gap_check (lapse1 tm) (lapse2 tm) self clk
  | GapSleep _ => stamp (lapse1 tm) self clk
  | Denied | Granted _ => (p, self, clk)
  end.

(* one limiter, one clock, and the calls of [wait_for_slot] made on the
   limiter so far *)
Record world := mkWorld { shared : t; wall : Clock; calls : list point }.

Inductive event :=
  | Spawn                          (* a task calls [wait_for_slot] *)
  | Resume (i : nat) (tm : Timing) (* the loop runs call [i] *)
  | Success                        (* a task calls [record_success] *)
  | RateLimit                      (* a task calls [record_rate_limit] *)
  | Reset                          (* a task calls [reset_cycle] *)
  | Pass (d : Qc).                 (* time passes *)

Definition step (ev : event) (w : world) : world :=
  match ev with
  | Spawn => mkWorld (shared w) (wall w) (calls w ++ [Entry])
  | Resume i tm =>
      match calls w !! i with
      | Some p =>
          let '(p', self', clk') := resume tm p (shared w) (wall w) in
          mkWorld self' clk' (<[i := p']> (calls w))
      | None => w
      end
  | Success => mkWorld (record_success (shared w)) (wall w) (calls w)
  | RateLimit => mkWorld (record_rate_limit (shared w) (wall w)) (wall w) (calls w)
  | Reset => mkWorld (reset_cycle (shared w)) (wall w) (calls w)
  | Pass d => mkWorld (shared w) (tick d (wall w)) (calls w)
  end.

Fixpoint run (evs : list event) (w : world) : world :=
  match evs with
  | [] => w
  | ev :: evs' => run evs' (step ev w)
  end.

(* the sleep of a suspended call has lasted as long as asked *)
Definition is_due (p : point) (clk : Clock) : bool :=
  match p with
  | BackoffSleep due | GapSleep due => bool_decide (due <= monotonic clk)%Qc
  | _ => true
  end.

(* along the events, no sleep of call [i] is cut short *)
Fixpoint punctual (i : nat) (evs : list event) (w : world) : bool :=
  match evs with
  | [] => true
  | ev :: evs' =>
      match ev with
      | Resume j _ =>
          if bool_decide (j = i) then
            match calls w !! i with Some p => is_due p (wall w) | None => true end
          else true
      | _ => true
      end && punctual i evs' (step ev w)
  end.

(* the last request is not in the future, and what a call has stamped
   is not after it *)
Definition sound (w : world) : Prop :=
  (_last_request_time (shared w) <= monotonic (wall w))%Qc ∧
  ∀ i stamp, calls w !! i = Some (Granted stamp) →
             (stamp <= _last_request_time (shared w))%Qc.

(* the call has not read [_last_request_time] yet *)
Definition before_gap_check (p : point) : Prop :=
  p = Entry ∨ ∃ due, p = BackoffSleep due.

(* the call is not granted before [gap] after [t]: it is suspended
   until then, or has been granted later *)
Definition clear_of (t gap : Qc) (p : point) : Prop :=
  match p with
  | GapSleep due => (t + gap <= due)%Qc
  | Granted stamp => (t + gap <= stamp)%Qc
  | _ => True
  end.

(* the call, entered at [t0] with [_backoff_until] at [b], is not
   granted before either *)
Definition past_backoff (t0 b : Qc) (clk : Clock) (p : point) : Prop :=
  match p with
  | Entry | Denied => False
  | BackoffSleep due => (b <= due)%Qc
  | GapSleep _ => (b <= monotonic clk)%Qc
  | Granted stamp => (t0 <= stamp)%Qc ∧ (stamp <= monotonic clk)%Qc ∧ (b <= stamp)%Qc
  end.

(* the runs a call needs at most to return *)
Definition runs_left (p : point) : nat :=
  match p with
  | Entry => 3
  | BackoffSleep _ => 2
  | GapSleep _ => 1
  | Denied | Granted _ => 0
  end.

(* time passes until the sleep of call [i] has lasted as long as asked,
   and the loop then runs the call, in no time *)
Definition wake (i : nat) (w : world) : world :=
  match calls w !! i with
  | Some (BackoffSleep due) | Some (GapSleep due) =>
      step (Resume i instant) (step (Pass (due - monotonic (wall w))) w)
  | _ => w
  end.

(* one call, run alone from its entry to its return *)
Definition run_alone (self : t) (clk : Clock) : world :=
  wake 0 (wake 0 (step (Resume 0 instant) (mkWorld self clk [Entry]))).

(* two calls made one second after the last request *)
Definition two_calls : world :=
  mkWorld (mk (Zc 2) (Zc 9) 0%Qc 0) (mkClock (Zc 10) []) [Entry; Entry].

(* both calls are run and suspended, a second passes, both are run again *)
Definition overlapping : list event :=
  [Resume 0 instant; Resume 1 instant; Pass (Zc 1); Resume 0 instant; Resume 1 instant].

(* the first call alone, from its entry to its return *)
Definition first_call : list event :=
  [Resume 0 instant; Pass (Zc 1); Resume 0 instant].

(* the second call, made when the first has returned *)
Definition second_call : list event :=
  [Resume 1 instant; Pass (Zc 2); Resume 1 instant].

End EventLoop.

(** * Properties of the rate limiter *)

Section RateLimiterFacts.
Import OlarmRateLimiter.

Lemma Qcmax_ge_l (x y : Qc) : (x <= Qcmax x y)%Qc.
Proof.
  unfold Qcmax. case_bool_decide as H.
  - by apply Qclt_le_weak.
  - apply Qcle_refl.
Qed.

Lemma run_app cs1 cs2 w :
  run (cs1 ++ cs2) w =
  let '(w1, out1) := run cs1 w in
  let '(w2, out2) := run cs2 w1 in
  (w2, out1 ++ out2).
Proof.
  revert w. induction cs1 as [|c cs1 IH]; intros w; simpl.
  - by destruct (run cs2 w).
  - destruct (step c w) as [w1 o1]. rewrite IH.
    destruct (run cs1 w1) as [w2 o2]. destruct (run cs2 w2) as [w3 o3].
    by rewrite app_assoc.
Qed.

(* [wait_for_slot] never touches the counter or the backoff deadline *)
Lemma wait_for_slot_frame self clk :
  let '(_, self', _) := wait_for_slot self clk in
  _consecutive_429s self' = _consecutive_429s self ∧
  _backoff_until self' = _backoff_until self ∧
  _min_gap self' = _min_gap self.
Proof. unfold wait_for_slot. by case_bool_decide. Qed.

Lemma hits_in_cons c cs :
  hits_in (c :: cs) = (if is_rate_limit c then 1 else 0) + hits_in cs.
Proof.
  unfold hits_in. simpl. destruct (is_rate_limit c); simpl length; lia.
Qed.

Lemma hits_in_app cs1 cs2 : hits_in (cs1 ++ cs2) = hits_in cs1 + hits_in cs2.
Proof.
  induction cs1 as [|c cs1 IH]; [done|].
  rewrite <- app_comm_cons, !hits_in_cons, IH. lia.
Qed.

(* along a streak the counter counts the [record_rate_limit] calls *)
Lemma streak_counts cs : ∀ self clk,
  forallb keeps_streak cs = true →
  _consecutive_429s (run cs (self, clk)).1.1 = _consecutive_429s self + hits_in cs.
Proof.
  induction cs as [|c cs IH]; intros self clk Hs.
  - simpl. unfold hits_in. simpl. lia.
  - simpl in Hs. apply andb_true_iff in Hs as [Hc Hs].
    rewrite hits_in_cons. simpl.
    destruct c; simpl in *; try discriminate.
    + pose proof (wait_for_slot_frame self clk) as Hf.
      destruct (wait_for_slot self clk) as [[ok self1] clk1].
      destruct Hf as (Hf & _ & _).
      specialize (IH self1 clk1 Hs).
      destruct (run cs (self1, clk1)) as [[s2 c2] o2]. simpl in *. lia.
    + specialize (IH (record_rate_limit self clk) clk Hs).
      destruct (run cs (record_rate_limit self clk, clk)) as [[s2 c2] o2].
      simpl in *. lia.
    + specialize (IH self (tick d clk) Hs).
      destruct (run cs (self, tick d clk)) as [[s2 c2] o2]. simpl in *. lia.
Qed.

(** C1. After N >= 1 consecutive [record_rate_limit] calls (a streak that
    starts from a zero counter and has no [record_success] or
    [reset_cycle] in it; waiting for slots and the passing of time may
    be interleaved), [_backoff_until - now = min(60 * 2^(N-1), 300)]
    seconds, [now] being the clock at the N-th call. *)
Theorem backoff_after_consecutive_rate_limits (N : Z) cs self clk :
  1 <= N →
  _consecutive_429s self = 0 →
  forallb keeps_streak cs = true →
  hits_in (cs ++ [RecordRateLimit]) = N →
  let '(self', now, _) := run (cs ++ [RecordRateLimit]) (self, clk) in
  (_backoff_until self' - monotonic now = Zc (Z.min (60 * 2 ^ (N - 1)) 300))%Qc.
Proof.
  intros _ H0 Hs HN. rewrite run_app.
  pose proof (streak_counts cs self clk Hs) as Hc.
  destruct (run cs (self, clk)) as [[s1 c1] o1]. simpl in *.
  rewrite hits_in_app in HN. change (hits_in [RecordRateLimit]) with 1 in HN.
  unfold backoff_seconds, API_BACKOFF_BASE, API_BACKOFF_MAX.
  replace (_consecutive_429s s1 + 1 - 1) with (N - 1) by lia.
  ring.
Qed.

Lemma backoff_after_consecutive_rate_limits_witness :
  let '(self', now, _) :=
    run ([RecordRateLimit; Elapse (Zc 70); WaitForSlot] ++ [RecordRateLimit])
        (new, mkClock 0%Qc []) in
  (_backoff_until self' - monotonic now = Zc (Z.min (60 * 2 ^ (2 - 1)) 300))%Qc.
Proof.
  apply (backoff_after_consecutive_rate_limits 2
           [RecordRateLimit; Elapse (Zc 70); WaitForSlot] new (mkClock 0%Qc []));
    [lia | reflexivity | reflexivity | reflexivity].
Defined.

(* a blocked limiter stays as it is, whatever else happens in a streak *)
Lemma blocked_streak cs : ∀ self clk,
  API_MAX_CONSECUTIVE_429 <= _consecutive_429s self →
  forallb keeps_streak cs = true →
  let '(self', clk', outs) := run cs (self, clk) in
  Forall (λ allowed, allowed = false) outs ∧
  slept clk' = slept clk ∧
  _last_request_time self' = _last_request_time self ∧
  API_MAX_CONSECUTIVE_429 <= _consecutive_429s self'.
Proof.
  induction cs as [|c cs IH]; intros self clk H3 Hs; simpl.
  - done.
  - simpl in Hs. apply andb_true_iff in Hs as [Hc Hs].
    destruct c; simpl in *; try discriminate.
    + unfold wait_for_slot. rewrite bool_decide_true by done.
      specialize (IH self clk H3 Hs).
      destruct (run cs (self, clk)) as [[s2 c2] o2].
      destruct IH as (? & ? & ? & ?). split_and!; try done.
      by constructor.
    + assert (H3' : API_MAX_CONSECUTIVE_429 <= _consecutive_429s (record_rate_limit self clk))
        by (simpl; lia).
      specialize (IH (record_rate_limit self clk) clk H3' Hs).
      by destruct (run cs (record_rate_limit self clk, clk)) as [[s2 c2] o2].
    + specialize (IH self (tick d clk) H3 Hs).
      by destruct (run cs (self, tick d clk)) as [[s2 c2] o2].
Qed.

(** C2. While [_consecutive_429s >= 3], every [wait_for_slot] returns
    [False] at once: nothing is slept, the limiter (and with it
    [_last_request_time]) is unchanged; this holds for every later call
    of a streak without [record_success] or [reset_cycle], and either
    of these two resets the counter to 0, after which a slot is granted
    again. *)
Theorem skip_after_three_consecutive_429s cs self clk :
  3 <= _consecutive_429s self →
  forallb keeps_streak cs = true →
  wait_for_slot self clk = (false, self, clk) ∧
  (let '(self', clk', outs) := run cs (self, clk) in
   Forall (λ allowed, allowed = false) outs ∧
   slept clk' = slept clk ∧
   _last_request_time self' = _last_request_time self ∧
   wait_for_slot self' clk' = (false, self', clk') ∧
   _consecutive_429s (record_success self') = 0 ∧
   _consecutive_429s (reset_cycle self') = 0 ∧
   (wait_for_slot (record_success self') clk').1.1 = true ∧
   (wait_for_slot (reset_cycle self') clk').1.1 = true).
Proof.
  intros H3 Hs. split.
  - unfold wait_for_slot. by rewrite bool_decide_true.
  - pose proof (blocked_streak cs self clk H3 Hs) as Hb.
    destruct (run cs (self, clk)) as [[s2 c2] o2].
    destruct Hb as (? & ? & ? & ?). split_and!; try done.
    unfold wait_for_slot. by rewrite bool_decide_true.
Qed.

Lemma skip_after_three_consecutive_429s_witness :
  wait_for_slot three_hits (mkClock (Zc 500) []) = (false, three_hits, mkClock (Zc 500) []) ∧
  (let '(self', clk', outs) :=
     run [WaitForSlot; RecordRateLimit; Elapse (Zc 1000); WaitForSlot]
         (three_hits, mkClock (Zc 500) []) in
   Forall (λ allowed, allowed = false) outs ∧
   slept clk' = slept (mkClock (Zc 500) []) ∧
   _last_request_time self' = _last_request_time three_hits ∧
   wait_for_slot self' clk' = (false, self', clk') ∧
   _consecutive_429s (record_success self') = 0 ∧
   _consecutive_429s (reset_cycle self') = 0 ∧
   (wait_for_slot (record_success self') clk').1.1 = true ∧
   (wait_for_slot (reset_cycle self') clk').1.1 = true).
Proof.
  apply (skip_after_three_consecutive_429s
           [WaitForSlot; RecordRateLimit; Elapse (Zc 1000); WaitForSlot]
           three_hits (mkClock (Zc 500) [])); [vm_compute; discriminate | reflexivity].
Defined.

(** C7. [reset_cycle] sets the counter to 0 and leaves [_backoff_until],
    [_last_request_time] (and [_min_gap]) as they were; a backoff window
    still open at the reset makes the next [wait_for_slot] sleep for
    what remains of it, so that no request starts before the deadline. *)
Theorem reset_cycle_keeps_backoff self clk :
  (monotonic clk < _backoff_until self)%Qc →
  _consecutive_429s (reset_cycle self) = 0 ∧
  _backoff_until (reset_cycle self) = _backoff_until self ∧
  _last_request_time (reset_cycle self) = _last_request_time self ∧
  _min_gap (reset_cycle self) = _min_gap self ∧
  (let '(allowed, self', clk') := wait_for_slot (reset_cycle self) clk in
   allowed = true ∧
   (∃ more, slept clk' = slept clk ++ (_backoff_until self - monotonic clk)%Qc :: more) ∧
   (_backoff_until self <= monotonic clk')%Qc ∧
   (_backoff_until self <= _last_request_time self')%Qc).
Proof.
  intros Hb. split_and!; try done.
  assert (Hpos : Qcmax 0 (_backoff_until self - monotonic clk) =
                 (_backoff_until self - monotonic clk)%Qc).
  { unfold Qcmax. rewrite bool_decide_true; [done|].
    by apply Qclt_minus_iff in Hb. }
  assert (Hat : monotonic (sleep (backoff_remaining (reset_cycle self) clk) clk) =
                _backoff_until self).
  { unfold backoff_remaining, sleep, reset_cycle. cbn [monotonic _backoff_until].
    rewrite !Hpos. ring. }
  unfold wait_for_slot.
  replace (bool_decide (API_MAX_CONSECUTIVE_429 <= _consecutive_429s (reset_cycle self)))
    with false by done.
  replace (is_backed_off (reset_cycle self) clk) with true
    by (symmetry; apply bool_decide_eq_true; exact Hb).
  cbv zeta.
  set (clk1 := sleep (backoff_remaining (reset_cycle self) clk) clk) in *.
  assert (Hs1 : slept clk1 = slept clk ++ [(_backoff_until self - monotonic clk)%Qc]).
  { unfold clk1, sleep, backoff_remaining, reset_cycle.
    cbn [slept _backoff_until]. by rewrite Hpos. }
  case_bool_decide as Hgap; cbn [_last_request_time].
  - split; [done|]. split.
    + eexists. unfold sleep at 1. cbn [slept]. rewrite Hs1, <- app_assoc. reflexivity.
    + assert (Hle : (_backoff_until self <= monotonic
                (sleep (_min_gap (reset_cycle self) -
                        (monotonic clk1 - _last_request_time (reset_cycle self))) clk1))%Qc).
      { unfold sleep at 1. cbn [monotonic]. rewrite Hat.
        rewrite <- (Qcplus_0_r (_backoff_until self)) at 1.
        apply Qcplus_le_compat; [apply Qcle_refl | apply Qcmax_ge_l]. }
      by split.
  - split; [done|]. split.
    + exists []. exact Hs1.
    + rewrite Hat. split; apply Qcle_refl.
Qed.

Lemma reset_cycle_keeps_backoff_witness :
  let self := record_rate_limit new (mkClock (Zc 10) []) in
  let clk := mkClock (Zc 20) [] in
  _consecutive_429s (reset_cycle self) = 0 ∧
  _backoff_until (reset_cycle self) = _backoff_until self ∧
  _last_request_time (reset_cycle self) = _last_request_time self ∧
  _min_gap (reset_cycle self) = _min_gap self ∧
  (let '(allowed, self', clk') := wait_for_slot (reset_cycle self) clk in
   allowed = true ∧
   (∃ more, slept clk' = slept clk ++ (_backoff_until self - monotonic clk)%Qc :: more) ∧
   (_backoff_until self <= monotonic clk')%Qc ∧
   (_backoff_until self <= _last_request_time self')%Qc).
Proof.
  apply (reset_cycle_keeps_backoff (record_rate_limit new (mkClock (Zc 10) []))
           (mkClock (Zc 20) [])).
  reflexivity.
Defined.

End RateLimiterFacts.

(** * One limiter per API key *)

Section RegistryFacts.
Import OlarmApi.

Lemma consistent_start : consistent start.
Proof.
  split; [done|]. intros k l. unfold start. simpl.
  rewrite lookup_empty, lookup_nil. done.
Qed.

Lemma consistent_NoDup w : consistent w → NoDup (made_for w).
Proof.
  intros [_ Hc]. apply NoDup_alt. intros i j k Hi Hj.
  apply Hc in Hi, Hj. congruence.
Qed.

Lemma init_spec device_id key device_name w :
  consistent w →
  ∃ w' api,
    init device_id key device_name w = (w', Ok api) ∧
    consistent w' ∧
    api_key api = key ∧
    _rate_limiters w' !! key = Some (_rate_limiter api) ∧
    (∀ k l, _rate_limiters w !! k = Some l → _rate_limiters w' !! k = Some l).
Proof.
  intros [Hlen Hc]. unfold init.
  destruct (_rate_limiters w !! key) as [l|] eqn:Hk.
  - rewrite Hk. eexists _, _. split; [reflexivity|].
    split; [by split|]. by split_and!.
  - simpl. rewrite lookup_insert_eq.
    eexists _, _. split; [reflexivity|]. split; [|split; [done|split]].
    + split; simpl.
      * rewrite !length_app. simpl. lia.
      * intros k l. rewrite Hlen. destruct (decide (k = key)) as [->|Hne].
        -- rewrite lookup_insert_eq. split.
           ++ intros [= <-]. rewrite lookup_app_r by lia.
              by rewrite Nat.sub_diag.
           ++ intros Hl. f_equal.
              destruct (decide (l < length (made_for w))%nat) as [Hlt|Hge].
              ** rewrite lookup_app_l in Hl by done. apply Hc in Hl. congruence.
              ** apply lookup_lt_Some in Hl as Hb. rewrite length_app in Hb.
                 simpl in Hb. lia.
        -- rewrite lookup_insert_ne by done. rewrite Hc. split.
           ++ intros Hl. rewrite lookup_app_l; [done|]. by eapply lookup_lt_Some.
           ++ intros Hl.
              destruct (decide (l < length (made_for w))%nat) as [Hlt|Hge].
              ** by rewrite lookup_app_l in Hl.
              ** rewrite lookup_app_r in Hl by lia.
                 destruct (l - length (made_for w))%nat; simpl in Hl; [congruence|].
                 by rewrite lookup_nil in Hl.
    + simpl. by rewrite lookup_insert_eq.
    + intros k l Hl. simpl. rewrite lookup_insert_ne; [done|]. congruence.
Qed.

Lemma init_all_spec args : ∀ w,
  consistent w →
  ∃ w' apis,
    init_all args w = (w', Ok apis) ∧
    consistent w' ∧
    Forall2 (λ a api, api_key api = a.1.2) args apis ∧
    Forall (λ api, _rate_limiters w' !! api_key api = Some (_rate_limiter api)) apis ∧
    (∀ k l, _rate_limiters w !! k = Some l → _rate_limiters w' !! k = Some l).
Proof.
  induction args as [|[[d k] n] args IH]; intros w Hw.
  - exists w, []. split; [done|]. split; [done|]. by split_and!; try constructor.
  - destruct (init_spec d k n w Hw) as (w1 & api & Hi & Hw1 & Hk & Hl & Hmono).
    destruct (IH w1 Hw1) as (w2 & apis & Hr & Hw2 & Hkeys & Hrefs & Hmono2).
    exists w2, (api :: apis).
    split.
    { simpl. unfold mbind, St_bind. rewrite Hi.
      change (init_all args w1) with (init_all args w1). rewrite Hr. done. }
    split; [done|]. split; [by constructor|]. split.
    + constructor; [|done]. rewrite Hk. by apply Hmono2.
    + intros k' l' H'. by apply Hmono2, Hmono.
Qed.

(** C6. Whatever series of [OlarmApi(...)] constructions runs from the
    empty class dict, every construction succeeds, no two
    [OlarmRateLimiter] objects are ever created for the same key (the
    keys noted at creation are pairwise distinct, one per object), each
    [OlarmApi] refers to the object created for its own key, and two
    of them with the same key refer to the same object. *)
Theorem one_rate_limiter_per_api_key (args : list (string * string * string)) :
  ∃ w apis,
    init_all args start = (w, Ok apis) ∧
    Forall2 (λ a api, api_key api = a.1.2) args apis ∧
    length (objects w) = length (made_for w) ∧
    NoDup (made_for w) ∧
    (∀ key, (length (List.filter (String.eqb key) (made_for w)) ≤ 1)%nat) ∧
    Forall (λ api, made_for w !! _rate_limiter api = Some (api_key api) ∧
                   is_Some (objects w !! _rate_limiter api)) apis ∧
    (∀ a b, a ∈ apis → b ∈ apis → api_key a = api_key b →
            _rate_limiter a = _rate_limiter b).
Proof.
  destruct (init_all_spec args start consistent_start)
    as (w & apis & Hr & Hw & Hkeys & Hrefs & _).
  exists w, apis. pose proof (consistent_NoDup w Hw) as Hnd.
  destruct Hw as [Hlen Hc].
  split; [done|]. split; [done|]. split; [done|]. split; [done|]. split; [|split].
  - intros key. clear -Hnd. induction Hnd as [|x l Hx _ IH]; simpl; [lia|].
    destruct (String.eqb key x) eqn:E; [|done].
    apply String.eqb_eq in E as ->. simpl.
    assert (List.filter (String.eqb x) l = []) as ->; [|simpl; lia].
    clear IH. induction l as [|y l IH]; [done|]. simpl.
    destruct (String.eqb x y) eqn:E.
    + apply String.eqb_eq in E as ->. exfalso. apply Hx. by left.
    + apply IH. intros Hin. apply Hx. by right.
  - eapply Forall_impl; [exact Hrefs|]. intros api Hapi. simpl in *.
    apply Hc in Hapi. split; [done|].
    apply lookup_lt_is_Some. rewrite Hlen. by eapply lookup_lt_Some.
  - intros a b Ha Hb Hab.
    rewrite Forall_forall in Hrefs.
    pose proof (Hrefs a Ha) as H1. pose proof (Hrefs b Hb) as H2. simpl in *.
    rewrite Hab in H1. congruence.
Qed.

End RegistryFacts.

(** * The decoders *)

Lemma bind_St {S A B} (m : St S A) (k : A → St S B) (s : S) :
  (m ≫= k) s =
  match m s with
  | (s', Ok a) => k a s'
  | (s', Raise e) => (s', Raise e)
  end.
Proof. reflexivity. Qed.

Lemma bind_Res {A B} (m : Res A) (k : A → Res B) :
  (m ≫= k) = match m with Ok a => k a | Raise e => Raise e end.
Proof. reflexivity. Qed.

Lemma for_cons {S I} (i : I) idx (body : I → St S unit) (s : S) :
  for_ (i :: idx) body s =
  match body i s with
  | (s', Ok _) => for_ idx body s'
  | (s', Raise e) => (s', Raise e)
  end.
Proof. reflexivity. Qed.

Section LoopFacts.
Context {R I : Type} (f : I → Res R).

(* a loop that appends [f i] turn by turn: the list grows by the
   results of the turns before the first that raises *)
Lemma for_append_spec idx : ∀ data,
  ∃ rs,
    (for_ idx (λ i, r ← lift (f i); append r) data).1 = data ++ rs ∧
    Forall2 (λ i r, f i = Ok r) (take (length rs) idx) rs ∧
    match (for_ idx (λ i, r ← lift (f i); append r) data).2 with
    | Ok _ => length rs = length idx
    | Raise e => ∃ i, idx !! length rs = Some i ∧ f i = Raise e
    end.
Proof.
  induction idx as [|i idx IH]; intros data.
  - exists []. simpl. rewrite app_nil_r. by repeat split.
  - rewrite for_cons, bind_St. unfold lift at 1. destruct (f i) as [r|e] eqn:Hf.
    + unfold append at 1.
      destruct (IH (data ++ [r])) as (rs & Hd & Hrs & Hres).
      exists (r :: rs). split; [|split].
      * rewrite Hd. by rewrite <- app_assoc.
      * simpl. by constructor.
      * simpl. destruct (for_ idx _ (data ++ [r])).2 as [u|e]; [by f_equal|done].
    + exists []. simpl. rewrite app_nil_r. split; [done|]. split; [constructor|].
      by exists i.
Qed.

(* the same for a loop whose turns may skip their [append] *)
Lemma for_append_option_spec (g : I → Res (option R)) idx : ∀ data,
  ∃ done_,
    (for_ idx (λ i, r ← lift (g i);
                    match r with Some r => append r | None => mret tt end) data).1
      = data ++ omap id done_ ∧
    Forall2 (λ i r, g i = Ok r) (take (length done_) idx) done_ ∧
    match (for_ idx (λ i, r ← lift (g i);
                    match r with Some r => append r | None => mret tt end) data).2 with
    | Ok _ => length done_ = length idx
    | Raise e => ∃ i, idx !! length done_ = Some i ∧ g i = Raise e
    end.
Proof.
  induction idx as [|i idx IH]; intros data.
  - exists []. simpl. rewrite app_nil_r. by repeat split.
  - rewrite for_cons, bind_St. unfold lift at 1. destruct (g i) as [[r|]|e] eqn:Hg.
    + unfold append at 1.
      destruct (IH (data ++ [r])) as (rs & Hd & Hrs & Hres).
      exists (Some r :: rs). split; [|split].
      * rewrite Hd. by rewrite <- app_assoc.
      * simpl. by constructor.
      * simpl. destruct (for_ idx _ (data ++ [r])).2 as [u|e]; [by f_equal|done].
    + destruct (IH data) as (rs & Hd & Hrs & Hres).
      exists (None :: rs). split; [|split].
      * exact Hd.
      * simpl. by constructor.
      * simpl. destruct (for_ idx _ data).2 as [u|e]; [by f_equal|done].
    + exists []. simpl. rewrite app_nil_r. split; [done|]. split; [constructor|].
      by exists i.
Qed.

End LoopFacts.

Section AppendFacts.
Context {R : Type}.

Lemma appends_lift {A} (r : Res A) : appends (R:=R) (lift r).
Proof. intros data. exists []. simpl. by rewrite app_nil_r. Qed.

Lemma appends_append (r : R) : appends (append r).
Proof. intros data. by exists [r]. Qed.

Lemma appends_bind {A B} (m : St (list R) A) (k : A → St (list R) B) :
  appends m → (∀ a, appends (k a)) → appends (m ≫= k).
Proof.
  intros Hm Hk data. rewrite bind_St. destruct (Hm data) as [more1 H1].
  destruct (m data) as [d1 [a|e]]; simpl in *; subst d1.
  - destruct (Hk a (data ++ more1)) as [more2 H2]. exists (more1 ++ more2).
    by rewrite H2, app_assoc.
  - by exists more1.
Qed.

Lemma appends_for {I} (idx : list I) (body : I → St (list R) unit) :
  (∀ i, appends (body i)) → appends (for_ idx body).
Proof.
  intros Hb. induction idx as [|i idx IH].
  - intros data. exists []. simpl. by rewrite app_nil_r.
  - apply appends_bind; [apply Hb|]. intros _. exact IH.
Qed.

End AppendFacts.

Lemma range_lookup_inv n i j : range n !! i = Some j → j = i ∧ Z.of_nat i < n.
Proof. unfold range. intros Hl. apply lookup_seq in Hl. lia. Qed.


Lemma nth_error_lt {A} (l : list A) i x : nth_error l i = Some x → (i < length l)%nat.
Proof. intros Hx. apply nth_error_Some. congruence. Qed.


Section ZoneFacts.
Context `{LocalTime}.

(* the records of a loop that appended [f zone] for the zones of
   [range n], followed by what came after the loop, if it ended *)
Lemma zone_loop_lookup {R} (f : nat → Res R) n (rs more l : list R) i r :
  Forall2 (λ i r, f i = Ok r) (take (length rs) (range n)) rs →
  (length rs < length (range n) → more = [])%nat →
  l = rs ++ more →
  Z.of_nat i < n →
  l !! i = Some r →
  f i = Ok r.
Proof.
  intros HF Hmore -> Hi Hl.
  assert (Hlen : (length rs ≤ length (range n))%nat).
  { apply Forall2_length in HF. rewrite length_take in HF. lia. }
  assert (Hr : length (range n) = Z.to_nat n) by (unfold range; apply length_seq).
  destruct (decide (i < length rs)%nat) as [Hlt|Hge].
  - rewrite lookup_app_l in Hl by done.
    destruct (Forall2_lookup_r _ _ _ _ _ HF Hl) as (j & Hj & Hf).
    rewrite lookup_take_lt in Hj by done.
    apply range_lookup_inv in Hj as [-> _]. done.
  - destruct (decide (length rs < length (range n))%nat) as [Hshort|Hfull].
    + rewrite (Hmore Hshort), app_nil_r in Hl.
      apply lookup_lt_Some in Hl. lia.
    + lia.
Qed.

Lemma sensor_states_body_zones st prof n :
  (x ← getitem prof "zonesLimit"; as_index x) = Ok n →
  ∃ rs more,
    (sensor_states_body st prof []).1 = rs ++ more ∧
    Forall2 (λ i r, sensor_record st prof i = Ok r) (take (length rs) (range n)) rs ∧
    (length rs < length (range n) →
     more = [] ∧ ∃ i e, sensor_record st prof i = Raise e)%nat.
Proof.
  intros Hn. unfold sensor_states_body. rewrite bind_St. unfold lift at 1. rewrite Hn.
  rewrite bind_St.
  destruct (for_append_spec (sensor_record st prof) (range n) []) as (rs & Hd & HF & Hres).
  destruct (for_ (range n) _ []) as [d1 [u|e]]; simpl in Hd, Hres; subst d1.
  - match goal with |- context [(?t rs).1] => assert (Ht : appends t) end.
    { repeat (apply appends_bind; [apply appends_lift|intros ?]).
      apply appends_for. intros ?.
      apply appends_bind; [apply appends_lift|intros ?]. apply appends_append. }
    destruct (Ht rs) as [more Hm]. exists rs, more. split; [exact Hm|].
    split; [done|]. lia.
  - exists rs, []. rewrite app_nil_r. split; [done|]. split; [done|].
    intros _. split; [done|]. destruct Hres as (i & _ & Hi). eauto.
Qed.

Lemma bypass_states_body_zones st prof n :
  (x ← getitem prof "zonesLimit"; as_index x) = Ok n →
  ∃ rs,
    (bypass_states_body st prof []).1 = rs ∧
    Forall2 (λ i r, bypass_record st prof i = Ok r) (take (length rs) (range n)) rs.
Proof.
  intros Hn. unfold bypass_states_body. rewrite bind_St. unfold lift at 1. rewrite Hn.
  destruct (for_append_spec (bypass_record st prof) (range n) []) as (rs & Hd & HF & Hres).
  exists rs. by split.
Qed.

Lemma zones_limit_profile d prof n :
  getitem d "deviceProfile" = Ok prof →
  zones_limit d = Ok n →
  (x ← getitem prof "zonesLimit"; as_index x) = Ok n.
Proof. intros Hp. unfold zones_limit. by rewrite Hp. Qed.

(* a zone reported by [get_sensor_states] comes from its turn of the loop *)
Lemma sensor_states_lookup d l n i r :
  get_sensor_states d = Ok l →
  zones_limit d = Ok n →
  Z.of_nat i < n →
  l !! i = Some r →
  ∃ st prof, getitem d "deviceState" = Ok st ∧ getitem d "deviceProfile" = Ok prof ∧
             sensor_record st prof i = Ok r.
Proof.
  intros Hd Hn Hi Hl. unfold get_sensor_states in Hd. rewrite !bind_Res in Hd.
  destruct (getitem d "deviceState") as [st|] eqn:Hst; [|discriminate].
  destruct (getitem d "deviceProfile") as [prof|] eqn:Hprof; [|discriminate].
  cbn [mbind Res_bind] in Hd.
  exists st, prof. split; [done|]. split; [done|].
  destruct (sensor_states_body_zones st prof n (zones_limit_profile _ _ _ Hprof Hn))
    as (rs & more & Hb & HF & Hmore).
  assert (l = rs ++ more) as Hlist.
  { destruct (sensor_states_body st prof []) as [data [u|e]]; simpl in Hb.
    - congruence.
    - destruct (key_or_index_error e); [congruence|discriminate]. }
  eapply (zone_loop_lookup _ n rs more);
    [exact HF | intros Hs; by destruct (Hmore Hs) | done | done | done].
Qed.

Lemma bypass_states_lookup d l n i r :
  get_sensor_bypass_states d = Ok l →
  zones_limit d = Ok n →
  Z.of_nat i < n →
  l !! i = Some r →
  ∃ st prof, getitem d "deviceState" = Ok st ∧ getitem d "deviceProfile" = Ok prof ∧
             bypass_record st prof i = Ok r.
Proof.
  intros Hd Hn Hi Hl. unfold get_sensor_bypass_states in Hd. rewrite !bind_Res in Hd.
  destruct (getitem d "deviceState") as [st|] eqn:Hst; [|discriminate].
  destruct (getitem d "deviceProfile") as [prof|] eqn:Hprof; [|discriminate].
  cbn [mbind Res_bind] in Hd.
  exists st, prof. split; [done|]. split; [done|].
  destruct (bypass_states_body_zones st prof n (zones_limit_profile _ _ _ Hprof Hn))
    as (rs & Hb & HF).
  assert (l = rs ++ []) as Hlist.
  { rewrite app_nil_r.
    destruct (bypass_states_body st prof []) as [data [u|e]]; simpl in Hb.
    - congruence.
    - destruct (key_or_index_error e); [congruence|discriminate]. }
  by eapply (zone_loop_lookup (bypass_record st prof) n rs []).
Qed.

Lemma sensor_record_state st prof i r :
  sensor_record st prof i = Ok r →
  zone_state st i "a" = Ok (Sensor.state r) ∧ Sensor.zone_number r = Z.of_nat i.
Proof.
  unfold sensor_record. rewrite !bind_Res. intros Hr.
  destruct (zone_state st i "a") as [s|]; [|discriminate].
  repeat match type of Hr with
         | match ?m ≫= _ with _ => _ end = _ => rewrite bind_Res in Hr
         | match ?m with _ => _ end = _ => destruct m; [|discriminate]
         | (?m ≫= _) = _ => rewrite bind_Res in Hr
         end.
  by injection Hr as <-.
Qed.

Lemma bypass_record_state st prof i r :
  bypass_record st prof i = Ok r →
  zone_state st i "b" = Ok (Bypass.state r) ∧ Bypass.zone_number r = Z.of_nat i.
Proof.
  unfold bypass_record. rewrite !bind_Res. intros Hr.
  destruct (zone_state st i "b") as [s|]; [|discriminate].
  repeat match type of Hr with
         | match ?m ≫= _ with _ => _ end = _ => rewrite bind_Res in Hr
         | match ?m with _ => _ end = _ => destruct m; [|discriminate]
         | (?m ≫= _) = _ => rewrite bind_Res in Hr
         end.
  by injection Hr as <-.
Qed.

End ZoneFacts.




(** ** PGMs *)

Lemma guarded_index {A} (x : json) (i : nat) (k : json → Res A) (dflt : Res A) :
  (if is_list x then
     n ← py_len x;
     if bool_decide (i < n)%nat then v ← getindex x i; k v else dflt
   else dflt) =
  match x with
  | JArr l => match nth_error l i with Some v => k v | None => dflt end
  | _ => dflt
  end.
Proof.
  destruct x as [| | | |l|]; try reflexivity. simpl.
  case_bool_decide as Hlt.
  - destruct (nth_error l i) eqn:E; [done|].
    apply nth_error_None in E. lia.
  - destruct (nth_error l i) eqn:E; [|done].
    apply nth_error_lt in E. lia.
Qed.

Lemma guarded_index' (x : json) (i : nat) (dflt : json) :
  (if is_list x then
     n ← py_len x;
     if bool_decide (i < n)%nat then getindex x i else Ok dflt
   else Ok dflt) =
  Ok match x with
     | JArr l => match nth_error l i with Some v => v | None => dflt end
     | _ => dflt
     end.
Proof.
  destruct x as [| | | |l|]; try reflexivity. simpl.
  case_bool_decide as Hlt.
  - destruct (nth_error l i) eqn:E; [done|].
    apply nth_error_None in E. lia.
  - destruct (nth_error l i) eqn:E; [|done].
    apply nth_error_lt in E. lia.
Qed.

(* a turn of the PGM loop never raises; what it appends *)
Lemma pgm_record_spec pgm_state pgm_labels pgm_setup i :
  let setup_val :=
    match pgm_setup with
    | JArr l => match nth_error l i with Some v => v | None => JStr "" end
    | _ => JStr ""
    end in
  let setup_str := match setup_val with JNull => "" | v => py_str v end in
  let status :=
    match pgm_state with JArr l => py_str <$> nth_error l i | _ => None end in
  ∃ name,
    pgm_record pgm_state pgm_labels pgm_setup i =
    Ok (if eq_str setup_val "" then None
        else Some {| Pgm.name := name;
                     Pgm.enabled := char_is setup_str 0 "1";
                     Pgm.pulse := char_is setup_str 2 "1";
                     Pgm.state := match status with
                                  | Some c => String.eqb (lower c) "a"
                                  | None => false
                                  end;
                     Pgm.pgm_number := Z.of_nat i + 1 |}).
Proof.
  intros setup_val setup_str status. unfold pgm_record.
  rewrite (guarded_index pgm_state i (λ x, Ok (String.eqb (lower (py_str x)) "a")) (Ok false)).
  rewrite !guarded_index'.
  fold setup_val. cbn [mbind Res_bind].
  assert (Hstate : match pgm_state with
                   | JArr l => match nth_error l i with
                               | Some v => Ok (String.eqb (lower (py_str v)) "a")
                               | None => Ok false
                               end
                   | _ => Ok false
                   end = Ok match status with
                            | Some c => String.eqb (lower c) "a"
                            | None => false
                            end).
  { unfold status. destruct pgm_state as [| | | |l|]; try done.
    by destruct (nth_error l i). }
  rewrite Hstate. cbn [mbind Res_bind].
  destruct (eq_str setup_val ""); [by exists JNull|]. eexists. reflexivity.
Qed.

Lemma truthy_not_zero x : truthy x = true → eq_int x 0 = false.
Proof.
  destruct x as [|[]|z| | |]; simpl; try done.
  by intros ->%negb_true_iff.
Qed.

Lemma falsy_or x y : truthy x = false → py_or x y = y.
Proof. unfold py_or. by intros ->. Qed.

Lemma truthy_or x y : truthy x = true → py_or x y = x.
Proof. unfold py_or. by intros ->. Qed.

Lemma py_int_error x e : py_int x = Raise e → key_or_index_error e = false.
Proof.
  destruct x as [|[]|z|s| |]; simpl; try discriminate; try (by intros [= <-]).
  destruct (int_of_string s); [discriminate|]. by intros [= <-].
Qed.

(* the setup-control value read through [pgmControl or []] *)
Lemma setup_val_or c i :
  match py_or c (JArr []) with
  | JArr l => match nth_error l i with Some v => v | None => JStr "" end
  | _ => JStr ""
  end =
  match c with
  | JArr l => match nth_error l i with Some v => v | None => JStr "" end
  | _ => JStr ""
  end.
Proof.
  destruct (truthy c) eqn:Ht.
  - by rewrite truthy_or.
  - rewrite falsy_or by done. destruct c as [| | | |[|]|]; try done; by destruct i.
Qed.

(* the limit worked out by the first [try] of [get_pgm_zones] *)
Lemma pgm_limit_or lim labels :
  (pgm_limit' ←
     (if eq_int (py_or lim (JInt 0)) 0 && is_list (py_or labels (JArr [])) then
        n ← py_len (py_or labels (JArr [])); Ok (JInt (Z.of_nat n))
      else Ok (py_or lim (JInt 0)));
   py_int pgm_limit') =
  (if truthy lim then py_int lim
   else match labels with
        | JArr l => Ok (Z.of_nat (length l))
        | _ => Ok 0
        end).
Proof.
  destruct (truthy lim) eqn:Hl.
  - rewrite truthy_or by done. by rewrite truthy_not_zero.
  - rewrite (falsy_or lim) by done. simpl eq_int. cbn [andb].
    destruct (truthy labels) eqn:Hb.
    + rewrite truthy_or by done. by destruct labels.
    + rewrite falsy_or by done. simpl. by destruct labels as [| | | |[|]|].
Qed.

(* what the first [try] of [get_pgm_zones] hands to the loop *)
Lemma pgm_setup_data_spec d :
  match pgm_setup_data d with
  | Ok None => pgm_limit d = Ok 0
  | Ok (Some (pgm_state, pgm_labels, limit, pgm_setup)) =>
      pgm_state = state_field d "pgm" ∧
      py_int limit = pgm_limit d ∧
      pgm_setup = py_or (profile_field d "pgmControl") (JArr [])
  | Raise e => e = AttributeError
  end.
Proof.
  unfold pgm_setup_data, pgm_limit, profile_field, state_field.
  destruct d as [| | | | |kvs]; try done. simpl.
  destruct (assoc "deviceProfile" kvs) as [prof|]; [|done].
  destruct prof as [| | | | |pkvs]; try done. simpl.
  destruct (assoc "deviceState" kvs) as [st|]; simpl.
  - destruct st as [| | | | |skvs]; try done. simpl.
    set (lim := match assoc "pgmLimit" pkvs with Some v => v | None => JNull end).
    set (labels := match assoc "pgmLabels" pkvs with Some v => v | None => JNull end).
    pose proof (pgm_limit_or lim labels) as Hlim.
    destruct (py_or labels (JArr [])) as [| | | |l|] eqn:Hor; simpl is_list in *;
      rewrite ?andb_false_r, ?andb_true_r in *; simpl in *; try done.
    destruct (eq_int (py_or lim (JInt 0)) 0); simpl in *; done.
  - set (lim := match assoc "pgmLimit" pkvs with Some v => v | None => JNull end).
    set (labels := match assoc "pgmLabels" pkvs with Some v => v | None => JNull end).
    pose proof (pgm_limit_or lim labels) as Hlim.
    destruct (py_or labels (JArr [])) as [| | | |l|] eqn:Hor; simpl is_list in *;
      rewrite ?andb_false_r, ?andb_true_r in *; simpl in *; try done.
    destruct (eq_int (py_or lim (JInt 0)) 0); simpl in *; done.
Qed.

Lemma char_is_get s i c : char_is s i c = true ↔ String.get i s = Some c.
Proof.
  unfold char_is. destruct (String.get i s) as [c'|]; [|done].
  destruct (Ascii.eqb_spec c' c); split; congruence.
Qed.

(* the records appended by the turns of the PGM loop that did not skip *)
Lemma pgm_loop_entries d pgm_labels idx : ∀ done_,
  Forall2 (λ i r, pgm_record (state_field d "pgm") pgm_labels
                    (py_or (profile_field d "pgmControl") (JArr [])) i = Ok r)
          idx done_ →
  Forall2 (pgm_entry_reads (λ c, lower c = "a") d)
          (List.filter (λ i, negb (eq_str (pgm_setup_val d i) "")) idx)
          (omap id done_).
Proof.
  induction idx as [|i idx IH]; intros done_ HF.
  - apply Forall2_nil_inv_l in HF as ->. constructor.
  - apply Forall2_cons_inv_l in HF as (r & rs & Hr & HF & ->).
    specialize (IH rs HF). simpl.
    destruct (pgm_record_spec (state_field d "pgm") pgm_labels
                (py_or (profile_field d "pgmControl") (JArr [])) i) as [name Hspec].
    cbv zeta in Hspec. rewrite setup_val_or in Hspec.
    fold (pgm_setup_val d i) in Hspec.
    rewrite Hspec in Hr. injection Hr as <-.
    destruct (eq_str (pgm_setup_val d i) "") eqn:He; simpl; [done|].
    constructor; [|done].
    unfold pgm_entry_reads. simpl. split; [done|].
    rewrite !char_is_get. unfold pgm_setup_str.
    split; [done|]. split; [done|].
    change (match state_field d "pgm" with
            | JArr l => py_str <$> nth_error l i
            | _ => None
            end) with (pgm_status_char d i).
    destruct (pgm_status_char d i) as [c|].
    + rewrite String.eqb_eq. split; [by exists c | intros (c' & [= <-] & ?); done].
    + split; [done | intros (c' & ? & _); done].
Qed.

(** C8, as amended. The list [get_pgm_zones] returns has one record,
    in order, for each index from 0 up to [pgmLimit] (or up to the
    length of the label array when the limit is zero or absent) whose
    setup-control string is not empty; the record of index [i] has
    [pgm_number = i + 1], [enabled] iff the first character of the
    setup string is ["1"], [pulse] iff its third character is ["1"],
    and [state] iff the character at index [i] of the PGM status array
    is ["a"] in either case. *)
Theorem pgm_zones_follow_setup_and_status d l :
  get_pgm_zones d = Ok l →
  pgm_zones_decoded (λ c, lower c = "a") d l.
Proof.
  unfold get_pgm_zones. intros Hd.
  pose proof (pgm_setup_data_spec d) as Hsetup.
  destruct (pgm_setup_data d) as [[[[[pgm_state pgm_labels] lim] pgm_setup]|]|e];
    simpl in Hd.
  - destruct Hsetup as (-> & Hlim & ->).
    rewrite bind_St in Hd. unfold lift at 1 in Hd.
    destruct (py_int lim) as [limit|e] eqn:Hint.
    + exists limit. split; [by rewrite <- Hlim|].
      destruct (for_append_option_spec
                  (pgm_record (state_field d "pgm") pgm_labels
                     (py_or (profile_field d "pgmControl") (JArr [])))
                  (range limit) []) as (done_ & Hdata & HF & Hres).
      destruct (for_ (range limit) _ []) as [pgms [u|e]]; simpl in Hdata, Hres.
      * injection Hd as <-. subst pgms.
        rewrite Hres, firstn_all in HF. by apply (pgm_loop_entries d pgm_labels).
      * destruct Hres as (i & _ & Hraise).
        destruct (pgm_record_spec (state_field d "pgm") pgm_labels
                    (py_or (profile_field d "pgmControl") (JArr [])) i) as [name Hspec].
        cbv zeta in Hspec. congruence.
    + apply py_int_error in Hint. by rewrite Hint in Hd.
  - injection Hd as <-. exists 0. split; [done|]. constructor.
  - subst e. discriminate.
Qed.

Lemma pgm_zones_follow_setup_and_status_witness :
  pgm_zones_decoded (λ c, lower c = "a") device_pgm_A
    [Pgm.mk (JStr "Gate") true true true 1].
Proof.
  apply (pgm_zones_follow_setup_and_status device_pgm_A). reflexivity.
Defined.

(** C8, as stated, fails: with the status character ["A"] the PGM is
    reported active although the character is not ["a"]. *)
Lemma pgm_state_ignores_case :
  get_pgm_zones device_pgm_A = Ok [Pgm.mk (JStr "Gate") true true true 1] ∧
  pgm_status_char device_pgm_A 0 = Some "A" ∧
  ¬ pgm_zones_decoded (λ c, c = "a") device_pgm_A [Pgm.mk (JStr "Gate") true true true 1] ∧
  ¬ (∀ d l, get_pgm_zones d = Ok l → pgm_zones_decoded (λ c, c = "a") d l).
Proof.
  assert (Hno : ¬ pgm_zones_decoded (λ c, c = "a") device_pgm_A
                    [Pgm.mk (JStr "Gate") true true true 1]).
  { intros (limit & Hlimit & HF). injection Hlimit as <-.
    apply Forall2_cons_1 in HF as [(_ & _ & _ & Hstate) _].
    simpl in Hstate. destruct Hstate as [Hstate _].
    destruct (Hstate eq_refl) as (c & [= <-] & Hc). discriminate. }
  split; [reflexivity|]. split; [reflexivity|]. split; [exact Hno|].
  intros Hall. apply Hno, Hall. reflexivity.
Qed.

(** ** Decoding devices whose zone fields are arrays or strings *)

Section SettleFacts.
Context (caught : exn → bool).







End SettleFacts.


(** Reading fields of the documented shape *)












Section ZoneSettles.
Context `{LocalTime}.







End ZoneSettles.





Section DecoderTotal.
Context `{LocalTime}.



End DecoderTotal.

Lemma lookup_nth_error {A} (l : list A) i : l !! i = nth_error l i.
Proof. revert i. induction l; intros [|i]; simpl; auto. Qed.

(** Short and missing arrays *)



Section ShortArrays.
Context `{LocalTime}.






End ShortArrays.

(** ** The state of a zone *)





(* [zonesLimit = 3], [zones = "Aab"]: zones 0 and 1 are active, zone 2
   is bypassed *)
Example sensor_states_Aab :
  (map Sensor.state <$> get_sensor_states (H:=epoch_time) device_Aab,
   map Bypass.state <$> get_sensor_bypass_states (H:=epoch_time) device_Aab) =
  (Ok ["on"; "on"; "off"], Ok ["off"; "off"; "on"]).
Proof. reflexivity. Qed.

(** C3. The decoders let exceptions out, and [get_ukey_zones] drops
    its partial list. With [zonesLimit = 0] the zone loop of
    [get_sensor_states] leaves [zone] unbound and [zone = zone + 1]
    raises [UnboundLocalError]; a [power] value or a [ukeysControl]
    value that [int] does not read raises [ValueError], which no
    handler of the decoder catches; on the JSON that [get_device_json]
    returns for a rejected key, [devices_json["deviceState"]] raises
    [KeyError] outside every [try]. When the second turn of the
    utility-key loop raises [IndexError], [get_ukey_zones] returns the
    empty list, not the record its first turn has built. This holds on
    every platform. *)
Theorem decoders_let_exceptions_out `{LocalTime} :
  get_sensor_states device_no_zones = Raise UnboundLocalError ∧
  get_sensor_states device_power_text = Raise ValueError ∧
  get_ukey_zones device_ukey_text = Raise ValueError ∧
  get_sensor_states device_error = Raise KeyError ∧
  (ukey_record (JArr [JStr "Gate"; JStr "Garage"]) (JArr [JInt 1]) 0 =
     Ok (Ukey.mk (JStr "Gate") true 1) ∧
   ukey_record (JArr [JStr "Gate"; JStr "Garage"]) (JArr [JInt 1]) 1 = Raise IndexError ∧
   get_ukey_zones device_full = Ok []).
Proof. split_and!; reflexivity. Qed.

(* with no zones the bypass decoder, which has no statement after its
   loop, returns the empty list *)
Example bypass_states_without_zones :
  get_sensor_bypass_states (H:=epoch_time) device_no_zones = Ok [].
Proof. reflexivity. Qed.

(** * The requests *)

Lemma wait_for_slot_granted s :
  slot_granted s →
  ∃ s', wait_for_slot s = (s', Ok true) ∧
        OlarmRateLimiter._consecutive_429s (limiter s') =
        OlarmRateLimiter._consecutive_429s (limiter s) ∧
        logged s' = logged s.
Proof.
  intros Hg. unfold wait_for_slot, OlarmRateLimiter.wait_for_slot.
  rewrite bool_decide_false by (unfold slot_granted in Hg; lia).
  eexists. split; [reflexivity|]. by split.
Qed.

Lemma wait_for_slot_denied s :
  ¬ slot_granted s → wait_for_slot s = (s, Ok false).
Proof.
  intros Hg. unfold wait_for_slot, OlarmRateLimiter.wait_for_slot.
  rewrite bool_decide_true by (unfold slot_granted in Hg; lia).
  by destruct s.
Qed.

Lemma slot_granted_dec s : slot_granted s ∨ ¬ slot_granted s.
Proof. unfold slot_granted. lia. Qed.

(* the JSON branch of [send_action] *)
Lemma send_action_json post_data r resp s :
  slot_granted s →
  status r ≠ 429 →
  json_body r = Parsed resp →
  (send_action post_data (Response r) s).2 =
  (v ← getitem resp "actionStatus";
   if String.eqb (lower (py_str v)) "ok" then Ok true
   else getitem resp "actionCmd";; getitem resp "deviceName";;
        getitem resp "actionMsg";; Ok false).
Proof.
  intros Hg Hs Hj. unfold send_action, mbind at 1, St_bind at 1.
  destruct (wait_for_slot_granted s Hg) as (s' & -> & _). simpl negb. cbv iota.
  rewrite (proj2 (Z.eqb_neq _ _) Hs), Hj.
  unfold mbind, St_bind, mret, St_ret, lift, record_success, log, Res_bind.
  destruct (getitem resp "actionStatus") as [v|e]; [|done].
  destruct (String.eqb (lower (py_str v)) "ok"); simpl; [done|].
  destruct (getitem resp "actionCmd"); [|done].
  destruct (getitem resp "deviceName"); [|done].
  by destruct (getitem resp "actionMsg").
Qed.

Lemma send_action_denied post_data answer s :
  ¬ slot_granted s → (send_action post_data answer s).2 = Ok false.
Proof.
  intros Hg. unfold send_action, mbind at 1, St_bind at 1.
  by rewrite (wait_for_slot_denied s Hg).
Qed.

Lemma send_action_failed post_data e s :
  slot_granted s →
  (send_action post_data (Failed e) s).2 =
  if connector_error e then Ok false else Raise e.
Proof.
  intros Hg. unfold send_action, mbind at 1, St_bind at 1.
  destruct (wait_for_slot_granted s Hg) as (s' & -> & _). simpl negb. cbv iota.
  by destruct (connector_error e).
Qed.

Lemma send_action_429 post_data r s :
  status r = 429 → (send_action post_data (Response r) s).2 = Ok false.
Proof.
  intros Hs. destruct (slot_granted_dec s) as [Hg|Hg]; [|by apply send_action_denied].
  unfold send_action, mbind at 1, St_bind at 1.
  destruct (wait_for_slot_granted s Hg) as (s' & -> & _). simpl negb. cbv iota.
  by rewrite Hs.
Qed.

Lemma send_action_non_json post_data r s :
  slot_granted s →
  status r ≠ 429 →
  json_body r = NotJson →
  (send_action post_data (Response r) s).2 = (getitem post_data "actionNum";; Ok false).
Proof.
  intros Hg Hs Hj. unfold send_action, mbind at 1, St_bind at 1.
  destruct (wait_for_slot_granted s Hg) as (s' & -> & _). simpl negb. cbv iota.
  rewrite (proj2 (Z.eqb_neq _ _) Hs), Hj.
  unfold mbind, St_bind, mret, St_ret, lift, record_rate_limit, log, Res_bind.
  destruct (contains "too many requests" (lower (text r)));
    by destruct (getitem post_data "actionNum").
Qed.

Lemma send_action_malformed post_data r s :
  slot_granted s →
  status r ≠ 429 →
  json_body r = Malformed →
  (send_action post_data (Response r) s).2 = Raise JSONDecodeError.
Proof.
  intros Hg Hs Hj. unfold send_action, mbind at 1, St_bind at 1.
  destruct (wait_for_slot_granted s Hg) as (s' & -> & _). simpl negb. cbv iota.
  by rewrite (proj2 (Z.eqb_neq _ _) Hs), Hj.
Qed.

(* when [send_action] returns [True] *)
Lemma send_action_true post_data answer s :
  (send_action post_data answer s).2 = Ok true ↔
  slot_granted s ∧ ∃ r, answer = Response r ∧ status r ≠ 429 ∧ action_status_ok r.
Proof.
  split.
  - intros Ht.
    destruct (slot_granted_dec s) as [Hg|Hg];
      [|by rewrite send_action_denied in Ht].
    split; [done|].
    destruct answer as [e|r].
    { rewrite send_action_failed in Ht by done. by destruct (connector_error e). }
    exists r. split; [done|].
    destruct (decide (status r = 429)) as [Hs|Hs];
      [by rewrite send_action_429 in Ht|].
    split; [done|].
    destruct (json_body r) as [resp| |] eqn:Hj.
    + rewrite (send_action_json _ _ resp) in Ht by done.
      destruct (getitem resp "actionStatus") as [v|] eqn:Hv; [|done].
      cbn [mbind Res_bind] in Ht.
      destruct (String.eqb_spec (lower (py_str v)) "ok") as [Hok|Hne].
      * by exists resp, v.
      * destruct (getitem resp "actionCmd"); [|done].
        destruct (getitem resp "deviceName"); [|done].
        by destruct (getitem resp "actionMsg").
    + rewrite send_action_non_json in Ht by done.
      by destruct (getitem post_data "actionNum").
    + by rewrite send_action_malformed in Ht.
  - intros (Hg & r & -> & Hs & resp & v & Hj & Hv & Hok).
    rewrite (send_action_json _ _ resp) by done. rewrite Hv.
    cbn [mbind Res_bind]. by rewrite Hok.
Qed.

(** C4. [send_action] raises where the claim has it return [False].
    Once the limiter has granted the slot, whatever the command sent:
    a 200 response whose JSON body is [{"actionStatus": "fail"}] makes
    the log call read [resp["actionCmd"]], which raises [KeyError]; a
    response served as JSON whose body does not decode raises
    [JSONDecodeError]; neither is caught. *)
Theorem send_action_raises_on_failure post_data s :
  slot_granted s →
  (send_action post_data (Response response_failed_bare) s).2 = Raise KeyError ∧
  (send_action post_data (Response response_truncated) s).2 = Raise JSONDecodeError.
Proof.
  intros Hg. split.
  - by rewrite (send_action_json _ _ (JObj [("actionStatus", JStr "fail")])).
  - by rewrite send_action_malformed.
Qed.

Lemma send_action_raises_on_failure_witness :
  (send_action arm_area_1 (Response response_failed_bare) fresh_state).2 = Raise KeyError ∧
  (send_action arm_area_1 (Response response_truncated) fresh_state).2 =
    Raise JSONDecodeError.
Proof.
  apply (send_action_raises_on_failure arm_area_1 fresh_state).
  unfold slot_granted. simpl. unfold API_MAX_CONSECUTIVE_429. lia.
Defined.

Lemma new_logs_app s s' l : logged s' = logged s ++ l → new_logs s s' = l.
Proof. intros Hl. unfold new_logs. rewrite Hl. apply drop_app_length. Qed.

(* what a call that found the limiter closed leaves behind *)
Lemma denied_same_classification r s : ¬ slot_granted s → same_classification r s.
Proof.
  intros Hg. unfold same_classification, get_device_json, get_all_devices.
  unfold mbind, St_bind. rewrite (wait_for_slot_denied s Hg). by simpl.
Qed.

(** C9, as amended. For a response whose body is not JSON, whose
    status is not 502, and whose text has the words ["Forbidden"] and
    ["Too Many Requests"] in that capitalisation whenever it has them
    in any, [get_all_devices] and [get_device_json] agree on whether
    the response is an authentication failure and on whether
    [record_rate_limit] is invoked, and leave the limiter in the same
    state. *)
Theorem listings_classify_alike r s :
  non_json r →
  status r ≠ 502 →
  contains "forbidden" (lower (text r)) = contains "Forbidden" (text r) →
  contains "too many requests" (lower (text r)) = contains "Too Many Requests" (text r) →
  same_classification r s.
Proof.
  intros Hj H502 Hf Ht.
  destruct (slot_granted_dec s) as [Hg|Hg]; [|by apply denied_same_classification].
  destruct (wait_for_slot_granted s Hg) as (s1 & Hw & Hc & Hl).
  unfold same_classification, get_device_json, get_all_devices.
  unfold classed_forbidden, rate_limit_recorded.
  unfold mbind, St_bind, mret, St_ret, record_rate_limit, log.
  rewrite !Hw. simpl negb. cbv iota.
  destruct (status r =? 429) eqn:H429.
  { simpl. rewrite !(new_logs_app s _ [_]) by (simpl; by rewrite Hl).
    rewrite Hc. split_and!; [|done|done].
    rewrite !list_elem_of_singleton. split; intros [=]. }
  rewrite Hj, Hf, Ht, (proj2 (Z.eqb_neq _ _) H502).
  destruct (contains "Forbidden" (text r)); [|destruct (contains "Too Many Requests" (text r))];
    simpl; rewrite !(new_logs_app s _ [_]) by (simpl; by rewrite Hl);
    rewrite ?Hc; split_and!; try done;
    rewrite !list_elem_of_singleton; split; intros [=].
Qed.

Lemma listings_classify_alike_witness : same_classification response_too_many fresh_state.
Proof.
  apply (listings_classify_alike response_too_many fresh_state);
    [reflexivity | discriminate | reflexivity | reflexivity].
Defined.

(** C9, as stated, fails: on a 502 response whose text is not JSON and
    has the words ["Too Many Requests"], [get_all_devices] invokes
    [record_rate_limit] and [get_device_json], which returns at its
    check of the status, does not. *)
Lemma listings_differ_on_502 :
  non_json response_502_too_many ∧
  rate_limit_recorded fresh_state
    (get_all_devices (Response response_502_too_many) fresh_state).1 ∧
  ¬ rate_limit_recorded fresh_state
    (get_device_json (Response response_502_too_many) fresh_state).1 ∧
  ¬ same_classification response_502_too_many fresh_state.
Proof.
  split; [reflexivity|]. split; [reflexivity|]. split; [by intros [=]|].
  intros (_ & Hr & _). assert (rate_limit_recorded fresh_state
    (get_device_json (Response response_502_too_many) fresh_state).1) as H
    by (apply Hr; reflexivity).
  vm_compute in H. discriminate.
Qed.

(* a lower-case notice is a rate limit for [get_device_json] and
   plain text for [get_all_devices] *)
Example listings_differ_on_case :
  rate_limit_recorded fresh_state
    (get_device_json (Response response_too_many_lower) fresh_state).1 ∧
  ¬ rate_limit_recorded fresh_state
    (get_all_devices (Response response_too_many_lower) fresh_state).1.
Proof. split; [reflexivity|by intros [=]]. Qed.

Lemma assoc_assoc_set {A} k (v : A) kvs : assoc k (assoc_set k v kvs) = Some v.
Proof.
  induction kvs as [|[k' v'] kvs IH]; simpl.
  - by rewrite String.eqb_refl.
  - destruct (String.eqb k k') eqn:E; simpl; by rewrite E.
Qed.

(* an entry that replaces the default record qualifies *)
Lemma is_later_change_qualifies change area :
  is_later_change default_return_data change area = Ok true → qualifies area change.
Proof.
  unfold is_later_change. rewrite !bind_Res.
  destruct (getitem change "actionCmd") as [cmd|] eqn:Hcmd; [|done].
  destruct (existsb (eq_str cmd) excluded_commands) eqn:Hex; [done|].
  destruct (getitem change "actionNum") as [num|] eqn:Hnum; [|done].
  cbn [mbind Res_bind].
  destruct (py_int num) as [a|] eqn:Ha; [|done]. cbn [mbind Res_bind].
  destruct (py_int area) as [a'|] eqn:Ha'; [|done]. cbn [mbind Res_bind].
  destruct (Z.eqb_spec a a') as [<-|]; [|done]. simpl.
  destruct (getitem change "actionCreated") as [created|] eqn:Hcr; [|done].
  cbn [mbind Res_bind].
  destruct (py_int created) as [t|] eqn:Ht; [|done]. cbn [mbind Res_bind].
  intros [= Hlt%Z.ltb_lt].
  exists cmd, num, created, a, t. by split_and!.
Qed.

Lemma latest_change_default changes area rd :
  Forall (λ c, ¬ qualifies area c) changes →
  latest_change default_return_data changes area = Ok rd →
  rd = default_return_data.
Proof.
  induction 1 as [|c changes Hc _ IH]; simpl.
  - by intros [= <-].
  - rewrite bind_Res.
    destruct (is_later_change default_return_data c area) as [[]|] eqn:E; [|done|done].
    by apply is_later_change_qualifies in E.
Qed.

Section ChangedByFacts.
Context `{LocalTime} (txt : string) (Hepoch : local_time_text (Zc 0) 0 = Ok txt).

Lemma format_default : format_action_created default_return_data = Ok (dated_default txt).
Proof. unfold format_action_created. simpl. by rewrite Hepoch. Qed.

Lemma format_never_zero rd res :
  format_action_created rd = Ok res → getitem res "actionCreated" ≠ Ok (JInt 0).
Proof.
  unfold format_action_created, try_except. rewrite !bind_Res.
  destruct (getitem rd "actionCreated") as [created|e] eqn:Hc.
  - destruct rd as [| | | | |kvs]; try done. cbn [mbind Res_bind].
    destruct (py_int created) as [secs|e] eqn:Hs; cbn [mbind Res_bind].
    + destruct (local_time_text (Zc secs) 0) as [t|e] eqn:Ht; cbn [mbind Res_bind].
      * simpl. intros [= <-]. simpl. by rewrite assoc_assoc_set.
      * destruct e; try done. intros [= <-]. rewrite Hc. intros [= ->].
        simpl in Hs. injection Hs as <-. congruence.
    + destruct e; try done. intros [= <-]. rewrite Hc. intros [= ->]. done.
  - destruct e; try done. intros [= <-]. by rewrite Hc.
Qed.

(* past the early returns the result is what the last [try] makes of
   some record *)
Lemma changed_by_late area answer s res :
  ¬ early_return answer s →
  (get_changed_by_json area answer s).2 = Ok res →
  ∃ rd, format_action_created rd = Ok res.
Proof.
  intros Hearly. unfold early_return in Hearly.
  destruct (slot_granted_dec s) as [Hg|Hg]; [|tauto].
  destruct (wait_for_slot_granted s Hg) as (s1 & Hw & _).
  unfold get_changed_by_json, mbind at 1, St_bind at 1. rewrite Hw.
  simpl negb. cbv iota.
  destruct answer as [e|r].
  { destruct (connector_or_not_found_error e) eqn:E; [|done].
    exfalso. apply Hearly. right. left. by exists e. }
  destruct (Z.eqb_spec (status r) 404) as [E|_].
  { exfalso. apply Hearly. right. right. exists r. auto. }
  destruct (Z.eqb_spec (status r) 429) as [E|_].
  { exfalso. apply Hearly. right. right. exists r. auto. }
  unfold mbind, St_bind, mret, St_ret, lift, record_success, log.
  destruct (json_body r) as [body| |]; [| |done].
  - destruct (py_iter body) as [changes|]; [|done].
    destruct (latest_change default_return_data changes area) as [rd|]; [|done].
    simpl. eauto.
  - simpl. eauto.
Qed.

Lemma changed_by_early area answer s :
  early_return answer s →
  (get_changed_by_json area answer s).2 = Ok default_return_data.
Proof.
  intros Hearly.
  unfold get_changed_by_json, mbind at 1, St_bind at 1.
  destruct (slot_granted_dec s) as [Hg|Hg];
    [|by rewrite (wait_for_slot_denied s Hg)].
  destruct (wait_for_slot_granted s Hg) as (s1 & Hw & _). rewrite Hw.
  simpl negb. cbv iota.
  destruct Hearly as [?|[(e & -> & He)|(r & -> & Hs)]]; [done| |].
  - by rewrite He.
  - destruct Hs as [Hs|Hs]; by rewrite Hs.
Qed.

Lemma changed_by_none_qualifying area r body changes s res :
  slot_granted s →
  status r ≠ 404 → status r ≠ 429 →
  json_body r = Parsed body →
  py_iter body = Ok changes →
  Forall (λ c, ¬ qualifies area c) changes →
  (get_changed_by_json area (Response r) s).2 = Ok res →
  res = dated_default txt.
Proof.
  intros Hg H404 H429 Hj Hi Hq.
  destruct (wait_for_slot_granted s Hg) as (s1 & Hw & _).
  unfold get_changed_by_json, mbind at 1, St_bind at 1. rewrite Hw.
  simpl negb. cbv iota.
  rewrite (proj2 (Z.eqb_neq _ _) H404), (proj2 (Z.eqb_neq _ _) H429), Hj.
  unfold mbind, St_bind, mret, St_ret, lift, record_success, log. rewrite Hi.
  destruct (latest_change default_return_data changes area) as [rd|] eqn:E; [|done].
  rewrite (latest_change_default changes area rd Hq E), format_default. simpl.
  by intros [= <-].
Qed.

End ChangedByFacts.

(** C10. When the epoch converts to the date [txt]: on a parseable
    action list with no entry whose command is outside the bypass, PGM
    and utility-key commands, whose [actionNum] is the area and whose
    [actionCreated] is above 0, the record [get_changed_by_json]
    returns is the default one (["No User"], [actionCmd] [None]) with
    [actionCreated] the string [txt], not the integer 0; the early
    returns (slot denied, 404, 429, exception of the session) give the
    default record with [actionCreated] still 0, and no other path
    returns a record whose [actionCreated] is 0. *)
Theorem changed_by_default_is_dated `{LocalTime} txt area answer s :
  local_time_text (Zc 0) 0 = Ok txt →
  (∀ r body changes res,
     answer = Response r → slot_granted s →
     status r ≠ 404 → status r ≠ 429 →
     json_body r = Parsed body → py_iter body = Ok changes →
     Forall (λ c, ¬ qualifies area c) changes →
     (get_changed_by_json area answer s).2 = Ok res →
     res = dated_default txt ∧
     getitem res "userFullname" = Ok (JStr "No User") ∧
     getitem res "actionCmd" = Ok JNull ∧
     getitem res "actionCreated" = Ok (JStr txt)) ∧
  (early_return answer s →
   (get_changed_by_json area answer s).2 = Ok default_return_data ∧
   getitem default_return_data "actionCreated" = Ok (JInt 0)) ∧
  (∀ res, (get_changed_by_json area answer s).2 = Ok res →
          getitem res "actionCreated" = Ok (JInt 0) →
          early_return answer s).
Proof.
  intros Hepoch. split_and!.
  - intros r body changes res -> Hg H404 H429 Hj Hi Hq Hres.
    rewrite (changed_by_none_qualifying txt Hepoch area r body changes s res); done.
  - intros Hearly. split; [by apply changed_by_early|done].
  - intros res Hres Hzero.
    assert (Hdec : early_return answer s ∨ ¬ early_return answer s).
    { unfold early_return. destruct (slot_granted_dec s) as [Hg|Hg]; [|tauto].
      destruct answer as [e|r].
      - destruct (connector_or_not_found_error e) eqn:E.
        + left. right. left. by exists e.
        + right. intros [?|[(e' & [= <-] & He)|(r & [=] & _)]]; [done|congruence].
      - destruct (decide (status r = 404)) as [E|E1].
        { left. right. right. exists r. auto. }
        destruct (decide (status r = 429)) as [E|E2].
        { left. right. right. exists r. auto. }
        right. intros [?|[(e' & [=] & _)|(r' & [= <-] & [?|?])]]; done. }
    destruct Hdec as [?|Hlate]; [done|]. exfalso.
    destruct (changed_by_late area answer s res Hlate Hres) as [rd Hrd].
    by apply (format_never_zero txt Hepoch rd res Hrd).
Qed.

Lemma changed_by_default_is_dated_witness :
  (get_changed_by_json (H:=epoch_time) (JInt 1) (Response response_actions) fresh_state).2
    = Ok (dated_default "Thu 01 Jan 1970 00:00:00") ∧
  getitem (dated_default "Thu 01 Jan 1970 00:00:00") "actionCreated"
    = Ok (JStr "Thu 01 Jan 1970 00:00:00").
Proof.
  destruct (changed_by_default_is_dated (H:=epoch_time) "Thu 01 Jan 1970 00:00:00"
              (JInt 1) (Response response_actions) fresh_state eq_refl) as (Hd & _ & _).
  destruct (Hd response_actions actions_none_qualifying
              [JObj [("actionCmd", JStr "zone-bypass"); ("actionNum", JInt 1);
                     ("actionCreated", JInt 1700000000)];
               JObj [("actionCmd", JStr "area-arm"); ("actionNum", JInt 2);
                     ("actionCreated", JInt 1700000000)];
               JObj [("actionCmd", JStr "area-arm"); ("actionNum", JInt 1);
                     ("actionCreated", JInt 0)]]
              (dated_default "Thu 01 Jan 1970 00:00:00")) as (_ & _ & _ & Hc);
    try reflexivity; try discriminate.
  - repeat constructor;
      intros (cmd & num & created & a & t & Hcmd & Hex & Hnum & Ha & Ha' & Hcr & Ht & Hlt);
      injection Hcmd as <-; injection Hnum as <-; injection Hcr as <-;
      injection Ha' as <-; vm_compute in Hex, Ha, Ht;
      try discriminate; injection Ht as <-; lia.
  - split; [reflexivity|exact Hc].
Defined.

(** * Further properties of the rate limiter *)

Section LimiterMore.
Import OlarmRateLimiter.

Lemma Qclt_sub_l (a b c : Qc) : (a - b < c ↔ a < b + c)%Qc.
Proof.
  rewrite (Qclt_minus_iff (a - b) c), (Qclt_minus_iff a (b + c)).
  by replace (c + - (a - b))%Qc with (b + c + - a)%Qc by ring.
Qed.

Lemma Qcmax_r (x y : Qc) : (x < y)%Qc → Qcmax x y = y.
Proof. intros Hd. unfold Qcmax. by rewrite bool_decide_true. Qed.

Lemma Qcmax_l (x y : Qc) : ¬ (x < y)%Qc → Qcmax x y = x.
Proof. intros Hd. unfold Qcmax. by rewrite bool_decide_false. Qed.

Lemma Qcmax_pos (d : Qc) : (0 < d)%Qc → Qcmax 0 d = d.
Proof. intros Hd. unfold Qcmax. by rewrite bool_decide_true. Qed.

Lemma Qcmax_nonneg (d : Qc) : (0 <= Qcmax 0 d)%Qc.
Proof.
  unfold Qcmax. case_bool_decide; [by apply Qclt_le_weak|apply Qcle_refl].
Qed.

Lemma Zc_le (a b : Z) : a <= b → (Zc a <= Zc b)%Qc.
Proof.
  intros Hab. unfold Zc, Qcle. simpl. rewrite !Qred_correct.
  unfold Qle. simpl. lia.
Qed.

Lemma Qcle_plus_r (a d : Qc) : (0 <= d)%Qc → (a <= a + d)%Qc.
Proof.
  intros Hd. rewrite <- (Qcplus_0_r a) at 1.
  apply Qcplus_le_compat; [apply Qcle_refl|done].
Qed.

(* the time at which a slot is granted, and the sleeps before it *)
Lemma wait_for_slot_grant self clk :
  _consecutive_429s self < API_MAX_CONSECUTIVE_429 →
  let '(allowed, self', clk') := wait_for_slot self clk in
  allowed = true ∧
  monotonic clk' =
    Qcmax (Qcmax (monotonic clk) (_backoff_until self))
          (_last_request_time self + _min_gap self)%Qc ∧
  _last_request_time self' = monotonic clk' ∧
  ∃ new, slept clk' = slept clk ++ new ∧ Forall (λ d, 0 < d)%Qc new.
Proof.
  intros Hc. unfold wait_for_slot.
  rewrite bool_decide_false by lia.
  unfold is_backed_off, backoff_remaining.
  set (now := monotonic clk). set (b := _backoff_until self).
  set (last := _last_request_time self). set (gap := _min_gap self).
  assert (Hclk1 :
    ∃ new1, monotonic (if bool_decide (now < b)%Qc
                       then sleep (Qcmax 0 (b - now)) clk else clk) = Qcmax now b ∧
            slept (if bool_decide (now < b)%Qc
                   then sleep (Qcmax 0 (b - now)) clk else clk) = slept clk ++ new1 ∧
            Forall (λ d, 0 < d)%Qc new1).
  { destruct (bool_decide (now < b)%Qc) eqn:Hb.
    - apply bool_decide_eq_true in Hb.
      assert (0 < b - now)%Qc as Hpos by (by apply Qclt_minus_iff in Hb).
      exists [(b - now)%Qc]. rewrite (Qcmax_r now b Hb), (Qcmax_pos _ Hpos).
      cbn [sleep monotonic slept]. rewrite (Qcmax_pos _ Hpos).
      split; [fold now; ring|]. split; [done|]. by constructor.
    - apply bool_decide_eq_false in Hb. exists []. rewrite (Qcmax_l now b Hb), app_nil_r.
      by repeat split. }
  destruct Hclk1 as (new1 & Ht1 & Hs1 & Hp1).
  set (clk1 := if bool_decide (now < b)%Qc then sleep (Qcmax 0 (b - now)) clk else clk) in *.
  cbv zeta. split; [done|]. rewrite <- Ht1.
  destruct (bool_decide (monotonic clk1 - last < gap)%Qc) eqn:Hg.
  - apply bool_decide_eq_true in Hg. apply Qclt_sub_l in Hg as Hg'.
    assert (0 < gap - (monotonic clk1 - last))%Qc as Hpos.
    { apply Qclt_minus_iff in Hg. exact Hg. }
    rewrite (Qcmax_r _ _ Hg'). cbn [monotonic slept sleep _last_request_time].
    rewrite Qcmax_pos by done.
    split; [ring|]. split; [done|].
    exists (new1 ++ [(gap - (monotonic clk1 - last))%Qc]).
    rewrite Hs1, <- app_assoc. split; [done|].
    apply Forall_app. split; [done|]. by constructor.
  - apply bool_decide_eq_false in Hg.
    rewrite Qcmax_l by (by rewrite <- Qclt_sub_l).
    cbn [_last_request_time]. split; [done|]. split; [done|].
    exists new1. by split.
Qed.

Lemma backoff_seconds_le hits : backoff_seconds hits <= API_BACKOFF_MAX.
Proof. unfold backoff_seconds. lia. Qed.

(* one call keeps the limiter sound *)
Lemma step_sound c self clk :
  limiter_sound self clk →
  limiter_sound (step c (self, clk)).1.1 (step c (self, clk)).1.2.
Proof.
  intros (Hc & Hl & Hb). destruct c; simpl.
  - destruct (decide (_consecutive_429s self < API_MAX_CONSECUTIVE_429)) as [Hlt|Hge].
    + pose proof (wait_for_slot_grant self clk Hlt) as Hw.
      pose proof (wait_for_slot_frame self clk) as Hf.
      destruct (wait_for_slot self clk) as [[ok self'] clk'].
      destruct Hw as (_ & Ht & Hlast & _). destruct Hf as (Hc' & Hb' & _). simpl.
      split; [lia|]. split; [rewrite Hlast; apply Qcle_refl|].
      rewrite Hb'. eapply Qcle_trans; [exact Hb|].
      apply Qcplus_le_compat; [|apply Qcle_refl].
      rewrite Ht. eapply Qcle_trans; [|apply Qcmax_ge_l]. apply Qcmax_ge_l.
    + unfold wait_for_slot. rewrite bool_decide_true by lia. by simpl.
  - by split.
  - split; [simpl; lia|]. split; [done|]. simpl.
    apply Qcplus_le_compat; [apply Qcle_refl|]. apply Zc_le, backoff_seconds_le.
  - by split.
  - assert (monotonic clk <= monotonic clk + Qcmax 0 d)%Qc as Hup
      by apply Qcle_plus_r, Qcmax_nonneg.
    split; [done|]. split; simpl.
    + by eapply Qcle_trans.
    + eapply Qcle_trans; [exact Hb|].
      apply Qcplus_le_compat; [done|apply Qcle_refl].
Qed.

(** X2. Whatever calls follow one another on a limiter, and however
    time passes between them, the counter of consecutive 429s is never
    negative, the last request is never stamped in the future, and the
    backoff never reaches more than [API_BACKOFF_MAX] = 300 seconds
    beyond the present. *)
Theorem limiter_stays_sound cs self clk :
  limiter_sound self clk →
  limiter_sound (run cs (self, clk)).1.1 (run cs (self, clk)).1.2.
Proof.
  revert self clk. induction cs as [|c cs IH]; intros self clk Hs; [done|].
  pose proof (step_sound c self clk Hs) as Hstep.
  change (run (c :: cs) (self, clk)) with
    (let '(w1, out1) := step c (self, clk) in
     let '(w2, out2) := run cs w1 in (w2, out1 ++ out2)).
  destruct (step c (self, clk)) as [[self1 clk1] out1]. simpl in Hstep.
  specialize (IH self1 clk1 Hstep).
  by destruct (run cs (self1, clk1)) as [[self2 clk2] out2].
Qed.

Lemma limiter_stays_sound_witness :
  limiter_sound
    (run [RecordRateLimit; Elapse (Zc 400); WaitForSlot; RecordRateLimit; ResetCycle]
         (new, mkClock 0%Qc [])).1.1
    (run [RecordRateLimit; Elapse (Zc 400); WaitForSlot; RecordRateLimit; ResetCycle]
         (new, mkClock 0%Qc [])).1.2.
Proof.
  apply (limiter_stays_sound
           [RecordRateLimit; Elapse (Zc 400); WaitForSlot; RecordRateLimit; ResetCycle]
           new (mkClock 0%Qc [])).
  split; [reflexivity|]. split; vm_compute; discriminate.
Defined.

(** X3. The backoff that [record_rate_limit] applies at the [hits]-th
    consecutive 429 is between 60 and 300 seconds, never shrinks as
    the hits go up, doubles from 60 up to the third hit and is 300
    from the fourth on. *)
Theorem backoff_doubles_then_saturates self clk :
  0 <= _consecutive_429s self →
  let hits := _consecutive_429s self + 1 in
  let self' := record_rate_limit self clk in
  _consecutive_429s self' = hits ∧
  (_backoff_until self' - monotonic clk = Zc (backoff_seconds hits))%Qc ∧
  60 <= backoff_seconds hits <= 300 ∧
  backoff_seconds hits <= backoff_seconds (hits + 1) ∧
  (hits <= 3 → backoff_seconds hits = 60 * 2 ^ (hits - 1)) ∧
  (4 <= hits → backoff_seconds hits = 300).
Proof.
  intros Hc hits self'. split; [done|].
  split; [unfold self', record_rate_limit; cbn [_backoff_until]; fold hits; ring|].
  unfold backoff_seconds, API_BACKOFF_BASE, API_BACKOFF_MAX.
  assert (0 < 2 ^ (hits - 1)) as Hp1 by (apply Z.pow_pos_nonneg; lia).
  assert (2 ^ (hits - 1) <= 2 ^ (hits + 1 - 1)) as Hmono
    by (apply Z.pow_le_mono_r; lia).
  split_and!; try lia.
  - intros H3. assert (2 ^ (hits - 1) <= 2 ^ 2) by (apply Z.pow_le_mono_r; lia).
    change (2 ^ 2) with 4 in *. lia.
  - intros H4. assert (2 ^ 3 <= 2 ^ (hits - 1)) by (apply Z.pow_le_mono_r; lia).
    change (2 ^ 3) with 8 in *. lia.
Qed.

Lemma backoff_doubles_then_saturates_witness :
  let self := record_rate_limit new (mkClock 0%Qc []) in
  let hits := _consecutive_429s self + 1 in
  let self' := record_rate_limit self (mkClock (Zc 5) []) in
  _consecutive_429s self' = hits ∧
  (_backoff_until self' - Zc 5 = Zc (backoff_seconds hits))%Qc ∧
  60 <= backoff_seconds hits <= 300 ∧
  backoff_seconds hits <= backoff_seconds (hits + 1) ∧
  (hits <= 3 → backoff_seconds hits = 60 * 2 ^ (hits - 1)) ∧
  (4 <= hits → backoff_seconds hits = 300).
Proof.
  apply (backoff_doubles_then_saturates (record_rate_limit new (mkClock 0%Qc []))
           (mkClock (Zc 5) [])).
  vm_compute. discriminate.
Defined.

End LimiterMore.

(** * Further properties of the requests *)

(* the state a granted [wait_for_slot] leaves *)
Lemma wait_for_slot_state s :
  slot_granted s →
  ∃ l1 c1,
    OlarmRateLimiter.wait_for_slot (limiter s) (clock s) = (true, l1, c1) ∧
    wait_for_slot s = ({| limiter := l1; clock := c1; logged := logged s |}, Ok true) ∧
    OlarmRateLimiter._consecutive_429s l1 = OlarmRateLimiter._consecutive_429s (limiter s).
Proof.
  intros Hg. unfold wait_for_slot, OlarmRateLimiter.wait_for_slot.
  rewrite bool_decide_false by (unfold slot_granted in Hg; lia).
  eexists _, _. by split_and!.
Qed.

(* a request that the limiter denies *)
Lemma request_denied `{LocalTime} req answer s :
  ¬ slot_granted s →
  (perform req answer s).2 = Ok (safe_value req) ∧
  limiter (perform req answer s).1 = limiter s.
Proof.
  intros Hg. pose proof (wait_for_slot_denied s Hg) as Hw.
  destruct req; unfold perform;
    [unfold get_device_json|unfold get_changed_by_json|unfold send_action|
     unfold get_all_devices];
    unfold mbind, St_bind; rewrite Hw; by simpl.
Qed.

(** X4. When the limiter denies the slot (three consecutive 429s),
    each of [get_device_json], [get_changed_by_json], [send_action] and
    [get_all_devices] returns its fallback value (the error dict, the
    default record, [False], the empty list) whatever the session
    would have answered, and leaves the limiter and the clock as they
    were: nothing is slept and nothing is recorded. *)
Theorem denied_request_changes_nothing `{LocalTime} req answer s :
  ¬ slot_granted s →
  (perform req answer s).2 = Ok (safe_value req) ∧
  limiter (perform req answer s).1 = limiter s ∧
  clock (perform req answer s).1 = clock s.
Proof.
  intros Hg. pose proof (wait_for_slot_denied s Hg) as Hw.
  destruct req; unfold perform;
    [unfold get_device_json|unfold get_changed_by_json|unfold send_action|
     unfold get_all_devices];
    unfold mbind, St_bind; rewrite Hw; by simpl.
Qed.

Lemma denied_request_changes_nothing_witness :
  let s := {| limiter := three_hits; clock := mkClock (Zc 10) []; logged := [] |} in
  (perform (H:=epoch_time) (SendAction arm_area_1) (Response response_429_ok) s).2
    = Ok (JBool false) ∧
  limiter (perform (H:=epoch_time) (SendAction arm_area_1) (Response response_429_ok) s).1
    = three_hits ∧
  clock (perform (H:=epoch_time) (SendAction arm_area_1) (Response response_429_ok) s).1
    = mkClock (Zc 10) [].
Proof.
  apply (denied_request_changes_nothing (H:=epoch_time) (SendAction arm_area_1)
           (Response response_429_ok)
           {| limiter := three_hits; clock := mkClock (Zc 10) []; logged := [] |}).
  vm_compute. discriminate.
Defined.

(* a granted request answered by 429 *)
Lemma request_429 `{LocalTime} req r s l1 c1 :
  OlarmRateLimiter.wait_for_slot (limiter s) (clock s) = (true, l1, c1) →
  status r = 429 →
  (perform req (Response r) s).2 = Ok (rate_limited_value req r) ∧
  limiter (perform req (Response r) s).1 = OlarmRateLimiter.record_rate_limit l1 c1 ∧
  clock (perform req (Response r) s).1 = c1.
Proof.
  intros Hw Hs.
  destruct req; unfold perform;
    [unfold get_device_json|unfold get_changed_by_json|unfold send_action|
     unfold get_all_devices];
    unfold mbind, St_bind, wait_for_slot; rewrite Hw; simpl negb; cbv iota;
    rewrite Hs; by simpl.
Qed.



(* the counter after a request answered by 429 *)
Lemma request_429_counter `{LocalTime} req answer s :
  is_429 answer →
  0 <= OlarmRateLimiter._consecutive_429s (limiter s) <= API_MAX_CONSECUTIVE_429 →
  OlarmRateLimiter._consecutive_429s (limiter (perform req answer s).1) =
    Z.min (OlarmRateLimiter._consecutive_429s (limiter s) + 1) API_MAX_CONSECUTIVE_429 ∧
  ∃ v, (perform req answer s).2 = Ok v.
Proof.
  intros (r & -> & Hs) Hc.
  destruct (slot_granted_dec s) as [Hg|Hg].
  - destruct (wait_for_slot_state s Hg) as (l1 & c1 & Hw & _ & Hc1).
    destruct (request_429 req r s l1 c1 Hw Hs) as (Hres & Hlim & _).
    rewrite Hlim. unfold slot_granted in Hg. simpl.
    split; [lia|eauto].
  - destruct (request_denied req (Response r) s Hg) as (Hres & Hl).
    rewrite Hl. unfold slot_granted in Hg. split; [lia|eauto].
Qed.

Lemma perform_all_429 `{LocalTime} calls : ∀ s,
  Forall (λ c, is_429 c.2) calls →
  0 <= OlarmRateLimiter._consecutive_429s (limiter s) <= API_MAX_CONSECUTIVE_429 →
  OlarmRateLimiter._consecutive_429s (limiter (perform_all calls s).1) =
    Z.min (OlarmRateLimiter._consecutive_429s (limiter s) + Z.of_nat (length calls))
          API_MAX_CONSECUTIVE_429 ∧
  ∃ vs, (perform_all calls s).2 = Ok vs.
Proof.
  induction calls as [|[req answer] calls IH]; intros s Hall Hc.
  - simpl. split; [lia|eauto].
  - apply Forall_cons_1 in Hall as [Ha Hall]. simpl in Ha.
    destruct (request_429_counter req answer s Ha Hc) as (Hc1 & v & Hv).
    destruct (perform req answer s) as [s1 res1] eqn:E1. simpl in Hc1, Hv. subst res1.
    assert (0 <= OlarmRateLimiter._consecutive_429s (limiter s1)
              <= API_MAX_CONSECUTIVE_429) as Hc1' by lia.
    destruct (IH s1 Hall Hc1') as (Hc2 & vs & Hvs).
    destruct (perform_all calls s1) as [s2 res2] eqn:E2. simpl in Hc2, Hvs. subst res2.
    assert (perform_all ((req, answer) :: calls) s = (s2, Ok (v :: vs))) as ->.
    { cbn [perform_all]. unfold mbind, St_bind. by rewrite E1, E2. }
    simpl. split; [|by eexists]. rewrite Hc2, Hc1.
    unfold API_MAX_CONSECUTIVE_429 in *. lia.
Qed.

(** X6. The circuit breaker, end to end: when three or more requests
    in a row, of whatever methods, are answered by 429 from a limiter
    whose counter is at 0, none of them raises, the counter ends at 3,
    and a further request returns its fallback value and leaves the
    limiter as it is, whatever the session would answer. *)
Theorem three_429s_open_the_breaker `{LocalTime} calls s :
  OlarmRateLimiter._consecutive_429s (limiter s) = 0 →
  Forall (λ c, is_429 c.2) calls →
  (3 ≤ length calls)%nat →
  let s' := (perform_all calls s).1 in
  (∃ vs, (perform_all calls s).2 = Ok vs) ∧
  OlarmRateLimiter._consecutive_429s (limiter s') = 3 ∧
  ∀ req answer,
    (perform req answer s').2 = Ok (safe_value req) ∧
    limiter (perform req answer s').1 = limiter s'.
Proof.
  intros H0 Hall Hlen s'.
  destruct (perform_all_429 calls s Hall) as (Hc & Hvs).
  { rewrite H0. unfold API_MAX_CONSECUTIVE_429. lia. }
  fold s' in Hc. rewrite H0 in Hc. unfold API_MAX_CONSECUTIVE_429 in Hc.
  assert (OlarmRateLimiter._consecutive_429s (limiter s') = 3) as H3 by lia.
  split; [done|]. split; [done|].
  intros req answer.
  assert (¬ slot_granted s') as Hg
    by (unfold slot_granted, API_MAX_CONSECUTIVE_429; lia).
  exact (request_denied req answer s' Hg).
Qed.

Lemma three_429s_open_the_breaker_witness :
  let calls := [(GetDeviceJson, Response response_429_ok);
                (GetChangedByJson (JInt 1), Response response_429_ok);
                (SendAction arm_area_1, Response response_429_ok)] in
  let s' := (perform_all (H:=epoch_time) calls fresh_state).1 in
  (∃ vs, (perform_all (H:=epoch_time) calls fresh_state).2 = Ok vs) ∧
  OlarmRateLimiter._consecutive_429s (limiter s') = 3 ∧
  ∀ req answer,
    (perform (H:=epoch_time) req answer s').2 = Ok (safe_value req) ∧
    limiter (perform (H:=epoch_time) req answer s').1 = limiter s'.
Proof.
  apply (three_429s_open_the_breaker (H:=epoch_time)
           [(GetDeviceJson, Response response_429_ok);
            (GetChangedByJson (JInt 1), Response response_429_ok);
            (SendAction arm_area_1, Response response_429_ok)] fresh_state).
  - reflexivity.
  - repeat constructor; by exists response_429_ok.
  - simpl. lia.
Defined.

(* the counter of the limiter after a call *)
Lemma get_device_json_parsed resp r s :
  slot_granted s → status r ≠ 429 → json_body r = Parsed resp →
  match resp with
  | JObj kvs =>
      (get_device_json (Response r) s).2 = Ok (JObj (assoc_set "error" JNull kvs)) ∧
      OlarmRateLimiter._consecutive_429s (limiter (get_device_json (Response r) s).1) = 0
  | _ =>
      (get_device_json (Response r) s).2 = Raise TypeError ∧
      OlarmRateLimiter._consecutive_429s (limiter (get_device_json (Response r) s).1) =
      OlarmRateLimiter._consecutive_429s (limiter s)
  end.
Proof.
  intros Hg Hs Hj. destruct (wait_for_slot_state s Hg) as (l1 & c1 & _ & Hw & Hc).
  unfold get_device_json, mbind, St_bind. rewrite Hw. simpl negb. cbv iota.
  rewrite (proj2 (Z.eqb_neq _ _) Hs), Hj.
  unfold mbind, St_bind, mret, St_ret, lift, record_success.
  by destruct resp.
Qed.

Lemma get_all_devices_parsed resp r s :
  slot_granted s → status r ≠ 429 → json_body r = Parsed resp →
  (get_all_devices (Response r) s).2 = getitem resp "data" ∧
  OlarmRateLimiter._consecutive_429s (limiter (get_all_devices (Response r) s).1) =
  match getitem resp "data" with
  | Ok _ => 0
  | Raise _ => OlarmRateLimiter._consecutive_429s (limiter s)
  end.
Proof.
  intros Hg Hs Hj. destruct (wait_for_slot_state s Hg) as (l1 & c1 & _ & Hw & Hc).
  unfold get_all_devices, mbind, St_bind. rewrite Hw. simpl negb. cbv iota.
  rewrite (proj2 (Z.eqb_neq _ _) Hs), Hj.
  unfold mbind, St_bind, mret, St_ret, lift, record_success.
  by destruct (getitem resp "data").
Qed.

Lemma send_action_parsed_counter post_data resp r s :
  slot_granted s → status r ≠ 429 → json_body r = Parsed resp →
  OlarmRateLimiter._consecutive_429s (limiter (send_action post_data (Response r) s).1) = 0.
Proof.
  intros Hg Hs Hj. destruct (wait_for_slot_state s Hg) as (l1 & c1 & _ & Hw & Hc).
  unfold send_action, mbind, St_bind. rewrite Hw. simpl negb. cbv iota.
  rewrite (proj2 (Z.eqb_neq _ _) Hs), Hj.
  unfold mbind, St_bind, mret, St_ret, lift, record_success, log.
  cbn [negb].
  destruct (getitem resp "actionStatus") as [v|]; [|done].
  destruct (String.eqb (lower (py_str v)) "ok"); cbn [negb]; [done|].
  destruct (getitem resp "actionCmd"); [|done].
  destruct (getitem resp "deviceName"); [|done].
  by destruct (getitem resp "actionMsg").
Qed.

Lemma changed_by_parsed_counter `{LocalTime} area resp r s :
  slot_granted s → status r ≠ 404 → status r ≠ 429 → json_body r = Parsed resp →
  OlarmRateLimiter._consecutive_429s
    (limiter (get_changed_by_json area (Response r) s).1) = 0.
Proof.
  intros Hg H404 Hs Hj. destruct (wait_for_slot_state s Hg) as (l1 & c1 & _ & Hw & Hc).
  unfold get_changed_by_json, mbind, St_bind. rewrite Hw. simpl negb. cbv iota.
  rewrite (proj2 (Z.eqb_neq _ _) H404), (proj2 (Z.eqb_neq _ _) Hs), Hj.
  unfold mbind, St_bind, mret, St_ret, lift, record_success. cbn [negb].
  destruct (py_iter resp) as [changes|]; [|done].
  by destruct (latest_change default_return_data changes area).
Qed.

(** X7. A body that parses as JSON, on a granted response that is not
    a 429 (nor a 404 for the action list), resets the counter of
    consecutive 429s: always in [send_action] and
    [get_changed_by_json], which call [record_success] before they look
    into the body, even when they go on to raise; in [get_device_json]
    only when the body is an object, and in [get_all_devices] only
    when it has a ["data"] entry: otherwise these two raise and leave
    the counter as it was. *)
Theorem parsed_body_resets_counter `{LocalTime} post_data area resp r s :
  slot_granted s →
  status r ≠ 429 →
  json_body r = Parsed resp →
  let counter m := OlarmRateLimiter._consecutive_429s (limiter m) in
  counter (send_action post_data (Response r) s).1 = 0 ∧
  (status r ≠ 404 → counter (get_changed_by_json area (Response r) s).1 = 0) ∧
  (is_dict resp = true → counter (get_device_json (Response r) s).1 = 0) ∧
  (is_dict resp = false →
   counter (get_device_json (Response r) s).1 = counter s ∧
   (get_device_json (Response r) s).2 = Raise TypeError) ∧
  (∀ data, getitem resp "data" = Ok data →
           counter (get_all_devices (Response r) s).1 = 0 ∧
           (get_all_devices (Response r) s).2 = Ok data) ∧
  (∀ e, getitem resp "data" = Raise e →
        counter (get_all_devices (Response r) s).1 = counter s ∧
        (get_all_devices (Response r) s).2 = Raise e).
Proof.
  intros Hg Hs Hj counter. unfold counter.
  pose proof (get_device_json_parsed resp r s Hg Hs Hj) as Hd.
  destruct (get_all_devices_parsed resp r s Hg Hs Hj) as [Ha Hac].
  split_and!.
  - by eapply send_action_parsed_counter.
  - intros H404. by eapply changed_by_parsed_counter.
  - intros Hdict. destruct resp; try done. by destruct Hd.
  - intros Hdict. destruct resp; try done; by destruct Hd.
  - intros data Hdata. rewrite Hdata in Ha, Hac. by split.
  - intros e He. rewrite He in Ha, Hac. by split.
Qed.

Lemma parsed_body_resets_counter_witness :
  let s := {| limiter := OlarmRateLimiter.record_rate_limit OlarmRateLimiter.new
                           (mkClock 0%Qc []);
              clock := mkClock (Zc 100) []; logged := [] |} in
  let counter m := OlarmRateLimiter._consecutive_429s (limiter m) in
  counter (send_action arm_area_1 (Response response_failed_bare) s).1 = 0 ∧
  (send_action arm_area_1 (Response response_failed_bare) s).2 = Raise KeyError ∧
  counter (get_all_devices (Response response_failed_bare) s).1 = 1.
Proof.
  destruct (parsed_body_resets_counter (H:=epoch_time) arm_area_1 (JInt 1)
              (JObj [("actionStatus", JStr "fail")]) response_failed_bare
              {| limiter := OlarmRateLimiter.record_rate_limit OlarmRateLimiter.new
                              (mkClock 0%Qc []);
                 clock := mkClock (Zc 100) []; logged := [] |})
    as (Hsend & _ & _ & _ & _ & Hall); [reflexivity|discriminate|reflexivity|].
  split; [exact Hsend|]. split; [reflexivity|].
  by destruct (Hall KeyError eq_refl) as [-> _].
Defined.

(* what [get_device_json] returns: a dict with an ["error"] entry *)
Lemma get_device_json_shape answer s :
  match (get_device_json answer s).2 with
  | Ok res =>
      ∃ kvs err, res = JObj kvs ∧ assoc "error" kvs = Some err ∧
                 (err = JNull ↔ object_received answer s)
  | Raise e => True
  end.
Proof.
  destruct (slot_granted_dec s) as [Hg|Hg].
  2:{ unfold get_device_json, mbind, St_bind.
      rewrite (wait_for_slot_denied s Hg). simpl.
      eexists _, _. split; [done|]. split; [done|].
      split; [done|]. by intros [? _]. }
  destruct (wait_for_slot_state s Hg) as (l1 & c1 & _ & Hw & Hc).
  destruct answer as [e|r].
  { unfold get_device_json, mbind, St_bind. rewrite Hw. simpl negb. cbv iota.
    destruct (connector_error e); [|done]. simpl.
    eexists _, _. split; [done|]. split; [done|].
    split; [by destruct e|]. by intros (_ & r & kvs & [=] & _). }
  destruct (decide (status r = 429)) as [Hs|Hs].
  { unfold get_device_json, mbind, St_bind. rewrite Hw. simpl negb. cbv iota.
    rewrite Hs. simpl.
    eexists _, _. split; [done|]. split; [done|].
    split; [done|]. by intros (_ & r' & kvs & [= <-] & Hne & _). }
  destruct (json_body r) as [resp| |] eqn:Hj.
  - pose proof (get_device_json_parsed resp r s Hg Hs Hj) as Hd.
    destruct resp as [| | | | |kvs]; try (by destruct Hd as [-> _]).
    destruct Hd as [-> _].
    exists (assoc_set "error" JNull kvs), JNull.
    split; [done|]. split; [apply assoc_assoc_set|].
    split; [|done]. intros _. split; [done|]. by exists r, kvs.
  - unfold get_device_json, mbind, St_bind. rewrite Hw. simpl negb. cbv iota.
    rewrite (proj2 (Z.eqb_neq _ _) Hs), Hj.
    unfold mbind, St_bind, mret, St_ret, record_rate_limit, log.
    destruct (contains "forbidden" _); [|destruct (status r =? 502);
      [|destruct (contains "too many requests" _)]]; simpl;
      (eexists _, _; split; [done|]; split; [done|];
       split; [done|]; intros (_ & r' & kvs & [= <-] & _ & Hp); congruence).
  - unfold get_device_json, mbind, St_bind. rewrite Hw. simpl negb. cbv iota.
    by rewrite (proj2 (Z.eqb_neq _ _) Hs), Hj.
Qed.

(** X8. Every dict that [get_device_json] returns has an ["error"]
    entry, and the entry is [None] exactly when the slot was granted,
    the status was not 429 and the body parsed as a JSON object; an
    ["error"] entry of the body itself is overwritten by [None]. *)
Theorem device_json_error_entry answer s res :
  (get_device_json answer s).2 = Ok res →
  ∃ err, getitem res "error" = Ok err ∧ (err = JNull ↔ object_received answer s).
Proof.
  intros Hres. pose proof (get_device_json_shape answer s) as Hshape.
  rewrite Hres in Hshape. destruct Hshape as (kvs & err & -> & Herr & Hiff).
  exists err. simpl. by rewrite Herr.
Qed.

Lemma device_json_error_entry_witness :
  ∃ err,
    getitem (JObj [("error", JNull)]) "error" = Ok err ∧
    (err = JNull ↔ object_received (Response response_error_body) fresh_state).
Proof.
  apply (device_json_error_entry (Response response_error_body) fresh_state
           (JObj [("error", JNull)])).
  reflexivity.
Defined.

Lemma object_received_returns answer s :
  object_received answer s → ∃ res, (get_device_json answer s).2 = Ok res.
Proof.
  intros (Hg & r & kvs & -> & Hs & Hj).
  destruct (get_device_json_parsed (JObj kvs) r s Hg Hs Hj) as [Hres _]. eauto.
Qed.

(** X9. Whenever [check_credentials] returns, its dict has an
    ["auth_success"] entry, and the entry is [True] exactly when the
    slot was granted, the status was not 429 and the body parsed as a
    JSON object, whatever the object holds; it never lets a
    [KeyError], an [IndexError] or an [APIClientConnectorError] out. *)
Theorem check_credentials_verdict answer s :
  (∀ res, (check_credentials answer s).2 = Ok res →
     ∃ b, getitem res "auth_success" = Ok (JBool b) ∧
          (b = true ↔ object_received answer s)) ∧
  (∀ e, (check_credentials answer s).2 = Raise e → credentials_error e = false).
Proof.
  unfold check_credentials, st_try_as, mbind, St_bind.
  pose proof (get_device_json_shape answer s) as Hshape.
  destruct (get_device_json answer s) as [s1 [resj|e]] eqn:E; simpl in Hshape.
  - destruct Hshape as (kvs & err & -> & Herr & Hiff).
    unfold lift. simpl. rewrite Herr.
    split.
    + intros res Hres.
      destruct err; simpl in Hres; injection Hres as <-; simpl;
        rewrite assoc_assoc_set; eexists; (split; [reflexivity|]);
        rewrite <- Hiff; split; done.
    + intros e. by destruct err.
  - destruct (credentials_error e) eqn:Hc; simpl.
    + split; [|done]. intros res [= <-]. exists false. split; [done|].
      split; [done|]. intros Hobj.
      destruct (object_received_returns answer s Hobj) as [res Hres].
      rewrite E in Hres. done.
    + split; [done|]. by intros e' [= <-].
Qed.

(* the verdict on a JSON body that reports an error of its own *)
Example check_credentials_error_body :
  (check_credentials (Response response_error_body) fresh_state).2 =
  Ok (JObj [("error", JNull); ("auth_success", JBool true)]).
Proof. reflexivity. Qed.

(* [send_action] on a body that is not JSON, for a [post_data] with an
   [actionNum] *)
Lemma send_action_text_body post_data num r s :
  getitem post_data "actionNum" = Ok num →
  json_body r = NotJson →
  (send_action post_data (Response r) s).2 = Ok false ∧
  (rate_limit_recorded s (send_action post_data (Response r) s).1 ↔
   slot_granted s ∧
   (status r = 429 ∨ contains "too many requests" (lower (text r)) = true)).
Proof.
  intros Hnum Hj.
  destruct (slot_granted_dec s) as [Hg|Hg].
  2:{ unfold send_action, mbind, St_bind. rewrite (wait_for_slot_denied s Hg). simpl.
      split; [done|]. unfold rate_limit_recorded. simpl. split; [lia|by intros [? _]]. }
  destruct (wait_for_slot_state s Hg) as (l1 & c1 & _ & Hw & Hc).
  unfold send_action, mbind, St_bind, rate_limit_recorded. rewrite Hw. cbn [negb].
  destruct (Z.eqb_spec (status r) 429) as [Hs|Hs].
  { simpl. split; [done|]. rewrite Hc. split; [auto|lia]. }
  rewrite Hj. unfold mret, St_ret, lift, record_rate_limit, log. rewrite Hnum.
  destruct (contains "too many requests" (lower (text r))); simpl; rewrite Hc.
  - split; [done|]. split; [auto|lia].
  - split; [done|]. split; [lia|]. by intros (_ & [?|?]).
Qed.

(** X10. The commands on an area ([arm_area], [sleep_area],
    [stay_area], [disarm_area]) and [bypass_zone] on the data of a
    [BypassZone] always post an [actionNum]: on a response whose body
    is not JSON they return [False] and raise nothing, and they apply
    [record_rate_limit] exactly when the slot was granted and the
    status is 429 or the text has "too many requests" in any case. *)
Theorem commands_survive_text_bodies r s x :
  json_body r = NotJson →
  Forall (λ command : json → reply → Api bool,
            (command x (Response r) s).2 = Ok false ∧
            (rate_limit_recorded s (command x (Response r) s).1 ↔
             slot_granted s ∧
             (status r = 429 ∨ contains "too many requests" (lower (text r)) = true)))
         (area_commands ++ [λ zone, bypass_zone (BypassZone_data zone)]).
Proof.
  intros Hj. unfold area_commands. cbn [app].
  repeat (apply List.Forall_cons;
          [cbv beta; apply (send_action_text_body _ x); [reflexivity|exact Hj]|]).
  apply List.Forall_nil.
Qed.

Lemma commands_survive_text_bodies_witness :
  Forall (λ command : json → reply → Api bool,
            (command (JInt 1) (Response response_too_many_lower) fresh_state).2 = Ok false ∧
            (rate_limit_recorded fresh_state
               (command (JInt 1) (Response response_too_many_lower) fresh_state).1 ↔
             slot_granted fresh_state ∧
             (status response_too_many_lower = 429 ∨
              contains "too many requests" (lower (text response_too_many_lower)) = true)))
         (area_commands ++ [λ zone, bypass_zone (BypassZone_data zone)]).
Proof.
  apply (commands_survive_text_bodies response_too_many_lower fresh_state (JInt 1)).
  reflexivity.
Defined.

(** X11. Past the limiter and the 429 check, [get_all_devices] of
    [OlarmApi] returns what [get_olarm_devices] of [OlarmSetupApi]
    returns for the same answer of the session: the ["data"] entry of
    a JSON body, the empty list for a text body or an
    [APIClientConnectorError], and the same exception otherwise. *)
Theorem device_listings_agree answer s logs :
  slot_granted s →
  ¬ is_429 answer →
  (get_all_devices answer s).2 = (get_olarm_devices answer logs).2.
Proof.
  intros Hg H429.
  destruct (wait_for_slot_state s Hg) as (l1 & c1 & _ & Hw & Hc).
  unfold get_all_devices, get_olarm_devices, mbind, St_bind. rewrite Hw. cbn [negb].
  destruct answer as [e|r].
  { by destruct (connector_error e). }
  destruct (Z.eqb_spec (status r) 429) as [Hs|Hs].
  { exfalso. apply H429. by exists r. }
  unfold mret, St_ret, lift, record_rate_limit, record_success, log.
  destruct (json_body r) as [resp| |]; [| |done].
  - by destruct (getitem resp "data").
  - by destruct (contains "Forbidden" (text r)), (contains "Too Many Requests" (text r)).
Qed.

Lemma device_listings_agree_witness :
  (get_all_devices (Response response_devices) fresh_state).2 =
  (get_olarm_devices (Response response_devices) []).2.
Proof.
  apply (device_listings_agree (Response response_devices) fresh_state []).
  - reflexivity.
  - intros (r & [= <-] & Hs). discriminate.
Defined.

Lemma getitem_error x k e : getitem x k = Raise e → connector_error e = false.
Proof.
  destruct x as [| | | | |kvs]; simpl; try by intros [= <-].
  destruct (assoc k kvs); [done|by intros [= <-]].
Qed.

(* [send_action] handles [APIClientConnectorError] itself *)
Lemma send_action_no_connector_error post_data answer s e :
  (send_action post_data answer s).2 = Raise e → connector_error e = false.
Proof.
  destruct (slot_granted_dec s) as [Hg|Hg].
  2:{ unfold send_action, mbind, St_bind. by rewrite (wait_for_slot_denied s Hg). }
  destruct (wait_for_slot_state s Hg) as (l1 & c1 & _ & Hw & _).
  unfold send_action, mbind, St_bind. rewrite Hw. cbn [negb].
  destruct answer as [e0|r].
  { destruct (connector_error e0) eqn:E0; [done|]. simpl. by intros [= <-]. }
  destruct (status r =? 429); [done|].
  unfold mret, St_ret, lift, record_success, record_rate_limit, log.
  destruct (json_body r) as [resp| |].
  - destruct (getitem resp "actionStatus") as [v|e1] eqn:E1;
      [|simpl; intros [= <-]; by apply getitem_error in E1].
    destruct (String.eqb (lower (py_str v)) "ok"); cbn [negb]; [done|].
    destruct (getitem resp "actionCmd") as [?|e2] eqn:E2;
      [|simpl; intros [= <-]; by apply getitem_error in E2].
    destruct (getitem resp "deviceName") as [?|e3] eqn:E3;
      [|simpl; intros [= <-]; by apply getitem_error in E3].
    destruct (getitem resp "actionMsg") as [?|e4] eqn:E4;
      [|simpl; intros [= <-]; by apply getitem_error in E4].
    done.
  - destruct (contains "too many requests" (lower (text r)));
      (destruct (getitem post_data "actionNum") as [?|e1] eqn:E1;
        [done|simpl; intros [= <-]; by apply getitem_error in E1]).
  - simpl. by intros [= <-].
Qed.

(** X12. [send_action] never lets an [APIClientConnectorError] out,
    so the handlers of [update_pgm] and [update_ukey] never run: both
    return what [send_action] returns on the same data and leave the
    limiter, the clock and the log as [send_action] leaves them. *)
Theorem update_wrappers_add_nothing data answer s :
  (∀ e, (send_action data answer s).2 = Raise e → connector_error e = false) ∧
  update_pgm data answer s = send_action data answer s ∧
  update_ukey data answer s = send_action data answer s.
Proof.
  split; [intros e; apply send_action_no_connector_error|].
  unfold update_pgm, update_ukey, st_try.
  pose proof (send_action_no_connector_error data answer s) as Hno.
  destruct (send_action data answer s) as [s' [b|e]]; [done|].
  by rewrite (Hno e eq_refl).
Qed.

(** * Further properties of the decoders *)

Section ZoneLists.
Context `{LocalTime}.

Lemma power_record_spec zone key value r :
  power_record zone key value = Ok r →
  ∃ v, py_int value = Ok v ∧
       r = {| Sensor.name :=
                JStr ("Powered by " +:+ (if String.eqb key "Batt" then "Battery" else key));
              Sensor.state := if v =? 1 then "on" else "off";
              Sensor.last_changed := None;
              Sensor.type := JInt (if String.eqb key "Batt" then 1001 else 1000);
              Sensor.zone_number := zone |}.
Proof.
  unfold power_record. rewrite bind_Res.
  destruct (py_int value) as [v|]; [|done].
  destruct (String.eqb key "Batt"); intros [= <-]; by exists v.
Qed.

(* the list of [get_sensor_states]: the zones, then the power sensors
   if the zone loop came to its end *)
Lemma sensor_states_body_spec st prof n :
  (x ← getitem prof "zonesLimit"; as_index x) = Ok n →
  ∃ rs ps,
    (sensor_states_body st prof []).1 = rs ++ ps ∧
    Forall2 (λ i r, sensor_record st prof i = Ok r) (take (length rs) (range n)) rs ∧
    (ps = [] ∨
     length rs = Z.to_nat n ∧ 0 < n ∧
     ∃ power kvs,
       power_source st = Ok power ∧ items power = Ok kvs ∧
       Forall2 (λ kv r, power_record (n + Z.of_nat kv.1) kv.2.1 kv.2.2 = Ok r)
               (take (length ps) (zip (seq 0 (length kvs)) kvs)) ps).
Proof.
  intros Hn. unfold sensor_states_body. rewrite bind_St. unfold lift at 1. rewrite Hn.
  rewrite bind_St.
  destruct (for_append_spec (sensor_record st prof) (range n) []) as (rs & Hd & HF & Hres).
  destruct (for_ (range n) _ []) as [d1 [u|e]]; simpl in Hd, Hres; subst d1.
  2:{ exists rs, []. rewrite app_nil_r. split; [done|]. split; [done|]. by left. }
  assert (length rs = Z.to_nat n) as Hlen
    by (rewrite Hres; unfold range; apply length_seq).
  rewrite bind_St. unfold lift at 1.
  destruct (bool_decide (0 < n)) eqn:Hpos.
  2:{ exists rs, []. rewrite app_nil_r. split; [done|]. split; [done|]. by left. }
  apply bool_decide_eq_true in Hpos.
  rewrite bind_St. unfold lift at 1.
  destruct (dict_get st "power" (JObj [])) as [p0|e0] eqn:Hp0.
  2:{ exists rs, []. rewrite app_nil_r. split; [done|]. split; [done|]. by left. }
  rewrite bind_St. unfold lift at 1.
  match goal with
  | |- context [match ?m with Ok a => _ | Raise e => _ end] =>
      assert (power_source st = m) as Hsrc
        by (unfold power_source; rewrite Hp0; reflexivity);
      destruct m as [power|e1] eqn:Hpower
  end.
  2:{ exists rs, []. rewrite app_nil_r. split; [done|]. split; [done|]. by left. }
  rewrite bind_St. unfold lift at 1.
  destruct (items power) as [kvs|e2] eqn:Hkvs.
  2:{ exists rs, []. rewrite app_nil_r. split; [done|]. split; [done|]. by left. }
  destruct (for_append_spec
              (λ kv : nat * (string * json),
                 power_record (n - 1 + 1 + Z.of_nat kv.1) kv.2.1 kv.2.2)
              (zip (seq 0 (length kvs)) kvs) rs) as (ps & Hd2 & HF2 & _).
  exists rs, ps. split; [exact Hd2|]. split; [done|]. right.
  split; [done|]. split; [done|]. exists power, kvs. split; [done|]. split; [done|].
  eapply Forall2_impl; [exact HF2|]. intros kv r Hr. simpl in Hr.
  by replace (n - 1 + 1 + Z.of_nat kv.1) with (n + Z.of_nat kv.1) in Hr by lia.
Qed.

(* where each record of the list of [get_sensor_states] comes from *)
Lemma sensor_states_origin d l :
  get_sensor_states d = Ok l →
  ∃ st prof,
    getitem d "deviceState" = Ok st ∧ getitem d "deviceProfile" = Ok prof ∧
    ∀ i r, l !! i = Some r →
      ∃ n, zones_limit d = Ok n ∧
        (Z.of_nat i < n ∧ sensor_record st prof i = Ok r ∨
         0 < n ∧ n <= Z.of_nat i ∧
         ∃ power kvs key value,
           power_source st = Ok power ∧ items power = Ok kvs ∧
           kvs !! (i - Z.to_nat n)%nat = Some (key, value) ∧
           power_record (Z.of_nat i) key value = Ok r).
Proof.
  intros Hd. unfold get_sensor_states in Hd. rewrite !bind_Res in Hd.
  destruct (getitem d "deviceState") as [st|] eqn:Hst; [|discriminate].
  destruct (getitem d "deviceProfile") as [prof|] eqn:Hprof; [|discriminate].
  cbn [mbind Res_bind] in Hd.
  exists st, prof. split; [done|]. split; [done|].
  assert (l = (sensor_states_body st prof []).1) as ->.
  { destruct (sensor_states_body st prof []) as [data [u|e]]; simpl.
    - congruence.
    - destruct (key_or_index_error e); [congruence|discriminate]. }
  clear Hd. intros i r Hl.
  destruct (x ← getitem prof "zonesLimit"; as_index x) as [n|e] eqn:Hn.
  2:{ unfold sensor_states_body in Hl. rewrite bind_St in Hl. unfold lift at 1 in Hl.
      rewrite Hn in Hl. done. }
  exists n. split; [unfold zones_limit; by rewrite Hprof|].
  destruct (sensor_states_body_spec st prof n Hn) as (rs & ps & Hb & HF & Hps).
  rewrite Hb in Hl.
  assert (Hlen : (length rs ≤ Z.to_nat n)%nat).
  { apply Forall2_length in HF. rewrite length_take in HF.
    unfold range in HF. rewrite length_seq in HF. lia. }
  destruct (decide (i < length rs)%nat) as [Hlt|Hge].
  - left. rewrite lookup_app_l in Hl by done.
    destruct (Forall2_lookup_r _ _ _ _ _ HF Hl) as (j & Hj & Hf).
    rewrite lookup_take_lt in Hj by done.
    apply range_lookup_inv in Hj as [-> Hi]. by split.
  - right. rewrite lookup_app_r in Hl by lia.
    destruct Hps as [->|(Hfull & Hpos & power & kvs & Hsrc & Hkvs & HF2)]; [done|].
    destruct (Forall2_lookup_r _ _ _ _ _ HF2 Hl) as ([k [key value]] & Hk & Hf).
    apply lookup_take_Some in Hk as [Hk _].
    apply lookup_zip_with_Some in Hk as (k' & kv & [= <- <-] & Hseq & Hkv).
    apply lookup_seq in Hseq as [-> _]. simpl in Hf, Hkv.
    split; [done|]. split; [lia|].
    exists power, kvs, key, value. rewrite <- Hfull. split_and!; try done.
    by replace (Z.of_nat i) with (n + Z.of_nat (i - length rs)%nat) by lia.
Qed.

Lemma bypass_states_origin d l i r :
  get_sensor_bypass_states d = Ok l →
  l !! i = Some r →
  ∃ st prof n,
    getitem d "deviceState" = Ok st ∧ getitem d "deviceProfile" = Ok prof ∧
    zones_limit d = Ok n ∧ Z.of_nat i < n ∧ bypass_record st prof i = Ok r.
Proof.
  intros Hd Hl. unfold get_sensor_bypass_states in Hd. rewrite !bind_Res in Hd.
  destruct (getitem d "deviceState") as [st|] eqn:Hst; [|discriminate].
  destruct (getitem d "deviceProfile") as [prof|] eqn:Hprof; [|discriminate].
  cbn [mbind Res_bind] in Hd.
  assert (l = (bypass_states_body st prof []).1) as ->.
  { destruct (bypass_states_body st prof []) as [data [u|e]]; simpl.
    - congruence.
    - destruct (key_or_index_error e); [congruence|discriminate]. }
  clear Hd.
  destruct (x ← getitem prof "zonesLimit"; as_index x) as [n|e] eqn:Hn.
  2:{ unfold bypass_states_body in Hl. rewrite bind_St in Hl. unfold lift at 1 in Hl.
      rewrite Hn in Hl. done. }
  exists st, prof, n. split; [done|]. split; [done|].
  split; [unfold zones_limit; by rewrite Hprof|].
  destruct (bypass_states_body_zones st prof n Hn) as (rs & Hb & HF).
  rewrite Hb in Hl.
  destruct (Forall2_lookup_r _ _ _ _ _ HF Hl) as (j & Hj & Hf).
  apply lookup_take_Some in Hj as [Hj _].
  apply range_lookup_inv in Hj as [-> Hi]. by split.
Qed.

(* the name of a zone is worked out from the labels alone *)
Lemma sensor_record_name st prof i r :
  sensor_record st prof i = Ok r →
  ∃ labels, dict_get prof "zonesLabels" (JArr []) = Ok labels ∧
            zone_name labels i = Ok (Sensor.name r).
Proof.
  unfold sensor_record. rewrite !bind_Res. intros Hr.
  destruct (zone_state st i "a") as [s|]; [|discriminate].
  rewrite bind_Res in Hr.
  destruct (zone_last_changed st i 0) as [lc|]; [|discriminate].
  rewrite bind_Res in Hr.
  destruct (dict_get prof "zonesLabels" (JArr [])) as [labels|] eqn:Hlab; [|discriminate].
  rewrite bind_Res in Hr.
  destruct (dict_get prof "zonesTypes" (JArr [])) as [types|]; [|discriminate].
  rewrite bind_Res in Hr.
  destruct (zone_name labels i) as [nm|] eqn:Hnm; [|discriminate].
  rewrite bind_Res in Hr.
  destruct (py_len types) as [nt|]; [|discriminate].
  rewrite bind_Res in Hr.
  destruct (if bool_decide (i < nt)%nat then getindex types i else Ok (JInt 0));
    [|discriminate].
  injection Hr as <-. by exists labels.
Qed.

Lemma bypass_record_name st prof i r :
  bypass_record st prof i = Ok r →
  ∃ labels, dict_get prof "zonesLabels" (JArr []) = Ok labels ∧
            zone_name labels i = Ok (Bypass.name r).
Proof.
  unfold bypass_record. rewrite !bind_Res. intros Hr.
  destruct (zone_state st i "b") as [s|]; [|discriminate].
  rewrite bind_Res in Hr.
  destruct (zone_last_changed st i 2) as [lc|]; [|discriminate].
  rewrite bind_Res in Hr.
  destruct (dict_get prof "zonesLabels" (JArr [])) as [labels|] eqn:Hlab; [|discriminate].
  rewrite bind_Res in Hr.
  destruct (zone_name labels i) as [nm|] eqn:Hnm; [|discriminate].
  injection Hr as <-. by exists labels.
Qed.

(* a status character is not both the code of an active zone and the
   code of a bypassed one *)
Lemma zone_state_one_code st i :
  ¬ (zone_state st i "a" = Ok "on" ∧ zone_state st i "b" = Ok "on").
Proof.
  unfold zone_state. rewrite ?bind_Res.
  destruct (dict_get st "zones" (JArr [])) as [zones|]; [|by intros [? _]].
  rewrite ?bind_Res.
  destruct (py_len zones) as [n|]; [|by intros [? _]].
  destruct (bool_decide (i < n)%nat); [|by intros [? _]].
  rewrite ?bind_Res.
  destruct (getitem st "zones") as [zs|]; [|by intros [? _]].
  rewrite ?bind_Res.
  destruct (getindex zs i) as [z|]; [|by intros [? _]].
  destruct (String.eqb_spec (lower (py_str z)) "a") as [Ea|]; [|by intros [? _]].
  rewrite Ea. by intros [_ ?].
Qed.

End ZoneLists.

(** X14. In the list [get_sensor_states] returns, the record at
    position [i] has [zone_number] [i], the power sensors after the
    zones included; the same holds of the list of
    [get_sensor_bypass_states]. *)
Theorem zone_numbers_are_positions `{LocalTime} d :
  (∀ l i r, get_sensor_states d = Ok l → l !! i = Some r →
            Sensor.zone_number r = Z.of_nat i) ∧
  (∀ l i r, get_sensor_bypass_states d = Ok l → l !! i = Some r →
            Bypass.zone_number r = Z.of_nat i).
Proof.
  split; intros l i r Hd Hl.
  - destruct (sensor_states_origin d l Hd) as (st & prof & _ & _ & Hall).
    destruct (Hall i r Hl) as (n & _ & [[_ Hr]|(_ & _ & power & kvs & key & value & _ & _ & _ & Hr)]).
    + by apply sensor_record_state in Hr as [_ ?].
    + apply power_record_spec in Hr as (v & _ & ->). done.
  - destruct (bypass_states_origin d l i r Hd Hl) as (st & prof & n & _ & _ & _ & _ & Hr).
    by apply bypass_record_state in Hr as [_ ?].
Qed.

(** X15. A record at a position [i] from [zonesLimit] on in the list
    of [get_sensor_states] is a power sensor: that of the entry at
    index [i - zonesLimit] of the [power] map of the device state (of
    the map made of [powerAC] and [powerBattery] when [power] is empty
    or absent), named ["Powered by "] and the key, ["Battery"] for the
    key ["Batt"], of type 1001 for ["Batt"] and 1000 otherwise, ["on"]
    exactly when [int] of the value is 1, and without a time of
    change. *)
Theorem power_sensors_follow_zones `{LocalTime} d l n i r :
  get_sensor_states d = Ok l →
  zones_limit d = Ok n →
  n <= Z.of_nat i →
  l !! i = Some r →
  ∃ st power kvs key value v,
    getitem d "deviceState" = Ok st ∧
    power_source st = Ok power ∧ items power = Ok kvs ∧
    kvs !! (i - Z.to_nat n)%nat = Some (key, value) ∧
    py_int value = Ok v ∧
    r = power_sensor i key v.
Proof.
  intros Hd Hn Hi Hl.
  destruct (sensor_states_origin d l Hd) as (st & prof & Hst & _ & Hall).
  destruct (Hall i r Hl) as (n' & Hn' & Hcases).
  assert (n' = n) as -> by congruence.
  destruct Hcases as [[Hlt _]|(_ & _ & power & kvs & key & value & Hsrc & Hkvs & Hk & Hr)];
    [lia|].
  apply power_record_spec in Hr as (v & Hv & ->).
  by exists st, power, kvs, key, value, v.
Qed.

Lemma power_sensors_follow_zones_witness :
  ∃ st power kvs key value v,
    getitem device_legacy_power "deviceState" = Ok st ∧
    power_source st = Ok power ∧ items power = Ok kvs ∧
    kvs !! (3 - Z.to_nat 2)%nat = Some (key, value) ∧
    py_int value = Ok v ∧
    {| Sensor.name := JStr "Powered by Battery"; Sensor.state := "off";
       Sensor.last_changed := None; Sensor.type := JInt 1001;
       Sensor.zone_number := 3 |} = power_sensor 3 key v.
Proof.
  eapply (power_sensors_follow_zones (H:=epoch_time) device_legacy_power _ 2 3);
    [reflexivity|reflexivity|lia|reflexivity].
Defined.

(** X16. A zone has the same name and the same number in the list of
    [get_sensor_states] and in the list of [get_sensor_bypass_states],
    and it is never ["on"] in both: a zone reported active is not
    reported bypassed. *)
Theorem zone_lists_agree `{LocalTime} d l1 l2 n i r1 r2 :
  get_sensor_states d = Ok l1 →
  get_sensor_bypass_states d = Ok l2 →
  zones_limit d = Ok n →
  Z.of_nat i < n →
  l1 !! i = Some r1 →
  l2 !! i = Some r2 →
  Sensor.name r1 = Bypass.name r2 ∧
  Sensor.zone_number r1 = Bypass.zone_number r2 ∧
  ¬ (Sensor.state r1 = "on" ∧ Bypass.state r2 = "on").
Proof.
  intros Hd1 Hd2 Hn Hi Hl1 Hl2.
  destruct (sensor_states_lookup d l1 n i r1 Hd1 Hn Hi Hl1) as (st & prof & Hst & Hprof & Hr1).
  destruct (bypass_states_lookup d l2 n i r2 Hd2 Hn Hi Hl2) as (st' & prof' & Hst' & Hprof' & Hr2).
  assert (st' = st) as -> by congruence. assert (prof' = prof) as -> by congruence.
  destruct (sensor_record_name st prof i r1 Hr1) as (labels & Hlab & Hn1).
  destruct (bypass_record_name st prof i r2 Hr2) as (labels' & Hlab' & Hn2).
  assert (labels' = labels) as -> by congruence.
  destruct (sensor_record_state st prof i r1 Hr1) as [Hs1 Hz1].
  destruct (bypass_record_state st prof i r2 Hr2) as [Hs2 Hz2].
  split; [congruence|]. split; [congruence|].
  intros [Ha Hb]. apply (zone_state_one_code st i). rewrite Hs1, Hs2, Ha, Hb. done.
Qed.

Lemma zone_lists_agree_witness :
  ∃ r1 r2,
    Sensor.state r1 = "on" ∧
    Sensor.name r1 = Bypass.name r2 ∧
    Sensor.zone_number r1 = Bypass.zone_number r2 ∧
    ¬ (Sensor.state r1 = "on" ∧ Bypass.state r2 = "on").
Proof.
  eexists _, _. split; [|
    eapply (zone_lists_agree (H:=epoch_time) device_Aab _ _ 3 1);
      [reflexivity|reflexivity|reflexivity|lia|reflexivity|reflexivity]].
  reflexivity.
Defined.

(* the name of an area, as the loop of [get_panel_states] works it out *)
Lemma panel_name_label labels j nm :
  (if is_list labels then
     n ← py_len labels;
     if bool_decide (j < n)%nat then
       l ← getindex labels j;
       if negb (eq_str l "") then Ok l
       else Ok (JStr ("Area " +:+ pretty (Z.of_nat j + 1)))
     else Ok (JStr ("Area " +:+ pretty (Z.of_nat j + 1)))
   else Ok (JStr ("Area " +:+ pretty (Z.of_nat j + 1)))) = Ok nm →
  py_str nm = areas_label labels j.
Proof.
  unfold areas_label.
  destruct labels as [| | | |ls|]; cbn [is_list]; try by intros [= <-].
  cbn [py_len getindex]. rewrite bind_Res, lookup_nth_error.
  case_bool_decide as Hj.
  - rewrite bind_Res. destruct (nth_error ls j) as [l|] eqn:Hl; [|done].
    destruct (eq_str l ""); cbn [negb]; by intros [= <-].
  - assert (nth_error ls j = None) as -> by (apply nth_error_None; lia).
    by intros [= <-].
Qed.

Lemma panel_record_spec st labels j r :
  panel_record st labels j = Ok (Some r) →
  Panel.area_number r = Z.of_nat j + 1 ∧
  Panel.name r = areas_label labels j ∧
  ∃ areas, getitem st "areas" = Ok areas ∧ getindex areas j = Ok (Panel.state r).
Proof.
  unfold panel_record. rewrite bind_Res.
  match goal with
  | |- match ?m with _ => _ end = _ → _ => destruct m as [nm|] eqn:Hnm; [|done]
  end.
  apply panel_name_label in Hnm.
  rewrite bind_Res. destruct (dict_get st "areas" (JArr [])) as [areas0|]; [|done].
  rewrite bind_Res. destruct (py_len areas0) as [n|]; [|done].
  case_bool_decide; [|done].
  rewrite bind_Res. destruct (getitem st "areas") as [areas|] eqn:Ha; [|done].
  rewrite bind_Res. destruct (getindex areas j) as [x|] eqn:Hx; [|done].
  intros [= <-]. simpl. split; [done|]. split; [done|]. by exists areas.
Qed.

(* the loop of [get_panel_states] over the areas from [a] on *)
Lemma panel_loop st labels m : ∀ a data,
  ∃ rs,
    (for_ (seq a m) (λ area_num,
       st_try
         (r ← lift (panel_record st labels area_num);
          match r with Some r => append r | None => mret tt end)
         key_error
         (mret tt)) data).1 = data ++ rs ∧
    Forall (λ r, ∃ j, (a ≤ j < a + m)%nat ∧ panel_record st labels j = Ok (Some r)) rs ∧
    (∀ i1 i2 r1 r2, (i1 < i2)%nat → rs !! i1 = Some r1 → rs !! i2 = Some r2 →
                     Panel.area_number r1 < Panel.area_number r2).
Proof.
  induction m as [|m IH]; intros a data.
  - exists []. simpl. rewrite app_nil_r. split; [done|]. split; [constructor|done].
  - cbn [seq]. rewrite for_cons. unfold st_try at 1. rewrite bind_St. unfold lift at 1.
    assert (Hskip : ∃ rs,
      (for_ (seq (S a) m) (λ area_num,
         st_try
           (r ← lift (panel_record st labels area_num);
            match r with Some r => append r | None => mret tt end)
           key_error
           (mret tt)) data).1 = data ++ rs ∧
      Forall (λ r, ∃ j, (a ≤ j < a + S m)%nat ∧ panel_record st labels j = Ok (Some r)) rs ∧
      (∀ i1 i2 r1 r2, (i1 < i2)%nat → rs !! i1 = Some r1 → rs !! i2 = Some r2 →
                     Panel.area_number r1 < Panel.area_number r2)).
    { destruct (IH (S a) data) as (rs & Hd & HF & Hs). exists rs.
      split; [done|]. split; [|done].
      eapply Forall_impl; [exact HF|]. intros r (j & Hj & Hr). exists j. split; [lia|done]. }
    destruct (panel_record st labels a) as [[r|]|e] eqn:Hr.
    + unfold append at 1.
      destruct (IH (S a) (data ++ [r])) as (rs & Hd & HF & Hs).
      exists (r :: rs). split; [by rewrite Hd, <- app_assoc|]. split.
      * constructor; [exists a; split; [lia|done]|].
        eapply Forall_impl; [exact HF|]. intros r' (j & Hj & Hr'). exists j.
        split; [lia|done].
      * intros [|i1] [|i2] r1 r2 Hlt H1 H2; try lia; simpl in H1, H2.
        -- injection H1 as <-.
           apply list_elem_of_lookup_2 in H2.
           destruct (proj1 (Forall_forall _ _) HF r2 H2) as (j & Hj & Hr2).
           apply panel_record_spec in Hr as (-> & _).
           apply panel_record_spec in Hr2 as (-> & _). lia.
        -- apply (Hs i1 i2); [lia|done|done].
    + exact Hskip.
    + destruct (key_error e); [exact Hskip|].
      exists []. simpl. rewrite app_nil_r. split; [done|]. split; [constructor|done].
Qed.

(** X17. Every record of the list [get_panel_states] returns is for
    an area that has an entry in the [areas] status array, and the
    records come in the order of the areas: the numbers go up
    strictly, the state of area [k] is the entry at index [k - 1] of
    the array as it is, and its name is its label, or ["Area k"] when
    the labels are no list, are too few or have the empty string
    there. *)
Theorem panel_states_follow_areas d l :
  get_panel_states d = Ok l →
  ∃ st prof labels,
    getitem d "deviceState" = Ok st ∧
    getitem d "deviceProfile" = Ok prof ∧
    dict_get prof "areasLabels" (JArr []) = Ok labels ∧
    (∀ i1 i2 r1 r2, (i1 < i2)%nat → l !! i1 = Some r1 → l !! i2 = Some r2 →
                     Panel.area_number r1 < Panel.area_number r2) ∧
    Forall (λ r, ∃ j,
              Panel.area_number r = Z.of_nat j + 1 ∧
              Panel.name r = areas_label labels j ∧
              ∃ areas, getitem st "areas" = Ok areas ∧
                       getindex areas j = Ok (Panel.state r)) l.
Proof.
  unfold get_panel_states. rewrite bind_Res.
  destruct (getitem d "deviceState") as [st|] eqn:Hst; [|done].
  rewrite bind_Res. destruct (getitem d "deviceProfile") as [prof|] eqn:Hprof; [|done].
  rewrite bind_Res.
  destruct (dict_get prof "areasLabels" (JArr [])) as [labels|] eqn:Hlab; [|done].
  rewrite bind_Res. destruct (py_len labels) as [n|]; [|done].
  rewrite bind_Res.
  destruct (dict_get prof "areasLimit" (JInt (Z.of_nat n))) as [count0|]; [|done].
  rewrite bind_Res. destruct (as_index count0) as [count|]; [|done].
  unfold range.
  destruct (panel_loop st labels (Z.to_nat count) 0 []) as (rs & Hd & HF & Hs).
  destruct (for_ (seq 0 (Z.to_nat count)) _ []) as [data [u|e]]; [|done].
  simpl in Hd. subst data. intros [= <-].
  exists st, prof, labels. split_and!; try done.
  eapply Forall_impl; [exact HF|]. intros r (j & _ & Hr). exists j.
  by apply panel_record_spec.
Qed.

Lemma panel_states_follow_areas_witness :
  ∃ st prof labels,
    getitem device_areas "deviceState" = Ok st ∧
    getitem device_areas "deviceProfile" = Ok prof ∧
    dict_get prof "areasLabels" (JArr []) = Ok labels ∧
    (∀ i1 i2 r1 r2, (i1 < i2)%nat →
       [{| Panel.name := "Area 1"; Panel.state := JStr "arm"; Panel.area_number := 1 |};
          {| Panel.name := "Office"; Panel.state := JStr "disarm";
             Panel.area_number := 2 |}] !! i1 = Some r1 →
       [{| Panel.name := "Area 1"; Panel.state := JStr "arm"; Panel.area_number := 1 |};
          {| Panel.name := "Office"; Panel.state := JStr "disarm";
             Panel.area_number := 2 |}] !! i2 = Some r2 →
       Panel.area_number r1 < Panel.area_number r2) ∧
    Forall (λ r, ∃ j,
              Panel.area_number r = Z.of_nat j + 1 ∧
              Panel.name r = areas_label labels j ∧
              ∃ areas, getitem st "areas" = Ok areas ∧
                       getindex areas j = Ok (Panel.state r))
      [{| Panel.name := "Area 1"; Panel.state := JStr "arm"; Panel.area_number := 1 |};
       {| Panel.name := "Office"; Panel.state := JStr "disarm"; Panel.area_number := 2 |}].
Proof.
  apply (panel_states_follow_areas device_areas). reflexivity.
Defined.

Lemma ukey_record_spec labels control i r :
  ukey_record labels control i = Ok r →
  ∃ x v label,
    getindex control i = Ok x ∧ py_int x = Ok v ∧ getindex labels i = Ok label ∧
    r = {| Ukey.name := if eq_str label "" then JStr ("Ukey " +:+ pretty (Z.of_nat i + 1))
                        else label;
           Ukey.state := v =? 1;
           Ukey.ukey_number := Z.of_nat i + 1 |}.
Proof.
  unfold ukey_record. rewrite bind_Res.
  destruct (getindex control i) as [x|] eqn:Hx; [|done].
  rewrite bind_Res. destruct (py_int x) as [v|] eqn:Hv; [|done].
  rewrite bind_Res. destruct (getindex labels i) as [label|] eqn:Hl; [|done].
  intros [= <-]. by exists x, v, label.
Qed.

Lemma ukey_setup_data_some d labels limit control :
  try_except (ukey_setup_data d) key_error (Ok None) = Ok (Some (labels, limit, control)) →
  ∃ prof,
    getitem d "deviceProfile" = Ok prof ∧
    getitem prof "ukeysLabels" = Ok labels ∧
    getitem prof "ukeysLimit" = Ok limit ∧
    getitem prof "ukeysControl" = Ok control.
Proof.
  unfold try_except, ukey_setup_data. rewrite bind_Res.
  destruct (getitem d "deviceProfile") as [prof|e] eqn:Hprof;
    [|by destruct (key_error e)].
  rewrite bind_Res. destruct (key_in "ukeysLabels" prof) as [[]|e];
    [| |by destruct (key_error e)]; rewrite ?bind_Res; cbn [mbind Res_bind]; [|done].
  destruct (key_in "ukeysLimit" prof) as [[]|e];
    [| |by destruct (key_error e)]; rewrite ?bind_Res; cbn [mbind Res_bind]; [|done].
  destruct (key_in "ukeysControl" prof) as [[]|e];
    [| |by destruct (key_error e)]; rewrite ?bind_Res; cbn [mbind Res_bind]; [|done].
  destruct (getitem prof "ukeysLabels") as [x1|e] eqn:H1; [|by destruct (key_error e)].
  rewrite bind_Res.
  destruct (getitem prof "ukeysLimit") as [x2|e] eqn:H2; [|by destruct (key_error e)].
  rewrite bind_Res.
  destruct (getitem prof "ukeysControl") as [x3|e] eqn:H3; [|by destruct (key_error e)].
  intros [= <- <- <-]. by exists prof.
Qed.

(** X18. The list [get_ukey_zones] returns is all or nothing: it is
    empty, or it has exactly [ukeysLimit] records, the one at position
    [i] being key [i + 1], on exactly when [int] of [ukeysControl[i]]
    is 1, and named by [ukeysLabels[i]], or ["Ukey i+1"] when the
    label is the empty string. *)
Theorem ukeys_all_or_nothing d l :
  get_ukey_zones d = Ok l →
  l = [] ∨
  ∃ prof labels limit control n,
    getitem d "deviceProfile" = Ok prof ∧
    getitem prof "ukeysLabels" = Ok labels ∧
    getitem prof "ukeysLimit" = Ok limit ∧
    getitem prof "ukeysControl" = Ok control ∧
    as_index limit = Ok n ∧
    length l = Z.to_nat n ∧
    ∀ i r, l !! i = Some r →
      ∃ x v label,
        getindex control i = Ok x ∧ py_int x = Ok v ∧ getindex labels i = Ok label ∧
        r = {| Ukey.name := if eq_str label "" then JStr ("Ukey " +:+ pretty (Z.of_nat i + 1))
                            else label;
               Ukey.state := v =? 1;
               Ukey.ukey_number := Z.of_nat i + 1 |}.
Proof.
  unfold get_ukey_zones. rewrite bind_Res.
  destruct (try_except (ukey_setup_data d) key_error (Ok None))
    as [[[[labels limit] control]|]|] eqn:Hsetup; [| |done].
  2:{ intros [= <-]. by left. }
  apply ukey_setup_data_some in Hsetup as (prof & Hprof & Hl & Hlim & Hc).
  rewrite bind_St. unfold lift at 1.
  destruct (as_index limit) as [n|e] eqn:Hn.
  2:{ destruct (key_or_index_error e); [|done]. intros [= <-]. by left. }
  destruct (for_append_spec (ukey_record labels control) (range n) [])
    as (rs & Hd & HF & Hres).
  destruct (for_ (range n) _ []) as [data [u|e]]; simpl in Hd, Hres; subst data.
  2:{ destruct (key_or_index_error e); [|done]. intros [= <-]. by left. }
  intros [= <-]. right. exists prof, labels, limit, control, n.
  split_and!; try done.
  - rewrite Hres. unfold range. apply length_seq.
  - intros i r Hi.
    destruct (Forall2_lookup_r _ _ _ _ _ HF Hi) as (j & Hj & Hr).
    apply lookup_take_Some in Hj as [Hj _].
    apply range_lookup_inv in Hj as [-> _].
    by apply ukey_record_spec.
Qed.

Lemma ukeys_all_or_nothing_witness :
  [{| Ukey.name := JStr "Gate"; Ukey.state := true; Ukey.ukey_number := 1 |};
   {| Ukey.name := JStr "Ukey 2"; Ukey.state := false; Ukey.ukey_number := 2 |}] = [] ∨
  ∃ prof labels limit control n,
    getitem device_ukeys "deviceProfile" = Ok prof ∧
    getitem prof "ukeysLabels" = Ok labels ∧
    getitem prof "ukeysLimit" = Ok limit ∧
    getitem prof "ukeysControl" = Ok control ∧
    as_index limit = Ok n ∧
    length [{| Ukey.name := JStr "Gate"; Ukey.state := true; Ukey.ukey_number := 1 |};
            {| Ukey.name := JStr "Ukey 2"; Ukey.state := false; Ukey.ukey_number := 2 |}]
      = Z.to_nat n ∧
    ∀ i r,
      [{| Ukey.name := JStr "Gate"; Ukey.state := true; Ukey.ukey_number := 1 |};
       {| Ukey.name := JStr "Ukey 2"; Ukey.state := false; Ukey.ukey_number := 2 |}] !! i
        = Some r →
      ∃ x v label,
        getindex control i = Ok x ∧ py_int x = Ok v ∧ getindex labels i = Ok label ∧
        r = {| Ukey.name := if eq_str label "" then JStr ("Ukey " +:+ pretty (Z.of_nat i + 1))
                            else label;
               Ukey.state := v =? 1;
               Ukey.ukey_number := Z.of_nat i + 1 |}.
Proof.
  apply (ukeys_all_or_nothing device_ukeys). reflexivity.
Defined.

(** * The latest change of an area *)

Lemma assoc_assoc_set_ne {A} k k' (v : A) kvs :
  k ≠ k' → assoc k (assoc_set k' v kvs) = assoc k kvs.
Proof.
  intros Hne. induction kvs as [|[k0 v0] kvs IH]; simpl.
  - by rewrite (proj2 (String.eqb_neq k k') Hne).
  - destruct (String.eqb_spec k' k0) as [->|Hk0]; simpl.
    + by rewrite (proj2 (String.eqb_neq k k0) Hne).
    + by rewrite IH.
Qed.

Lemma created_at_inv rd t :
  created_at rd = Ok t → ∃ x, getitem rd "actionCreated" = Ok x ∧ py_int x = Ok t.
Proof.
  unfold created_at. rewrite bind_Res.
  destruct (getitem rd "actionCreated") as [x|]; [|done]. eauto.
Qed.

(* an entry that is not later than a record is not later than a later record *)
Lemma is_later_change_mono rd rd' c area t t' :
  created_at rd = Ok t → created_at rd' = Ok t' → t <= t' →
  is_later_change rd c area = Ok false → is_later_change rd' c area = Ok false.
Proof.
  intros (x & Hx & Hpx)%created_at_inv (x' & Hx' & Hpx')%created_at_inv Hle.
  unfold is_later_change. rewrite !bind_Res.
  destruct (getitem c "actionCmd") as [cmd|]; [|done].
  destruct (existsb (eq_str cmd) excluded_commands); [done|].
  destruct (getitem c "actionNum") as [num|]; [|done]. cbn [mbind Res_bind].
  destruct (py_int num) as [a|]; [|done]. cbn [mbind Res_bind].
  destruct (py_int area) as [a'|]; [|done]. cbn [mbind Res_bind].
  destruct (negb (a =? a')); [done|].
  rewrite Hx, Hx'. cbn [mbind Res_bind]. rewrite Hpx, Hpx'. cbn [mbind Res_bind].
  destruct (getitem c "actionCreated") as [cr|]; [|done]. cbn [mbind Res_bind].
  destruct (py_int cr) as [tc|]; [|done]. cbn [mbind Res_bind].
  intros [= Hlt%Z.ltb_ge]. f_equal. apply Z.ltb_ge. lia.
Qed.

(* an entry that replaces the record: it qualifies, it is later, and
   it is not later than itself *)
Lemma is_later_change_taken rd c area t :
  created_at rd = Ok t → 0 <= t →
  is_later_change rd c area = Ok true →
  ∃ tc, created_at c = Ok tc ∧ t < tc ∧ qualifies area c ∧
        is_later_change c c area = Ok false.
Proof.
  intros (x & Hx & Hpx)%created_at_inv H0.
  unfold is_later_change, created_at. rewrite !bind_Res.
  destruct (getitem c "actionCmd") as [cmd|] eqn:Hcmd; [|done].
  destruct (existsb (eq_str cmd) excluded_commands) eqn:Hex; [done|].
  destruct (getitem c "actionNum") as [num|] eqn:Hnum; [|done]. cbn [mbind Res_bind].
  destruct (py_int num) as [a|] eqn:Ha; [|done]. cbn [mbind Res_bind].
  destruct (py_int area) as [a'|] eqn:Ha'; [|done]. cbn [mbind Res_bind].
  destruct (Z.eqb_spec a a') as [<-|]; [|done]. cbn [negb].
  rewrite Hx. cbn [mbind Res_bind]. rewrite Hpx. cbn [mbind Res_bind].
  destruct (getitem c "actionCreated") as [cr|] eqn:Hcr; [|done]. cbn [mbind Res_bind].
  destruct (py_int cr) as [tc|] eqn:Htc; [|done]. cbn [mbind Res_bind].
  intros [= Hlt%Z.ltb_lt]. exists tc. split_and!; [done|done| |].
  - exists cmd, num, cr, a, tc. split_and!; try done. lia.
  - by rewrite Z.ltb_irrefl.
Qed.

(* the loop of [get_changed_by_json] from a record dated [t] *)
Lemma latest_change_spec changes area : ∀ rd t res,
  created_at rd = Ok t → 0 <= t →
  latest_change rd changes area = Ok res →
  ∃ t', created_at res = Ok t' ∧ t <= t' ∧
        (res = rd ∨ res ∈ changes ∧ qualifies area res) ∧
        Forall (λ c, is_later_change res c area = Ok false) changes.
Proof.
  induction changes as [|c cs IH]; intros rd t res Ht H0; simpl.
  - intros [= <-]. exists t. split_and!; [done|lia|by left|constructor].
  - rewrite bind_Res.
    destruct (is_later_change rd c area) as [[]|] eqn:E; [| |done]; intros Hres.
    + destruct (is_later_change_taken rd c area t Ht H0 E) as (tc & Htc & Hlt & Hq & Hself).
      destruct (IH c tc res Htc ltac:(lia) Hres) as (t' & Ht' & Hle & Hor & Hall).
      exists t'. split_and!; [done|lia| |].
      * right. destruct Hor as [->|[Hin Hq']]; (split; [|done]).
        -- by constructor.
        -- by constructor.
      * constructor; [|done].
        by eapply (is_later_change_mono c res c area tc t').
    + destruct (IH rd t res Ht H0 Hres) as (t' & Ht' & Hle & Hor & Hall).
      exists t'. split_and!; [done|done| |].
      * destruct Hor as [->|[Hin Hq]]; [by left|]. right. split; [by constructor|done].
      * constructor; [|done].
        by eapply (is_later_change_mono rd res c area t t').
Qed.

(* what "not later" says of an entry that qualifies *)
Lemma not_later_qualifying res c area t :
  created_at res = Ok t →
  qualifies area c →
  is_later_change res c area = Ok false →
  ∃ tc, created_at c = Ok tc ∧ tc <= t.
Proof.
  intros (x & Hx & Hpx)%created_at_inv
         (cmd & num & cr & a & tc & Hcmd & Hex & Hnum & Ha & Ha' & Hcr & Htc & _).
  unfold is_later_change, created_at.
  rewrite Hcmd. cbn [mbind Res_bind]. rewrite Hex, Hnum. cbn [mbind Res_bind].
  rewrite Ha. cbn [mbind Res_bind]. rewrite Ha'. cbn [mbind Res_bind].
  rewrite Z.eqb_refl. cbn [negb]. rewrite Hx. cbn [mbind Res_bind].
  rewrite Hpx. cbn [mbind Res_bind]. rewrite Hcr. cbn [mbind Res_bind].
  rewrite Htc. cbn [mbind Res_bind].
  intros [= Hlt%Z.ltb_ge]. by exists tc.
Qed.

(* the last [try] of [get_changed_by_json] leaves the user alone *)
Lemma format_keeps_user `{LocalTime} res out :
  format_action_created res = Ok out →
  getitem out "userFullname" = getitem res "userFullname".
Proof.
  unfold format_action_created, try_except. rewrite bind_Res.
  destruct (getitem res "actionCreated") as [created|e] eqn:Hc.
  2:{ destruct e; try done. by intros [= <-]. }
  rewrite bind_Res. destruct (py_int created) as [secs|e].
  2:{ destruct e; try done. by intros [= <-]. }
  rewrite bind_Res. destruct (local_time_text (Zc secs) 0) as [txt|e].
  2:{ destruct e; try done. by intros [= <-]. }
  destruct res as [| | | | |kvs]; try done. simpl. intros [= <-]. simpl.
  by rewrite assoc_assoc_set_ne.
Qed.

(** X19. On a parseable action list, [get_changed_by_json] returns,
    with its [actionCreated] turned into a date and its
    [userFullname] as it is, the default record or an entry of the
    list that qualifies for the area (its command is none of the
    bypass, PGM and utility-key commands, its [actionNum] is the area,
    its [actionCreated] is above 0); and no entry of the list that
    qualifies is later than the one returned. *)
Theorem changed_by_picks_latest `{LocalTime} area r body changes s out :
  slot_granted s →
  status r ≠ 404 → status r ≠ 429 →
  json_body r = Parsed body →
  py_iter body = Ok changes →
  (get_changed_by_json area (Response r) s).2 = Ok out →
  ∃ res t,
    format_action_created res = Ok out ∧
    getitem out "userFullname" = getitem res "userFullname" ∧
    created_at res = Ok t ∧
    (res = default_return_data ∨ res ∈ changes ∧ qualifies area res) ∧
    ∀ c, c ∈ changes → qualifies area c → ∃ tc, created_at c = Ok tc ∧ tc <= t.
Proof.
  intros Hg H404 H429 Hj Hi.
  destruct (wait_for_slot_granted s Hg) as (s1 & Hw & _).
  unfold get_changed_by_json, mbind at 1, St_bind at 1. rewrite Hw.
  simpl negb. cbv iota.
  rewrite (proj2 (Z.eqb_neq _ _) H404), (proj2 (Z.eqb_neq _ _) H429), Hj.
  unfold mbind, St_bind, mret, St_ret, lift, record_success, log. rewrite Hi.
  destruct (latest_change default_return_data changes area) as [res|] eqn:E; [|done].
  simpl. intros Hout.
  destruct (latest_change_spec changes area default_return_data 0 res eq_refl
              ltac:(lia) E) as (t & Ht & _ & Hor & Hall).
  exists res, t. split_and!; try done.
  - by apply format_keeps_user.
  - intros c Hc Hq. apply (not_later_qualifying res c area t Ht Hq).
    by apply (proj1 (Forall_forall _ _) Hall).
Qed.

Lemma changed_by_picks_latest_witness :
  ∃ res t,
    format_action_created (H:=epoch_time) res =
      Ok (JObj [("actionCmd", JStr "area-arm"); ("actionNum", JInt 1);
                ("actionCreated", JStr "Thu 01 Jan 1970 00:00:00");
                ("userFullname", JStr "Ann")]) ∧
    getitem (JObj [("actionCmd", JStr "area-arm"); ("actionNum", JInt 1);
                   ("actionCreated", JStr "Thu 01 Jan 1970 00:00:00");
                   ("userFullname", JStr "Ann")]) "userFullname"
      = getitem res "userFullname" ∧
    created_at res = Ok t ∧
    (res = default_return_data ∨
     res ∈ [JObj [("actionCmd", JStr "area-arm"); ("actionNum", JInt 1);
                  ("actionCreated", JInt 1700000500); ("userFullname", JStr "Ann")];
            JObj [("actionCmd", JStr "zone-bypass"); ("actionNum", JInt 1);
                  ("actionCreated", JInt 1700000900); ("userFullname", JStr "Bob")];
            JObj [("actionCmd", JStr "area-disarm"); ("actionNum", JInt 1);
                  ("actionCreated", JInt 1700000100); ("userFullname", JStr "Cid")]] ∧
     qualifies (JInt 1) res) ∧
    ∀ c,
      c ∈ [JObj [("actionCmd", JStr "area-arm"); ("actionNum", JInt 1);
                 ("actionCreated", JInt 1700000500); ("userFullname", JStr "Ann")];
           JObj [("actionCmd", JStr "zone-bypass"); ("actionNum", JInt 1);
                 ("actionCreated", JInt 1700000900); ("userFullname", JStr "Bob")];
           JObj [("actionCmd", JStr "area-disarm"); ("actionNum", JInt 1);
                 ("actionCreated", JInt 1700000100); ("userFullname", JStr "Cid")]] →
      qualifies (JInt 1) c → ∃ tc, created_at c = Ok tc ∧ tc <= t.
Proof.
  apply (changed_by_picks_latest (H:=epoch_time) (JInt 1) response_two_actions
           actions_two_qualifying _ fresh_state);
    [reflexivity|discriminate|discriminate|reflexivity|reflexivity|reflexivity].
Defined.

(** * The rate limiter on the event loop *)

Lemma Qc_eq_Qeq (x y : Qc) : x = y → (x == y)%Q.
Proof. by intros ->. Qed.

(* linear arithmetic on [Qc], by way of [Q] *)
Ltac qc_lra :=
  repeat match goal with
  | H : @eq Qc _ _ |- _ => apply Qc_eq_Qeq in H
  | |- @eq Qc _ _ => apply Qc_is_canon
  end;
  unfold Qcle, Qclt, Qcminus, Qcplus, Qcopp, Q2Qc in *; cbn [this] in *;
  rewrite ?Qred_correct in *;
  lra.

Section EventLoopFacts.
Import OlarmRateLimiter EventLoop.

Lemma Qcmax_cases (x y : Qc) :
  (Qcmax x y = x ∧ (y <= x)%Qc) ∨ (Qcmax x y = y ∧ (x < y)%Qc).
Proof.
  unfold Qcmax. case_bool_decide as Hd; [by right|left].
  split; [done|]. by apply Qcnot_lt_le.
Qed.

Ltac qcmax x y :=
  let H := fresh "Hmax" in
  destruct (Qcmax_cases x y) as [[H ?]|[H ?]]; rewrite ?H in *; clear H.

Lemma tick_monotonic d clk : (monotonic clk <= monotonic (tick d clk))%Qc.
Proof. cbn [tick monotonic]. qcmax 0%Qc d; qc_lra. Qed.

Lemma tick_0 clk : tick 0 clk = clk.
Proof.
  destruct clk as [m s]. unfold tick. cbn [monotonic slept]. f_equal.
  qcmax 0%Qc 0%Qc; qc_lra.
Qed.

(* what [stamp] does *)
Lemma stamp_spec l self clk :
  ∃ s self' clk',
    stamp l self clk = (Granted s, self', clk') ∧
    s = monotonic clk' ∧ _last_request_time self' = s ∧
    (monotonic clk <= s)%Qc ∧
    _min_gap self' = _min_gap self ∧ _backoff_until self' = _backoff_until self ∧
    _consecutive_429s self' = _consecutive_429s self.
Proof.
  unfold stamp. do 3 eexists. split; [reflexivity|].
  cbn [_last_request_time _min_gap _backoff_until _consecutive_429s].
  split_and!; try done. apply tick_monotonic.
Qed.

(* what [gap_check] does: it suspends the call until [_min_gap] after
   the last request, or grants the slot at least that much after it *)
Lemma gap_check_spec l l' self clk :
  ∃ p' self' clk',
    gap_check l l' self clk = (p', self', clk') ∧
    (monotonic clk <= monotonic clk')%Qc ∧
    _min_gap self' = _min_gap self ∧ _backoff_until self' = _backoff_until self ∧
    _consecutive_429s self' = _consecutive_429s self ∧
    ((∃ due, p' = GapSleep due ∧ self' = self ∧
             (_last_request_time self + _min_gap self <= due)%Qc) ∨
     (∃ s, p' = Granted s ∧ s = monotonic clk' ∧ _last_request_time self' = s ∧
           (_last_request_time self + _min_gap self <= s)%Qc)).
Proof.
  unfold gap_check. cbv zeta.
  pose proof (tick_monotonic l clk) as Ht.
  case_bool_decide as Hg.
  - cbn [suspend]. do 3 eexists. split; [reflexivity|]. cbn [monotonic].
    split_and!; try done. left. eexists. split_and!; try done.
    revert Hg Ht. generalize (monotonic (tick l clk)). intros now Hg Ht.
    qcmax 0%Qc (_min_gap self - (now - _last_request_time self))%Qc; qc_lra.
  - destruct (stamp_spec l' self (tick l clk)) as (s & self' & clk' & -> & Hs & Hl & Hm & ?).
    do 3 eexists. split; [reflexivity|]. split_and!; try tauto.
    + rewrite <- Hs. qc_lra.
    + right. exists s. split_and!; try done. apply Qcnot_lt_le in Hg. qc_lra.
Qed.

(* what a run of a call does to the limiter and the clock *)
Lemma resume_frame tm p self clk :
  ∃ p' self' clk',
    resume tm p self clk = (p', self', clk') ∧
    (monotonic clk <= monotonic clk')%Qc ∧
    _min_gap self' = _min_gap self ∧ _backoff_until self' = _backoff_until self ∧
    _consecutive_429s self' = _consecutive_429s self ∧
    (_last_request_time self' = _last_request_time self ∨
     _last_request_time self' = monotonic clk') ∧
    (∀ s, p' = Granted s →
       p = Granted s ∨ (s = monotonic clk' ∧ _last_request_time self' = s)).
Proof.
  destruct p as [|due|due| |s]; cbn [resume].
  - case_bool_decide.
    { do 3 eexists. split; [reflexivity|]. split_and!; try done; try apply Qcle_refl; by left. }
    pose proof (tick_monotonic (lapse1 tm) clk) as H1.
    destruct (is_backed_off self (tick (lapse1 tm) clk)).
    + cbn [suspend]. do 3 eexists. split; [reflexivity|]. cbn [monotonic].
      pose proof (tick_monotonic (lapse2 tm) (tick (lapse1 tm) clk)) as H2.
      split_and!; try done; [qc_lra|by left].
    + destruct (gap_check_spec (lapse2 tm) (lapse3 tm) self (tick (lapse1 tm) clk))
        as (p' & self' & clk' & -> & Hm & Hg & Hb & Hc & Hp).
      do 3 eexists. split; [reflexivity|]. split_and!; try done; [qc_lra| |].
      * destruct Hp as [(d & _ & -> & _)|(s & _ & <- & -> & _)]; [by left|by right].
      * intros s ->. destruct Hp as [(d & [=] & _)|(s' & [= <-] & Hs & Hl & _)]. by right.
  - destruct (gap_check_spec (lapse1 tm) (lapse2 tm) self clk)
      as (p' & self' & clk' & -> & Hm & Hg & Hb & Hc & Hp).
    do 3 eexists. split; [reflexivity|]. split_and!; try done.
    + destruct Hp as [(d & _ & -> & _)|(s & _ & <- & -> & _)]; [by left|by right].
    + intros s ->. destruct Hp as [(d & [=] & _)|(s' & [= <-] & Hs & Hl & _)]. by right.
  - destruct (stamp_spec (lapse1 tm) self clk)
      as (s & self' & clk' & -> & Hs & Hl & Hm & Hg & Hb & Hc).
    do 3 eexists. split; [reflexivity|]. split_and!; try done.
    + rewrite <- Hs. done.
    + right. by rewrite Hl.
    + intros s' [= <-]. by right.
  - do 3 eexists. split; [reflexivity|]. split_and!; try done; try apply Qcle_refl; by left.
  - do 3 eexists. split; [reflexivity|].
    split_and!; try done; try apply Qcle_refl; try (by left).
Qed.

Lemma resume_inv tm p self clk :
  ∀ p' self' clk', resume tm p self clk = (p', self', clk') →
    (monotonic clk <= monotonic clk')%Qc ∧
    _min_gap self' = _min_gap self ∧ _backoff_until self' = _backoff_until self ∧
    _consecutive_429s self' = _consecutive_429s self ∧
    (_last_request_time self' = _last_request_time self ∨
     _last_request_time self' = monotonic clk') ∧
    (∀ s, p' = Granted s →
       p = Granted s ∨ (s = monotonic clk' ∧ _last_request_time self' = s)).
Proof.
  intros p' self' clk' E.
  destruct (resume_frame tm p self clk) as (p'' & self'' & clk'' & E' & H).
  rewrite E in E'. by injection E' as <- <- <-.
Qed.

(* a run of the call keeps it clear of [t], when its sleep has lasted *)
Lemma resume_clear tm p self clk t p' self' clk' :
  resume tm p self clk = (p', self', clk') →
  is_due p clk = true →
  (t <= _last_request_time self)%Qc →
  clear_of t (_min_gap self) p →
  clear_of t (_min_gap self) p'.
Proof.
  intros E Hdue Ht Hp. destruct p as [|due|due| |s]; cbn [resume] in E.
  - case_bool_decide; [by injection E as <- <- <-|].
    destruct (is_backed_off self (tick (lapse1 tm) clk)).
    + cbn [suspend] in E. by injection E as <- <- <-.
    + destruct (gap_check_spec (lapse2 tm) (lapse3 tm) self (tick (lapse1 tm) clk))
        as (q & self1 & clk1 & E1 & _ & _ & _ & _ & Hq).
      rewrite E in E1. injection E1 as <- <- <-.
      destruct Hq as [(d & -> & _ & Hd)|(s & -> & _ & _ & Hs)]; cbn [clear_of]; qc_lra.
  - destruct (gap_check_spec (lapse1 tm) (lapse2 tm) self clk)
      as (q & self1 & clk1 & E1 & _ & _ & _ & _ & Hq).
    rewrite E in E1. injection E1 as <- <- <-.
    destruct Hq as [(d & -> & _ & Hd)|(s & -> & _ & _ & Hs)]; cbn [clear_of]; qc_lra.
  - destruct (stamp_spec (lapse1 tm) self clk) as (s & self1 & clk1 & E1 & _ & _ & Hs & _).
    rewrite E in E1. injection E1 as -> -> ->.
    cbn [is_due] in Hdue. apply bool_decide_eq_true in Hdue.
    cbn [clear_of] in Hp |- *. qc_lra.
  - by injection E as <- <- <-.
  - by injection E as <- <- <-.
Qed.

(* the sleep that waits out the backoff is asked to end at
   [_backoff_until], or at once when that has passed in between *)
Lemma backoff_sleep_due self clk :
  (_backoff_until self <= (suspend (backoff_remaining self clk) clk).2)%Qc.
Proof.
  destruct clk as [now s]. unfold suspend, backoff_remaining. cbn [monotonic snd].
  qcmax 0%Qc (_backoff_until self - now)%Qc.
  - qcmax 0%Qc 0%Qc; qc_lra.
  - qcmax 0%Qc (_backoff_until self - now)%Qc; qc_lra.
Qed.

(* the first run of a call below the threshold *)
Lemma resume_entry tm self clk p' self' clk' :
  resume tm Entry self clk = (p', self', clk') →
  _consecutive_429s self < API_MAX_CONSECUTIVE_429 →
  past_backoff (monotonic clk) (_backoff_until self) clk' p'.
Proof.
  intros E Hc. cbn [resume] in E. rewrite bool_decide_false in E by lia.
  pose proof (tick_monotonic (lapse1 tm) clk) as H1.
  unfold is_backed_off in E. case_bool_decide as Hb.
  - pose proof (backoff_sleep_due self (tick (lapse2 tm) (tick (lapse1 tm) clk))) as Hd.
    cbv zeta in E. destruct (suspend _ _) as [clk3 due]. by injection E as <- <- <-.
  - apply Qcnot_lt_le in Hb.
    destruct (gap_check_spec (lapse2 tm) (lapse3 tm) self (tick (lapse1 tm) clk))
      as (q & self1 & clk1 & E1 & Hm & _ & _ & _ & Hq).
    rewrite E in E1. injection E1 as <- <- <-.
    destruct Hq as [(d & -> & _ & Hd)|(s & -> & -> & _ & Hs)]; cbn [past_backoff].
    + qc_lra.
    + split_and!; [qc_lra|apply Qcle_refl|qc_lra].
Qed.

(* a later run of the call, when its sleep has lasted *)
Lemma resume_past_backoff tm p self clk t0 b p' self' clk' :
  resume tm p self clk = (p', self', clk') →
  is_due p clk = true →
  (t0 <= monotonic clk)%Qc →
  past_backoff t0 b clk p →
  past_backoff t0 b clk' p'.
Proof.
  intros E Hdue Ht Hp. destruct p as [|due|due| |s]; cbn [resume past_backoff] in E, Hp;
    try done.
  - cbn [is_due] in Hdue. apply bool_decide_eq_true in Hdue.
    destruct (gap_check_spec (lapse1 tm) (lapse2 tm) self clk)
      as (q & self1 & clk1 & E1 & Hm & _ & _ & _ & Hq).
    rewrite E in E1. injection E1 as <- <- <-.
    destruct Hq as [(d & -> & _ & Hd)|(s & -> & -> & _ & Hs)]; cbn [past_backoff].
    + qc_lra.
    + split_and!; [qc_lra|apply Qcle_refl|qc_lra].
  - destruct (stamp_spec (lapse1 tm) self clk) as (s & self1 & clk1 & E1 & -> & _ & Hs & _).
    rewrite E in E1. injection E1 as -> -> ->. cbn [past_backoff].
    split_and!; [qc_lra|apply Qcle_refl|qc_lra].
  - by injection E as <- <- <-.
Qed.

(* every run brings the call nearer to its return, and a call that has
   entered is not denied later *)
Lemma resume_runs_left tm p self clk p' self' clk' :
  resume tm p self clk = (p', self', clk') →
  ((runs_left p' < runs_left p)%nat ∨ runs_left p' = 0%nat) ∧
  (p ≠ Entry → p ≠ Denied → p' ≠ Entry ∧ p' ≠ Denied) ∧
  (p = Entry → _consecutive_429s self < API_MAX_CONSECUTIVE_429 →
   p' ≠ Entry ∧ p' ≠ Denied).
Proof.
  intros E. destruct p as [|due|due| |s]; cbn [resume] in E.
  - case_bool_decide as Hc.
    { injection E as <- <- <-. cbn [runs_left]. split_and!; [left; lia|done|lia]. }
    destruct (is_backed_off self (tick (lapse1 tm) clk)).
    + cbn [suspend] in E. injection E as <- <- <-. cbn [runs_left].
      split_and!; [left; lia|done|done].
    + destruct (gap_check_spec (lapse2 tm) (lapse3 tm) self (tick (lapse1 tm) clk))
        as (q & self1 & clk1 & E1 & _ & _ & _ & _ & Hq).
      rewrite E in E1. injection E1 as <- <- <-.
      destruct Hq as [(d & -> & _)|(s & -> & _)]; cbn [runs_left];
        (split_and!; [left; lia|done|done]).
  - destruct (gap_check_spec (lapse1 tm) (lapse2 tm) self clk)
      as (q & self1 & clk1 & E1 & _ & _ & _ & _ & Hq).
    rewrite E in E1. injection E1 as <- <- <-.
    destruct Hq as [(d & -> & _)|(s & -> & _)]; cbn [runs_left];
      (split_and!; [left; lia|done|done]).
  - destruct (stamp_spec (lapse1 tm) self clk) as (s & self1 & clk1 & E1 & _).
    rewrite E in E1. injection E1 as -> -> ->. cbn [runs_left].
    split_and!; [left; lia|done|done].
  - injection E as <- <- <-. split_and!; [by right|done|done].
  - injection E as <- <- <-. split_and!; [by right|done|done].
Qed.

(** ** Runs of the loop *)

Lemma loop_run_app evs1 evs2 w : run (evs1 ++ evs2) w = run evs2 (run evs1 w).
Proof. revert w. induction evs1 as [|ev evs1 IH]; intros w; [done|]. apply IH. Qed.

Lemma punctual_app i evs1 evs2 w :
  punctual i (evs1 ++ evs2) w = punctual i evs1 w && punctual i evs2 (run evs1 w).
Proof.
  revert w. induction evs1 as [|ev evs1 IH]; intros w; [done|].
  cbn [app punctual run]. by rewrite IH, andb_assoc.
Qed.

(* the run of call [i] by the loop *)
Lemma step_resume i tm w p :
  calls w !! i = Some p →
  ∃ p' self' clk',
    resume tm p (shared w) (wall w) = (p', self', clk') ∧
    step (Resume i tm) w = mkWorld self' clk' (<[i := p']> (calls w)) ∧
    calls (step (Resume i tm) w) !! i = Some p'.
Proof.
  intros Hp. unfold step. rewrite Hp.
  destruct (resume tm p (shared w) (wall w)) as [[p' self'] clk'].
  do 3 eexists. split_and!; try done. cbn [calls].
  apply list_lookup_insert_eq. by eapply lookup_lt_Some.
Qed.

(* any other event leaves the call where it stands *)
Lemma step_other ev w i p :
  calls w !! i = Some p →
  (∀ tm, ev ≠ Resume i tm) →
  calls (step ev w) !! i = Some p.
Proof.
  intros Hp Hne. destruct ev as [|j tm| | | |d]; cbn [step calls]; try done.
  - by apply lookup_app_l_Some.
  - destruct (calls w !! j) as [q|] eqn:Hq; [|done].
    destruct (resume tm q (shared w) (wall w)) as [[p' self'] clk']. cbn [calls].
    rewrite list_lookup_insert_ne; [done|]. intros ->. by apply (Hne tm).
Qed.

Lemma resume_or_other ev i : (∃ tm, ev = Resume i tm) ∨ (∀ tm, ev ≠ Resume i tm).
Proof.
  destruct ev as [|j tm| | | |d]; try (by right).
  destruct (decide (j = i)) as [->|Hne]; [left; by exists tm|right].
  intros tm' [= ? _]. done.
Qed.

(* what an event does to the limiter and the clock *)
Lemma loop_step_frame ev w :
  _min_gap (shared (step ev w)) = _min_gap (shared w) ∧
  (monotonic (wall w) <= monotonic (wall (step ev w)))%Qc ∧
  (_last_request_time (shared (step ev w)) = _last_request_time (shared w) ∨
   _last_request_time (shared (step ev w)) = monotonic (wall (step ev w))) ∧
  (∀ i s, calls (step ev w) !! i = Some (Granted s) →
     calls w !! i = Some (Granted s) ∨ s = _last_request_time (shared (step ev w))).
Proof.
  destruct ev as [|j tm| | | |d]; cbn [step].
  - cbn [shared wall calls]. split_and!; [done|apply Qcle_refl|by left|].
    intros i s Hi. apply lookup_snoc_Some in Hi as [[_ Hi]|[_ [=]]]. by left.
  - destruct (calls w !! j) as [q|] eqn:Hq.
    2:{ split_and!; [done|apply Qcle_refl|by left|]. intros i s Hi. by left. }
    destruct (resume tm q (shared w) (wall w)) as [[p' self'] clk'] eqn:E.
    destruct (resume_inv _ _ _ _ _ _ _ E) as (Hm & Hg & _ & _ & Hl & Hs).
    cbn [shared wall calls]. split_and!; try done.
    intros i s Hi. apply list_lookup_insert_Some in Hi as [(-> & -> & _)|[_ Hi]];
      [|by left].
    destruct (Hs s eq_refl) as [->|[_ Hls]]; [by left|by right].
  - cbn [shared wall calls]. split_and!; [done|apply Qcle_refl|by left|]. intros; by left.
  - cbn [shared wall calls]. split_and!; [done|apply Qcle_refl|by left|]. intros; by left.
  - cbn [shared wall calls]. split_and!; [done|apply Qcle_refl|by left|]. intros; by left.
  - cbn [shared wall calls]. split_and!; [done|apply tick_monotonic|by left|].
    intros; by left.
Qed.

Lemma loop_step_sound ev w : sound w → sound (step ev w).
Proof.
  intros [Hl Hg]. destruct (loop_step_frame ev w) as (_ & Hnow & Hlast & Hs).
  assert (_last_request_time (shared w) <= _last_request_time (shared (step ev w)))%Qc
    as Hmono.
  { destruct Hlast as [->| ->]; [apply Qcle_refl|qc_lra]. }
  split.
  - destruct Hlast as [->| ->]; [qc_lra|apply Qcle_refl].
  - intros i s Hi. destruct (Hs i s Hi) as [Hold| ->]; [|apply Qcle_refl].
    specialize (Hg i s Hold). qc_lra.
Qed.

Lemma loop_run_sound evs : ∀ w, sound w → sound (run evs w).
Proof.
  induction evs as [|ev evs IH]; intros w Hw; [done|].
  apply IH. by apply loop_step_sound.
Qed.

(* the sleep of call [i] has lasted when the loop runs the call *)
Lemma punctual_cons i ev evs w :
  punctual i (ev :: evs) w = true →
  (∀ tm p, ev = Resume i tm → calls w !! i = Some p → is_due p (wall w) = true) ∧
  punctual i evs (step ev w) = true.
Proof.
  cbn [punctual]. intros [Hev Hrest]%andb_true_iff. split; [|done].
  intros tm p -> Hp. rewrite bool_decide_true in Hev by done. by rewrite Hp in Hev.
Qed.

(* an event keeps a call clear of [t] *)
Lemma step_clear ev w j p t :
  calls w !! j = Some p →
  (∀ tm q, ev = Resume j tm → calls w !! j = Some q → is_due q (wall w) = true) →
  (t <= _last_request_time (shared w))%Qc →
  (_last_request_time (shared w) <= monotonic (wall w))%Qc →
  clear_of t (_min_gap (shared w)) p →
  ∃ p', calls (step ev w) !! j = Some p' ∧
        clear_of t (_min_gap (shared (step ev w))) p' ∧
        (t <= _last_request_time (shared (step ev w)))%Qc ∧
        (_last_request_time (shared (step ev w)) <= monotonic (wall (step ev w)))%Qc.
Proof.
  intros Hp Hdue Ht Hl Hc.
  destruct (loop_step_frame ev w) as (Hgap & Hnow & Hlast & _).
  assert ((t <= _last_request_time (shared (step ev w)))%Qc ∧
          (_last_request_time (shared (step ev w)) <= monotonic (wall (step ev w)))%Qc)
    as [Ht' Hl'].
  { destruct Hlast as [->| ->]; split; try apply Qcle_refl; qc_lra. }
  rewrite Hgap.
  destruct (resume_or_other ev j) as [[tm ->]|Hne].
  - destruct (step_resume j tm w p Hp) as (p' & self' & clk' & E & _ & Hp').
    exists p'. split_and!; try done.
    eapply resume_clear; [exact E| |exact Ht|exact Hc]. by eapply Hdue.
  - exists p. split_and!; try done. by apply step_other.
Qed.

Lemma run_clear evs : ∀ w j p t,
  calls w !! j = Some p →
  punctual j evs w = true →
  (t <= _last_request_time (shared w))%Qc →
  (_last_request_time (shared w) <= monotonic (wall w))%Qc →
  clear_of t (_min_gap (shared w)) p →
  ∃ p', calls (run evs w) !! j = Some p' ∧
        clear_of t (_min_gap (shared w)) p'.
Proof.
  induction evs as [|ev evs IH]; intros w j p t Hp Hpun Ht Hl Hc; [by exists p|].
  apply punctual_cons in Hpun as [Hdue Hpun].
  destruct (step_clear ev w j p t Hp Hdue Ht Hl Hc) as (p1 & Hp1 & Hc1 & Ht1 & Hl1).
  destruct (loop_step_frame ev w) as (Hgap & _).
  cbn [run]. rewrite <- Hgap. by eapply IH.
Qed.

Lemma past_backoff_later t0 b clk clk' p :
  (monotonic clk <= monotonic clk')%Qc →
  past_backoff t0 b clk p → past_backoff t0 b clk' p.
Proof.
  intros Hm. destruct p as [|due|due| |s]; cbn [past_backoff]; try done.
  - intros Hb. qc_lra.
  - intros (? & ? & ?). split_and!; [done|qc_lra|done].
Qed.

Lemma step_past_backoff ev w i p t0 b :
  calls w !! i = Some p →
  (∀ tm q, ev = Resume i tm → calls w !! i = Some q → is_due q (wall w) = true) →
  (t0 <= monotonic (wall w))%Qc →
  past_backoff t0 b (wall w) p →
  ∃ p', calls (step ev w) !! i = Some p' ∧
        (t0 <= monotonic (wall (step ev w)))%Qc ∧
        past_backoff t0 b (wall (step ev w)) p'.
Proof.
  intros Hp Hdue Ht Hb.
  destruct (loop_step_frame ev w) as (_ & Hnow & _).
  assert (t0 <= monotonic (wall (step ev w)))%Qc as Ht' by qc_lra.
  destruct (resume_or_other ev i) as [[tm ->]|Hne].
  - destruct (step_resume i tm w p Hp) as (p' & self' & clk' & E & Hw & Hp').
    exists p'. split_and!; try done. rewrite Hw. cbn [wall].
    eapply resume_past_backoff; [exact E| |exact Ht|exact Hb]. by eapply Hdue.
  - exists p. split_and!; try done; [by apply step_other|].
    by eapply past_backoff_later.
Qed.

Lemma run_past_backoff evs : ∀ w i p t0 b,
  calls w !! i = Some p →
  punctual i evs w = true →
  (t0 <= monotonic (wall w))%Qc →
  past_backoff t0 b (wall w) p →
  ∃ p', calls (run evs w) !! i = Some p' ∧ past_backoff t0 b (wall (run evs w)) p'.
Proof.
  induction evs as [|ev evs IH]; intros w i p t0 b Hp Hpun Ht Hb; [by exists p|].
  apply punctual_cons in Hpun as [Hdue Hpun].
  destruct (step_past_backoff ev w i p t0 b Hp Hdue Ht Hb) as (p1 & Hp1 & Ht1 & Hb1).
  cbn [run]. by eapply IH.
Qed.

(* a call that has entered and is not denied *)
Lemma step_runs_left ev w i p :
  calls w !! i = Some p → p ≠ Entry → p ≠ Denied →
  ∃ p', calls (step ev w) !! i = Some p' ∧ p' ≠ Entry ∧ p' ≠ Denied ∧
        (runs_left p' ≤ runs_left p)%nat ∧
        (∀ tm, ev = Resume i tm → (runs_left p' ≤ runs_left p - 1)%nat).
Proof.
  intros Hp He Hd. destruct (resume_or_other ev i) as [[tm ->]|Hne].
  - destruct (step_resume i tm w p Hp) as (p' & self' & clk' & E & _ & Hp').
    destruct (resume_runs_left _ _ _ _ _ _ _ E) as (Hlt & Hlive & _).
    destruct (Hlive He Hd) as [He' Hd'].
    assert (runs_left p' ≤ runs_left p - 1)%nat as Hle.
    { destruct Hlt as [Hlt|Hlt]; lia. }
    exists p'. split_and!; try done; lia.
  - exists p. split_and!; [by apply step_other|done|done|lia|].
    intros tm E. by destruct (Hne tm).
Qed.

Lemma run_runs_left evs : ∀ w i p,
  calls w !! i = Some p → p ≠ Entry → p ≠ Denied →
  ∃ p', calls (run evs w) !! i = Some p' ∧ p' ≠ Entry ∧ p' ≠ Denied ∧
        (runs_left p' ≤ runs_left p)%nat.
Proof.
  induction evs as [|ev evs IH]; intros w i p Hp He Hd; [by exists p|].
  destruct (step_runs_left ev w i p Hp He Hd) as (p1 & Hp1 & He1 & Hd1 & Hle & _).
  destruct (IH _ _ _ Hp1 He1 Hd1) as (p2 & Hp2 & He2 & Hd2 & Hle2).
  exists p2. split_and!; try done. lia.
Qed.

(* three runs of a call that enters below the threshold bring it to
   its grant, whatever else happens in between *)
Lemma three_runs_grant i tm1 tm2 tm3 evs1 evs2 evs3 w :
  calls w !! i = Some Entry →
  _consecutive_429s (shared w) < API_MAX_CONSECUTIVE_429 →
  ∃ s, calls (run (Resume i tm1 :: evs1 ++ Resume i tm2 :: evs2 ++ Resume i tm3 :: evs3) w)
         !! i = Some (Granted s).
Proof.
  intros Hp Hc. cbn [run].
  destruct (step_resume i tm1 w Entry Hp) as (p1 & self1 & clk1 & E1 & _ & Hp1).
  destruct (resume_runs_left _ _ _ _ _ _ _ E1) as (Hlt1 & _ & Hlive1).
  destruct (Hlive1 eq_refl Hc) as [He1 Hd1].
  assert (runs_left p1 ≤ 2)%nat as Hle1.
  { cbn [runs_left] in Hlt1. lia. }
  set (w1 := step (Resume i tm1) w) in *.
  rewrite loop_run_app.
  destruct (run_runs_left evs1 w1 i p1 Hp1 He1 Hd1) as (p2 & Hp2 & He2 & Hd2 & Hle2).
  set (w2 := run evs1 w1) in *. cbn [run].
  destruct (step_runs_left (Resume i tm2) w2 i p2 Hp2 He2 Hd2)
    as (p3 & Hp3 & He3 & Hd3 & _ & Hle3).
  specialize (Hle3 tm2 eq_refl).
  set (w3 := step (Resume i tm2) w2) in *.
  rewrite loop_run_app.
  destruct (run_runs_left evs2 w3 i p3 Hp3 He3 Hd3) as (p4 & Hp4 & He4 & Hd4 & Hle4).
  set (w4 := run evs2 w3) in *. cbn [run].
  destruct (step_runs_left (Resume i tm3) w4 i p4 Hp4 He4 Hd4)
    as (p5 & Hp5 & He5 & Hd5 & _ & Hle5).
  specialize (Hle5 tm3 eq_refl).
  set (w5 := step (Resume i tm3) w4) in *.
  destruct (run_runs_left evs3 w5 i p5 Hp5 He5 Hd5) as (p6 & Hp6 & He6 & Hd6 & Hle6).
  rewrite Hp6. destruct p6 as [|due|due| |s]; try done; cbn [runs_left] in *; try lia.
  by exists s.
Qed.

(* the grant of a call that enters below the threshold, when its
   sleeps are not cut short *)
Lemma grant_bounds i tm evs w s :
  calls w !! i = Some Entry →
  _consecutive_429s (shared w) < API_MAX_CONSECUTIVE_429 →
  (_last_request_time (shared w) <= monotonic (wall w))%Qc →
  punctual i (Resume i tm :: evs) w = true →
  calls (run (Resume i tm :: evs) w) !! i = Some (Granted s) →
  (monotonic (wall w) <= s)%Qc ∧
  (s <= monotonic (wall (run (Resume i tm :: evs) w)))%Qc ∧
  (_backoff_until (shared w) <= s)%Qc ∧
  (_last_request_time (shared w) + _min_gap (shared w) <= s)%Qc.
Proof.
  intros Hp Hc Hl Hpun Hs.
  destruct (run_clear (Resume i tm :: evs) w i Entry (_last_request_time (shared w))
              Hp Hpun) as (p' & Hp' & Hclear); [apply Qcle_refl|done|done|].
  rewrite Hs in Hp'. injection Hp' as <-. cbn [clear_of] in Hclear.
  apply punctual_cons in Hpun as [_ Hpun]. cbn [run] in Hs |- *.
  destruct (step_resume i tm w Entry Hp) as (p1 & self1 & clk1 & E1 & Hw1 & Hp1).
  pose proof (resume_entry _ _ _ _ _ _ E1 Hc) as Hb1.
  destruct (resume_inv _ _ _ _ _ _ _ E1) as (Hm1 & _).
  destruct (run_past_backoff evs (step (Resume i tm) w) i p1
              (monotonic (wall w)) (_backoff_until (shared w)) Hp1 Hpun)
    as (p2 & Hp2 & Hb2).
  { rewrite Hw1. done. }
  { rewrite Hw1. done. }
  rewrite Hs in Hp2. injection Hp2 as <-. cbn [past_backoff] in Hb2.
  destruct Hb2 as (? & ? & ?). by split_and!.
Qed.

Lemma Qcmax_idem (d : Qc) : Qcmax 0 (Qcmax 0 d) = Qcmax 0 d.
Proof. qcmax 0%Qc d; [|by qcmax 0%Qc d]. qcmax 0%Qc 0%Qc; qc_lra. Qed.

(* time passes until the sleep is over: the clock of [sleep] *)
Lemma pass_until_due d clk :
  tick ((suspend d clk).2 - monotonic (suspend d clk).1) (suspend d clk).1 = sleep d clk.
Proof.
  destruct clk as [now s]. unfold suspend, tick, sleep. cbn [monotonic slept fst snd].
  f_equal. rewrite <- (Qcmax_idem d) at 2. generalize (Qcmax 0 d). intros m.
  by replace (now + m - now)%Qc with m by qc_lra.
Qed.

(* the wake-up of the only call, suspended by [suspend d clk] *)
Lemma wake_suspended self d clk p :
  p = BackoffSleep (suspend d clk).2 ∨ p = GapSleep (suspend d clk).2 →
  wake 0 (mkWorld self (suspend d clk).1 [p]) =
  step (Resume 0 instant) (mkWorld self (sleep d clk) [p]).
Proof.
  intros [-> | ->]; unfold wake; cbn [calls lookup list_lookup wall];
    change (step (Pass ?x) (mkWorld ?a ?b ?c)) with (mkWorld a (tick x b) c);
    by rewrite pass_until_due.
Qed.

(* the only call from its gap check to its grant *)
Lemma wake_after_gap_check self c :
  wake 0 (let '(q, self1, c1) := gap_check 0 0 self c in mkWorld self1 c1 [q]) =
  let c2 := if bool_decide (monotonic c - _last_request_time self < _min_gap self)%Qc
            then sleep (_min_gap self - (monotonic c - _last_request_time self)) c
            else c in
  mkWorld {| _min_gap := _min_gap self;
             _last_request_time := monotonic c2;
             _backoff_until := _backoff_until self;
             _consecutive_429s := _consecutive_429s self |}
          c2 [Granted (monotonic c2)].
Proof.
  unfold gap_check. rewrite tick_0. cbv zeta. case_bool_decide.
  - etrans.
    { apply (wake_suspended self
               (_min_gap self - (monotonic c - _last_request_time self)) c
               (GapSleep (suspend (_min_gap self - (monotonic c - _last_request_time self))
                            c).2)).
      by right. }
    cbn [step calls lookup list_lookup shared wall resume stamp lapse1 instant].
    by rewrite tick_0.
  - unfold stamp. by rewrite tick_0.
Qed.

Lemma run_alone_wait_for_slot self clk :
  run_alone self clk =
  let '(allowed, self', clk') := wait_for_slot self clk in
  mkWorld self' clk' [if allowed then Granted (monotonic clk') else Denied].
Proof.
  unfold run_alone, wait_for_slot.
  cbn [step calls lookup list_lookup shared wall resume].
  case_bool_decide as Hc; [done|].
  cbn [lapse1 lapse2 lapse3 instant]. rewrite !tick_0.
  destruct (is_backed_off self clk) eqn:Hb.
  - cbv zeta.
    etrans.
    { apply (f_equal (wake 0)).
      apply (wake_suspended self (backoff_remaining self clk) clk
               (BackoffSleep (suspend (backoff_remaining self clk) clk).2)).
      by left. }
    cbn [step calls lookup list_lookup shared wall resume lapse1 lapse2 instant].
    etrans; [apply (wake_after_gap_check self (sleep (backoff_remaining self clk) clk))|].
    done.
  - etrans.
    { apply (f_equal (wake 0)). apply (wake_after_gap_check self clk). }
    done.
Qed.

(** X1. On the event loop, a call of [wait_for_slot] that enters while
    the counter of consecutive 429s is below the threshold has been
    granted the slot after three runs, whatever the other users of the
    limiter do in between and however long every step takes. When none
    of its sleeps is cut short, the time it stamps as
    [_last_request_time] is not before its entry, not after the
    present, not before the [_backoff_until] it found and at least
    [_min_gap] after the [_last_request_time] it found. Run alone, by
    code that takes no time and with sleeps that last as asked, the
    call is [OlarmRateLimiter.wait_for_slot]. *)
Theorem wait_for_slot_on_the_loop i tm1 tm2 tm3 evs1 evs2 evs3 w :
  calls w !! i = Some Entry →
  _consecutive_429s (shared w) < API_MAX_CONSECUTIVE_429 →
  (_last_request_time (shared w) <= monotonic (wall w))%Qc →
  let evs := Resume i tm1 :: evs1 ++ Resume i tm2 :: evs2 ++ Resume i tm3 :: evs3 in
  (∃ s, calls (run evs w) !! i = Some (Granted s) ∧
        (punctual i evs w = true →
         (monotonic (wall w) <= s)%Qc ∧
         (s <= monotonic (wall (run evs w)))%Qc ∧
         (_backoff_until (shared w) <= s)%Qc ∧
         (_last_request_time (shared w) + _min_gap (shared w) <= s)%Qc)) ∧
  run_alone (shared w) (wall w) =
    (let '(allowed, self', clk') := wait_for_slot (shared w) (wall w) in
     mkWorld self' clk' [if allowed then Granted (monotonic clk') else Denied]).
Proof.
  intros Hp Hc Hl evs. split; [|apply run_alone_wait_for_slot].
  destruct (three_runs_grant i tm1 tm2 tm3 evs1 evs2 evs3 w Hp Hc) as [s Hs].
  exists s. split; [done|]. intros Hpun.
  by apply (grant_bounds i tm1 (evs1 ++ Resume i tm2 :: evs2 ++ Resume i tm3 :: evs3) w s).
Qed.

Lemma wait_for_slot_on_the_loop_witness :
  let evs := Resume 0 instant :: [Resume 1 instant; Pass (Zc 1)] ++
             Resume 0 instant :: [Resume 1 instant] ++ Resume 0 instant :: [] in
  (∃ s, calls (run evs two_calls) !! 0%nat = Some (Granted s) ∧
        (punctual 0 evs two_calls = true →
         (monotonic (wall two_calls) <= s)%Qc ∧
         (s <= monotonic (wall (run evs two_calls)))%Qc ∧
         (_backoff_until (shared two_calls) <= s)%Qc ∧
         (_last_request_time (shared two_calls) + _min_gap (shared two_calls) <= s)%Qc)) ∧
  run_alone (shared two_calls) (wall two_calls) =
    (let '(allowed, self', clk') := wait_for_slot (shared two_calls) (wall two_calls) in
     mkWorld self' clk' [if allowed then Granted (monotonic clk') else Denied]).
Proof.
  apply (wait_for_slot_on_the_loop 0 instant instant instant
           [Resume 1 instant; Pass (Zc 1)] [Resume 1 instant] [] two_calls).
  - reflexivity.
  - simpl. unfold API_MAX_CONSECUTIVE_429. lia.
  - by vm_compute.
Defined.

(** X13. Two calls of [wait_for_slot] on one limiter that do not
    overlap are granted at least [_min_gap] apart: when a call has been
    granted and another has not come to its gap check yet, the other,
    if none of its sleeps is cut short, is granted no sooner than
    [_min_gap] after the first, whatever the other users of the limiter
    do in between and however long every step takes. Along the way the
    last request is never in the future and no stamp is after it. *)
Theorem granted_slots_are_spaced evs w i j tA p :
  sound w →
  calls w !! i = Some (Granted tA) →
  calls w !! j = Some p →
  before_gap_check p →
  punctual j evs w = true →
  sound (run evs w) ∧
  ∀ tB, calls (run evs w) !! j = Some (Granted tB) →
        (tA + _min_gap (shared w) <= tB)%Qc.
Proof.
  intros Hw Hi Hj Hp Hpun. split; [by apply loop_run_sound|].
  intros tB HB. destruct Hw as [Hl Hg]. specialize (Hg i tA Hi).
  destruct (run_clear evs w j p tA Hj Hpun Hg Hl) as (p' & Hp' & Hc).
  { by destruct Hp as [->|[due ->]]. }
  rewrite HB in Hp'. by injection Hp' as <-.
Qed.

Lemma granted_slots_are_spaced_witness :
  let w := run first_call two_calls in
  calls (run second_call w) !! 1%nat = Some (Granted (Zc 13)) ∧
  (Zc 11 + _min_gap (shared w) <= Zc 13)%Qc.
Proof.
  intros w. split; [reflexivity|].
  apply (granted_slots_are_spaced second_call w 0 1 (Zc 11) Entry).
  - apply loop_run_sound. split; [by vm_compute|].
    intros [|[|i]] s; simpl; intros [=].
  - reflexivity.
  - reflexivity.
  - by left.
  - reflexivity.
  - reflexivity.
Defined.

(* calls that overlap are granted at the same instant: both find the
   last request one second old, both sleep one second, both are
   granted when the second is over *)
Example overlapping_calls_meet :
  calls (run overlapping two_calls) = [Granted (Zc 11); Granted (Zc 11)] ∧
  punctual 0 overlapping two_calls = true ∧
  punctual 1 overlapping two_calls = true.
Proof. split_and!; reflexivity. Qed.

End EventLoopFacts.
